(** * kill-monsters: a shallow embedding of the simulation core

    The development follows the TypeScript sources: [gameUtils] (spatial
    helpers), [Equipment] (stat bags, the equipment factory and manager),
    [Skill], [Player], [Monster], [Chunk] (map generation) and [GameSystem]
    (the per-tick combat sweeps).

    Number model.  A JavaScript [number] is modelled by an exact rational
    [Q]; NaN and the infinities are outside the model.  Equality on numbers
    is [Qeq] ([==]).  [Math.floor] is [Qfloor], [Math.max]/[Math.min] are
    [Qmax]/[Qmin].

    Environment model.  [Math.random()], [Date.now()] and [Math.sin] are
    inputs of the program: a [Runtime] gives the sequence of values the
    successive calls return, and the [World] keeps a cursor into each
    sequence.  Equipment objects are JavaScript objects that are shared by
    reference and mutated in place, so they live in a store
    ([heap : gmap nat Equipment.t]) and the player's lists hold addresses.

    Loops.  The [while] loop of [gainExperience] takes a bound on its
    iterations and gives [None] when the bound is hit; the properties show
    which bound is enough.  The [for] loops are structural recursions. *)

From Stdlib Require Import QArith Qround Qminmax Qabs ZArith Lia Lqa String.
From stdpp Require Import base option list gmap strings.

Open Scope Q_scope.

(** ** JavaScript numbers *)

Module JS.

Definition Math_floor (x : Q) : Q := inject_Z (Qfloor x).

Definition Math_max (a b : Q) : Q := Qmax a b.

Definition Math_min (a b : Q) : Q := Qmin a b.

(** [a < b], [a <= b] and [a >= b] as tests. *)
Definition ltb (a b : Q) : bool := negb (Qle_bool b a).

Definition leb (a b : Q) : bool := Qle_bool a b.

Definition geb (a b : Q) : bool := Qle_bool b a.

(** Truthiness of an optional numeric property: [undefined] and [0] are
    falsy. *)
Definition truthy (v : option Q) : bool :=
  match v with
  | Some q => negb (Qeq_bool q 0)
  | None => false
  end.

(** [x - Math.floor(x)] *)
Definition frac (x : Q) : Q := x - Math_floor x.

(** [s.includes(pat)] *)
Fixpoint includes (pat s : string) : bool :=
  String.prefix pat s ||
  match s with
  | EmptyString => false
  | String _ s' => includes pat s'
  end.

End JS.

(** ** The environment: random draws, clock readings, sine *)

Record Runtime := {
  Math_random : nat -> Q;          (* the n-th value returned by Math.random() *)
  Date_now : nat -> Q;             (* the n-th value returned by Date.now() *)
  Math_sin : Q -> Q;
  (* Date.now().toString(36) + Math.random().toString(36).substr(2), as a
     function of the two numbers that are printed *)
  base36_id : Q -> Q -> string
}.

(** Every draw of [Math.random()] lies in [[0, 1)]. *)
Definition valid_random (rt : Runtime) : Prop :=
  forall n, 0 <= Math_random rt n /\ Math_random rt n < 1.

Module Equipment.

Inductive type := WEAPON | ARMOR | ACCESSORY.

Inductive rarity := common | uncommon | rare | epic | legendary.

(** The sparse stat bag: an absent key is [None]. *)
Record stats_t := {
  attack : option Q;
  defense : option Q;
  maxHealth : option Q;
  criticalRate : option Q;
  lifesteal : option Q
}.

(** An equipment object.  [level] is only present on objects built by the
    [BaseEquipment] constructor; [has_methods] tells whether the object has
    the [BaseEquipment] prototype ([applyEffect], [removeEffect], ...):
    object literals and spread copies do not. *)
Record t := {
  id : string;
  name : string;
  description : string;
  type_ : type;
  rarity_ : rarity;
  level : option Q;
  stats : stats_t;
  isEquipped : bool;
  has_methods : bool
}.

Definition set_isEquipped (b : bool) (e : t) : t :=
  {| id := id e; name := name e; description := description e;
     type_ := type_ e; rarity_ := rarity_ e; level := level e;
     stats := stats e; isEquipped := b; has_methods := has_methods e |}.

#[global] Instance type_eq_dec : EqDecision type.
Proof. solve_decision. Defined.

#[global] Instance rarity_eq_dec : EqDecision rarity.
Proof. solve_decision. Defined.

End Equipment.

(** ** The world: the object store and the cursors into the environment *)

Record World := {
  heap : gmap nat Equipment.t;
  rnd : nat;
  clk : nat
}.

Definition M (A : Type) : Type := World -> A * World.

Definition ret {A} (a : A) : M A := fun w => (a, w).

Definition bind {A B} (c : M A) (k : A -> M B) : M B :=
  fun w => let '(a, w') := c w in k a w'.

Notation "'do' x <- c ; k" := (bind c (fun x => k))
  (at level 10, x pattern, c at level 100, k at level 200).

Section Environment.
Variable rt : Runtime.

Definition random_draw : M Q :=
  fun w => (Math_random rt (rnd w),
            {| heap := heap w; rnd := S (rnd w); clk := clk w |}).

Definition now : M Q :=
  fun w => (Date_now rt (clk w),
            {| heap := heap w; rnd := rnd w; clk := S (clk w) |}).

End Environment.

(** Object creation: the new object gets an address that is not in use. *)
Definition alloc (e : Equipment.t) : M nat :=
  fun w => let l := fresh (dom (heap w)) in
           (l, {| heap := <[l := e]> (heap w); rnd := rnd w; clk := clk w |}).

Definition store (l : nat) (e : Equipment.t) : M unit :=
  fun w => (tt, {| heap := <[l := e]> (heap w); rnd := rnd w; clk := clk w |}).

Definition get_heap : M (gmap nat Equipment.t) := fun w => (heap w, w).

(** ** gameUtils *)

Module gameUtils.

Record Position := { px : Q; py : Q }.

Record Collider := {
  x : Q;
  y : Q;
  width : Q;
  height : Q;
  isSolid : bool
}.

Section WithRuntime.
Variable rt : Runtime.

(** [generateId]: one clock reading, then one random draw. *)
Definition generateId : M string :=
  do t <- now rt;
  do r <- random_draw rt;
  ret (base36_id rt t r).

(** [Math.random() * (max - min) + min] *)
Definition random (min max : Q) : M Q :=
  do r <- random_draw rt;
  ret (r * (max - min) + min).

(** [Math.floor(Math.random() * (max - min + 1)) + min] *)
Definition randomInt (min max : Q) : M Q :=
  do r <- random_draw rt;
  ret (JS.Math_floor (r * (max - min + 1)) + min).

End WithRuntime.

Definition checkCollision (a b : Collider) : bool :=
  JS.ltb (x a) (x b + width b) &&
  JS.ltb (x b) (x a + width a) &&
  JS.ltb (y a) (y b + height b) &&
  JS.ltb (y b) (y a + height a).

(** The square of [distance(a, b)]: [dx * dx + dy * dy]. *)
Definition distance2 (ax ay bx b_y : Q) : Q :=
  (ax - bx) * (ax - bx) + (ay - b_y) * (ay - b_y).

(** [Math.sqrt(d2) <= r]: a square root is never negative, so for [r < 0]
    the test fails, and otherwise it is the comparison of the squares. *)
Definition sqrt_leb (d2 r : Q) : bool :=
  JS.leb 0 r && JS.leb d2 (r * r).

(** [Math.floor(Math.sqrt(d2) / res)] for [res] other than 0.  For
    [res > 0] it is the largest integer [k] with [(k * res)^2 <= d2], the
    integer square root of [floor (d2 / res^2)]; for [res < 0] the quotient
    is [-(sqrt d2 / |res|)], whose floor is minus the ceiling. *)
Definition floor_sqrt_div (d2 res : Q) : Z :=
  if JS.ltb 0 res then Z.sqrt (Qfloor (d2 / (res * res)))
  else (- Z.sqrt_up (Qceiling (d2 / (res * res))))%Z.

(** [steps] of [hasLineOfSight]: [Math.max(2, Math.floor(dist / resolution))]. *)
Definition sightSteps (start end_ : Position) (resolution : Q) : Z :=
  let dx := px end_ - px start in
  let dy := py end_ - py start in
  Z.max 2 (floor_sqrt_div (dx * dx + dy * dy) resolution).

(** The collider built for the [i]-th sample:
    [{ x, y, width: 1, height: 1, isSolid: true }] with [t = i / steps]. *)
Definition pointCollider (start end_ : Position) (steps i : Z) : Collider :=
  let dx := px end_ - px start in
  let dy := py end_ - py start in
  let t := inject_Z i / inject_Z steps in
  {| x := px start + dx * t; y := py start + dy * t;
     width := 1; height := 1; isSolid := true |}.

(** The samples visited by [for (let i = 1; i < steps; i++)], in order. *)
Definition samplePoints (start end_ : Position) (resolution : Q) : list Collider :=
  let steps := sightSteps start end_ resolution in
  map (fun i => pointCollider start end_ steps (Z.of_nat i))
      (seq 1 (Z.to_nat (steps - 1))).

(** The inner loop: does some solid obstacle overlap the sample? *)
Definition blocked (pt : Collider) (obstacles : list Collider) : bool :=
  existsb (fun o => isSolid o && checkCollision pt o) obstacles.

(** [hasLineOfSight]: the first blocked sample returns [false].  For
    [resolution = 0] the quotient is infinite or NaN, which is outside the
    number model: the result is [None]. *)
Definition hasLineOfSight (start end_ : Position) (obstacles : list Collider)
    (resolution : Q) : option bool :=
  if Qeq_bool resolution 0 then None
  else Some (negb (existsb (fun pt => blocked pt obstacles)
                           (samplePoints start end_ resolution))).

(** The default [resolution = 5]. *)
Definition hasLineOfSight_default (start end_ : Position)
    (obstacles : list Collider) : option bool :=
  hasLineOfSight start end_ obstacles 5.

(** [willCollide(entity, dx, dy, obstacles)]: the loop skips the obstacles
    that are not solid and returns [true] at the first overlap with the
    entity's box moved by [(dx, dy)]. *)
Definition willCollide (entity : Collider) (dx dy : Q)
    (obstacles : list Collider) : bool :=
  let newX := x entity + dx in
  let newY := y entity + dy in
  existsb (fun obstacle =>
    isSolid obstacle &&
    (JS.ltb newX (x obstacle + width obstacle) &&
     JS.ltb (x obstacle) (newX + width entity) &&
     JS.ltb newY (y obstacle + height obstacle) &&
     JS.ltb (y obstacle) (newY + height entity))) obstacles.

(** [Math.min(Math.max(value, min), max)] *)
Definition clamp (value min max : Q) : Q :=
  JS.Math_min (JS.Math_max value min) max.

(** [start + (end - start) * clamp(factor, 0, 1)] *)
Definition lerp (start end_ factor : Q) : Q :=
  start + (end_ - start) * clamp factor 0 1.

(** What a call that can throw gives back: a value, [undefined] (an array
    read out of range), or an [Error] with its message. *)
Inductive outcome (A : Type) :=
  | Returns (a : A)
  | ReturnsUndefined
  | Throws (message : string).

Arguments Returns {A} a.
Arguments ReturnsUndefined {A}.
Arguments Throws {A} message.

Section Sampling.
Variable rt : Runtime.
Context {A : Type}.

(** The body of the loop of [shuffleArray] for the index [i] and the drawn
    index [j]: [temp = a[i]; a[i] = a[j]; a[j] = temp].  A draw of
    [Math.random()] in [[0, 1)] puts [j] in [0..i]; for an index outside
    the array the source would store [undefined], which is not an element:
    the result is [None]. *)
Definition swapAt (i : nat) (j : Z) (newArray : list A) : option (list A) :=
  if (j <? 0)%Z then None
  else
    match newArray !! i, newArray !! Z.to_nat j with
    | Some temp, Some aj =>
        Some (<[Z.to_nat j := temp]> (<[i := aj]> newArray))
    | _, _ => None
    end.

(** [for (let i = n; i > 0; i--)] with
    [j = Math.floor(Math.random() * (i + 1))]. *)
Fixpoint shuffleFrom (n : nat) (newArray : list A) : M (option (list A)) :=
  match n with
  | O => ret (Some newArray)
  | S i' =>
      do r <- random_draw rt;
      let j := Qfloor (r * (inject_Z (Z.of_nat n) + 1)) in
      match swapAt n j newArray with
      | Some newArray' => shuffleFrom i' newArray'
      | None => ret None
      end
  end.

(** [shuffleArray(array)]: the loop starts at [length - 1]. *)
Definition shuffleArray (array : list A) : M (option (list A)) :=
  shuffleFrom (length array - 1) array.

(** [getRandomElement(array)]: throws on the empty array, before any
    draw. *)
Definition getRandomElement (array : list A) : M (outcome A) :=
  match array with
  | [] => ret (Throws "Cannot get random element from empty array")
  | _ :: _ =>
      do r <- random_draw rt;
      let i := Qfloor (r * inject_Z (Z.of_nat (length array))) in
      ret (if (i <? 0)%Z then ReturnsUndefined
           else match array !! Z.to_nat i with
                | Some a => Returns a
                | None => ReturnsUndefined
                end)
  end.

End Sampling.

End gameUtils.

Definition put_heap (h : gmap nat Equipment.t) : M unit :=
  fun w => (tt, {| heap := h; rnd := rnd w; clk := clk w |}).

(** ** Skills *)

Module Skill.

Inductive type := aura | projectile | buff | debuff.

#[global] Instance type_eq_dec : EqDecision type.
Proof. solve_decision. Defined.

(** The skill classes of SkillSystem.ts; a skill's name, description and
    type are fixed by the constructor of its class. *)
Inductive class :=
  | ExperienceAuraSkill | LifestealAuraSkill | SlowAuraSkill
  | FireballSkill | StrengthBuffSkill | DefenseBuffSkill
  | HealthBuffSkill | LightningChainSkill | PoisonAuraSkill.

Definition class_name (c : class) : string :=
  match c with
  | ExperienceAuraSkill => "经验光环"
  | LifestealAuraSkill => "生命窃取光环"
  | SlowAuraSkill => "减速光环"
  | FireballSkill => "自动火球术"
  | StrengthBuffSkill => "力量提升"
  | DefenseBuffSkill => "护甲提升"
  | HealthBuffSkill => "生命提升"
  | LightningChainSkill => "闪电链"
  | PoisonAuraSkill => "毒素光环"
  end.

Definition class_type (c : class) : type :=
  match c with
  | ExperienceAuraSkill | LifestealAuraSkill | SlowAuraSkill
  | PoisonAuraSkill => aura
  | FireballSkill | LightningChainSkill => projectile
  | StrengthBuffSkill | DefenseBuffSkill | HealthBuffSkill => buff
  end.

Record t := {
  id : string;
  cls : class;
  level : Q;
  maxLevel : Q;
  cooldown : Q;
  currentCooldown : Q
}.

Definition name (s : t) : string := class_name (cls s).

Definition type_ (s : t) : type := class_type (cls s).

(** The test of [Player.takeDamage]:
    [skill.type === 'buff' && skill.name.includes('受伤')]. *)
Definition triggersOnDamage (s : t) : bool :=
  bool_decide (type_ s = buff) && JS.includes "受伤" (name s).

Definition set_level (v : Q) (s : t) : t :=
  {| id := id s; cls := cls s; level := v; maxLevel := maxLevel s;
     cooldown := cooldown s; currentCooldown := currentCooldown s |}.

Definition set_currentCooldown (v : Q) (s : t) : t :=
  {| id := id s; cls := cls s; level := level s; maxLevel := maxLevel s;
     cooldown := cooldown s; currentCooldown := v |}.

(** [BaseSkill.update(deltaTime, owner)]: the cooldown runs down and stops
    at 0. *)
Definition update (deltaTime : Q) (s : t) : t :=
  if JS.ltb 0 (currentCooldown s) then
    let c := currentCooldown s - deltaTime in
    set_currentCooldown (if JS.ltb c 0 then 0 else c) s
  else s.

(** [canUse()] *)
Definition canUse (s : t) : bool := JS.leb (currentCooldown s) 0.

(** [triggerCooldown()] *)
Definition triggerCooldown (s : t) : t := set_currentCooldown (cooldown s) s.

(** The [cooldown] argument that the constructor of each class passes to
    [super]; the default is 0. *)
Definition class_cooldown (c : class) : Q :=
  match c with
  | FireballSkill => 2
  | LightningChainSkill => 3
  | _ => 0
  end.

Section WithRuntime.
Variable rt : Runtime.

(** [new C()] for a skill class [C]: every class passes [maxLevel = 10]. *)
Definition new (c : class) : M t :=
  do i <- gameUtils.generateId rt;
  ret {| id := i; cls := c; level := 1; maxLevel := 10;
         cooldown := class_cooldown c; currentCooldown := 0 |}.

End WithRuntime.

End Skill.

(** ** The skill pool *)

Module SkillPool.

(** The factories of [availableSkills], in order. *)
Definition availableSkills : list Skill.class :=
  [ Skill.ExperienceAuraSkill; Skill.LifestealAuraSkill; Skill.SlowAuraSkill;
    Skill.FireballSkill; Skill.StrengthBuffSkill; Skill.DefenseBuffSkill;
    Skill.HealthBuffSkill; Skill.LightningChainSkill; Skill.PoisonAuraSkill ].

Section WithRuntime.
Variable rt : Runtime.

(** The loop of [getSkillById]: each factory is run, and the first skill
    whose name is [skillId] is returned. *)
Fixpoint findByName (skillId : string) (factories : list Skill.class)
    : M (option Skill.t) :=
  match factories with
  | [] => ret None
  | skillFactory :: rest =>
      do skill <- Skill.new rt skillFactory;
      if String.eqb (Skill.name skill) skillId then ret (Some skill)
      else findByName skillId rest
  end.

(** [getSkillById(skillId)] *)
Definition getSkillById (skillId : string) : M (option Skill.t) :=
  findByName skillId availableSkills.

End WithRuntime.

End SkillPool.

(** ** Player *)

Module Player.

Record t := {
  id : string;
  x : Q;
  y : Q;
  width : Q;
  height : Q;
  isSolid : bool;
  health : Q;
  maxHealth : Q;
  level : Q;
  attack : Q;
  defense : Q;
  experience : Q;
  experienceToNextLevel : Q;
  skills : list Skill.t;
  equipment : list nat;      (* addresses of equipment objects *)
  inventory : list nat;
  moveSpeed : Q;
  attackSpeed : Q;
  lastAttackTime : Q;
  skillPoints : Q
}.

(** The combat and progression fields that methods assign, set together. *)
Definition with_stats (hp mhp lvl atk def xp nxt sp : Q) (p : t) : t :=
  {| id := id p; x := x p; y := y p; width := width p; height := height p;
     isSolid := isSolid p; health := hp; maxHealth := mhp; level := lvl;
     attack := atk; defense := def; experience := xp;
     experienceToNextLevel := nxt; skills := skills p;
     equipment := equipment p; inventory := inventory p;
     moveSpeed := moveSpeed p; attackSpeed := attackSpeed p;
     lastAttackTime := lastAttackTime p; skillPoints := sp |}.

Definition set_health (v : Q) (p : t) : t :=
  with_stats v (maxHealth p) (level p) (attack p) (defense p) (experience p)
    (experienceToNextLevel p) (skillPoints p) p.

Definition set_maxHealth (v : Q) (p : t) : t :=
  with_stats (health p) v (level p) (attack p) (defense p) (experience p)
    (experienceToNextLevel p) (skillPoints p) p.

Definition set_attack (v : Q) (p : t) : t :=
  with_stats (health p) (maxHealth p) (level p) v (defense p) (experience p)
    (experienceToNextLevel p) (skillPoints p) p.

Definition set_defense (v : Q) (p : t) : t :=
  with_stats (health p) (maxHealth p) (level p) (attack p) v (experience p)
    (experienceToNextLevel p) (skillPoints p) p.

Definition set_experience (v : Q) (p : t) : t :=
  with_stats (health p) (maxHealth p) (level p) (attack p) (defense p) v
    (experienceToNextLevel p) (skillPoints p) p.

Definition set_lastAttackTime (v : Q) (p : t) : t :=
  {| id := id p; x := x p; y := y p; width := width p; height := height p;
     isSolid := isSolid p; health := health p; maxHealth := maxHealth p;
     level := level p; attack := attack p; defense := defense p;
     experience := experience p;
     experienceToNextLevel := experienceToNextLevel p; skills := skills p;
     equipment := equipment p; inventory := inventory p;
     moveSpeed := moveSpeed p; attackSpeed := attackSpeed p;
     lastAttackTime := v; skillPoints := skillPoints p |}.

Definition set_lists (eqs inv : list nat) (p : t) : t :=
  {| id := id p; x := x p; y := y p; width := width p; height := height p;
     isSolid := isSolid p; health := health p; maxHealth := maxHealth p;
     level := level p; attack := attack p; defense := defense p;
     experience := experience p;
     experienceToNextLevel := experienceToNextLevel p; skills := skills p;
     equipment := eqs; inventory := inv;
     moveSpeed := moveSpeed p; attackSpeed := attackSpeed p;
     lastAttackTime := lastAttackTime p; skillPoints := skillPoints p |}.

Section WithRuntime.
Variable rt : Runtime.

(** [new Player(x, y)] *)
Definition new (x0 y0 : Q) : M t :=
  do i <- gameUtils.generateId rt;
  ret {| id := i; x := x0; y := y0; width := 40; height := 60;
         isSolid := true; health := 100; maxHealth := 100; level := 1;
         attack := 20; defense := 5; experience := 0;
         experienceToNextLevel := 100; skills := []; equipment := [];
         inventory := []; moveSpeed := 300; attackSpeed := 1000;
         lastAttackTime := 0; skillPoints := 0 |}.

(** [Date.now() - this.lastAttackTime >= this.attackSpeed] *)
Definition canAttack (p : t) : M bool :=
  do t0 <- now rt;
  ret (JS.geb (t0 - lastAttackTime p) (attackSpeed p)).

(** The [forEach] of [performAttack]: add the attack bonus of every
    equipped item that has a truthy [stats.attack]. *)
Definition equippedAttack (h : gmap nat Equipment.t) (locs : list nat)
    (base : Q) : Q :=
  fold_left (fun acc l =>
    match h !! l with
    | Some item =>
        match Equipment.attack (Equipment.stats item) with
        | Some a =>
            if Equipment.isEquipped item && JS.truthy (Some a)
            then acc + a else acc
        | None => acc
        end
    | None => acc
    end) locs base.

(** [performAttack]: returns the attack value, or 0 while on cooldown. *)
Definition performAttack (p : t) : M (Q * t) :=
  do ok <- canAttack p;
  if negb ok then ret (0, p)
  else
    do t1 <- now rt;
    let p1 := set_lastAttackTime t1 p in
    do h <- get_heap;
    let finalAttack := equippedAttack h (equipment p1) (attack p1) in
    do r <- random_draw rt;
    ret (if JS.ltb r 0.05 then finalAttack * 1.5 else finalAttack, p1).

(** [levelUp]: three [randomInt] draws, in the order of the source. *)
Definition levelUp (p : t) : M t :=
  let lvl := level p + 1 in
  let xp := experience p - experienceToNextLevel p in
  let nxt := JS.Math_floor (experienceToNextLevel p * 1.5) in
  do healthGain <- gameUtils.randomInt rt 20 40;
  do attackGain <- gameUtils.randomInt rt 5 10;
  do defenseGain <- gameUtils.randomInt rt 3 6;
  let mhp := maxHealth p + healthGain in
  ret (with_stats mhp mhp lvl (attack p + attackGain)
         (defense p + defenseGain) xp nxt (skillPoints p + 1) p).

(** [while (this.experience >= this.experienceToNextLevel) this.levelUp()]
    with a bound on the number of iterations: [None] when the bound is
    reached with the loop condition still true. *)
Fixpoint levelUpLoop (fuel : nat) (p : t) (w : World) : option (t * World) :=
  if JS.geb (experience p) (experienceToNextLevel p) then
    match fuel with
    | O => None
    | S fuel' => let '(p', w') := levelUp p w in levelUpLoop fuel' p' w'
    end
  else Some (p, w).

Definition gainExperience (fuel : nat) (amount : Q) (p : t) (w : World)
    : option (t * World) :=
  levelUpLoop fuel (set_experience (experience p + amount) p) w.

End WithRuntime.

(** The [forEach] of [takeDamage] over the equipment: every equipped item
    with a truthy [stats.defense] takes off
    [Math.min(item.stats.defense, actualDamage * 0.5)]. *)
Definition armorReduce (h : gmap nat Equipment.t) (locs : list nat)
    (actualDamage : Q) : Q :=
  fold_left (fun acc l =>
    match h !! l with
    | Some item =>
        match Equipment.defense (Equipment.stats item) with
        | Some d =>
            if Equipment.isEquipped item && JS.truthy (Some d)
            then acc - JS.Math_min d (acc * 0.5) else acc
        | None => acc
        end
    | None => acc
    end) locs actualDamage.

(** [skill.effect(this)] for a skill of type ['buff']: the classes
    StrengthBuffSkill, DefenseBuffSkill and HealthBuffSkill all have an
    empty [effect] body.  (No class name contains the marker that
    [takeDamage] looks for, so the call is never reached.) *)
Definition buffEffect (s : Skill.t) (p : t) : t := p.

Definition onDamageSkills (p : t) : t :=
  fold_left (fun q s => if Skill.triggersOnDamage s then buffEffect s q else q)
            (skills p) p.

(** [takeDamage(amount)]: the result is [this.health <= 0]. *)
Definition takeDamage (h : gmap nat Equipment.t) (amount : Q) (p : t)
    : bool * t :=
  let damageReduction := JS.Math_min (defense p) (amount * 0.8) in
  let actualDamage := JS.Math_max 1 (amount - damageReduction) in
  let actualDamage := armorReduce h (equipment p) actualDamage in
  let p1 := set_health (health p - JS.Math_max 1 actualDamage) p in
  let p2 := onDamageSkills p1 in
  (JS.leb (health p2) 0, p2).

(** [{ ...equipment, isEquipped: false }]: the own properties are copied,
    the prototype is not. *)
Definition spreadUnequipped (e : Equipment.t) : Equipment.t :=
  {| Equipment.id := Equipment.id e; Equipment.name := Equipment.name e;
     Equipment.description := Equipment.description e;
     Equipment.type_ := Equipment.type_ e;
     Equipment.rarity_ := Equipment.rarity_ e;
     Equipment.level := Equipment.level e;
     Equipment.stats := Equipment.stats e;
     Equipment.isEquipped := false; Equipment.has_methods := false |}.

(** [addEquipment(equipment)]; [src] is the address of the argument. *)
Definition addEquipment (src : nat) (p : t) : M t :=
  do h <- get_heap;
  match h !! src with
  | Some e =>
      do l <- alloc (spreadUnequipped e);
      ret (set_lists (equipment p ++ [l]) (inventory p) p)
  | None => ret p
  end.

(** [this.equipment.find(item => item.id === equipmentId)] *)
Definition findById (h : gmap nat Equipment.t) (equipmentId : string)
    (locs : list nat) : option nat :=
  find (fun l => match h !! l with
                 | Some e => String.eqb (Equipment.id e) equipmentId
                 | None => false
                 end) locs.

(** The [forEach] of [equipItem]: unflag every item of the given type. *)
Definition unequipType (ty : Equipment.type) (locs : list nat)
    (h : gmap nat Equipment.t) : gmap nat Equipment.t :=
  fold_left (fun h0 l =>
    match h0 !! l with
    | Some item =>
        if bool_decide (Equipment.type_ item = ty)
        then <[l := Equipment.set_isEquipped false item]> h0 else h0
    | None => h0
    end) locs h.

(** [equipItem(equipmentId)]: the writes are to [isEquipped] flags, in the
    store; the result is the player after the call. *)
Definition equipItem (equipmentId : string) (p : t) : M t :=
  do h <- get_heap;
  match findById h equipmentId (equipment p) with
  | None => ret p
  | Some l =>
      match h !! l with
      | None => ret p
      | Some e =>
          if Equipment.isEquipped e
          then
            do _ <- put_heap (<[l := Equipment.set_isEquipped false e]> h);
            ret p
          else
            let h1 := unequipType (Equipment.type_ e) (equipment p) h in
            match h1 !! l with
            | Some e1 =>
                do _ <- put_heap (<[l := Equipment.set_isEquipped true e1]> h1);
                ret p
            | None => do _ <- put_heap h1; ret p
            end
      end
  end.

(** [reset()] *)
Definition reset (p : t) : t :=
  {| id := id p; x := x p; y := y p; width := width p; height := height p;
     isSolid := isSolid p; health := 100; maxHealth := 100; level := 1;
     attack := 10; defense := 5; experience := 0;
     experienceToNextLevel := 100; skills := []; equipment := [];
     inventory := inventory p; moveSpeed := moveSpeed p;
     attackSpeed := attackSpeed p; lastAttackTime := lastAttackTime p;
     skillPoints := 1 |}.

Definition set_position (x0 y0 : Q) (p : t) : t :=
  {| id := id p; x := x0; y := y0; width := width p; height := height p;
     isSolid := isSolid p; health := health p; maxHealth := maxHealth p;
     level := level p; attack := attack p; defense := defense p;
     experience := experience p;
     experienceToNextLevel := experienceToNextLevel p; skills := skills p;
     equipment := equipment p; inventory := inventory p;
     moveSpeed := moveSpeed p; attackSpeed := attackSpeed p;
     lastAttackTime := lastAttackTime p; skillPoints := skillPoints p |}.

Definition set_skills (sk : list Skill.t) (sp : Q) (p : t) : t :=
  {| id := id p; x := x p; y := y p; width := width p; height := height p;
     isSolid := isSolid p; health := health p; maxHealth := maxHealth p;
     level := level p; attack := attack p; defense := defense p;
     experience := experience p;
     experienceToNextLevel := experienceToNextLevel p; skills := sk;
     equipment := equipment p; inventory := inventory p;
     moveSpeed := moveSpeed p; attackSpeed := attackSpeed p;
     lastAttackTime := lastAttackTime p; skillPoints := sp |}.

(** The player as the [Collider] that [willCollide] reads. *)
Definition collider (p : t) : gameUtils.Collider :=
  {| gameUtils.x := x p; gameUtils.y := y p; gameUtils.width := width p;
     gameUtils.height := height p; gameUtils.isSolid := isSolid p |}.

(** [move(dx, dy, obstacles)]: nothing below the dead zone of 0.1 on both
    axes; otherwise the x step, then the y step from the new x. *)
Definition move (dx dy : Q) (obstacles : list gameUtils.Collider) (p : t) : t :=
  if JS.ltb (Qabs dx) 0.1 && JS.ltb (Qabs dy) 0.1 then p
  else
    let p1 := if negb (gameUtils.willCollide (collider p) dx 0 obstacles)
              then set_position (x p + dx) (y p) p else p in
    if negb (gameUtils.willCollide (collider p1) 0 dy obstacles)
    then set_position (x p1) (y p1 + dy) p1 else p1.

(** [learnSkill(skill)]: [find] gives the first learned skill with the
    identifier of [skill], which is then upgraded in place; a new skill is
    pushed as the copy [{ ...skill, level: 1 }]. *)
Definition learnSkill (skill : Skill.t) (p : t) : t :=
  if JS.leb (skillPoints p) 0 then p
  else
    match list_find (fun s => Skill.id s = Skill.id skill) (skills p) with
    | Some (i, existingSkill) =>
        if JS.ltb (Skill.level existingSkill) (Skill.maxLevel existingSkill)
        then set_skills
               (<[i := Skill.set_level (Skill.level existingSkill + 1)
                         existingSkill]> (skills p))
               (skillPoints p - 1) p
        else p
    | None =>
        set_skills (skills p ++ [Skill.set_level 1 skill])
                   (skillPoints p - 1) p
    end.

(** [canLearnSkills()] *)
Definition canLearnSkills (p : t) : bool := JS.ltb 0 (skillPoints p).

End Player.

(** ** Equipment effects, factory and manager *)

Module BaseEquipment.

(** [applyEffect(player)].  The Player class has no [baseAttack],
    [baseDefense], [criticalRate] or [lifesteal] property, so the ['... in
    player'] tests are false: attack and defense go to [player.attack] and
    [player.defense], and the criticalRate and lifesteal entries change
    nothing. *)
Definition applyEffect (e : Equipment.t) (p : Player.t) : Player.t :=
  let st := Equipment.stats e in
  let p := match Equipment.attack st with
           | Some v => Player.set_attack (Player.attack p + v) p
           | None => p
           end in
  let p := match Equipment.defense st with
           | Some v => Player.set_defense (Player.defense p + v) p
           | None => p
           end in
  match Equipment.maxHealth st with
  | Some v =>
      let p := Player.set_maxHealth (Player.maxHealth p + v) p in
      Player.set_health
        (JS.Math_min (Player.health p + v) (Player.maxHealth p)) p
  | None => p
  end.

(** [removeEffect(player)] *)
Definition removeEffect (e : Equipment.t) (p : Player.t) : Player.t :=
  let st := Equipment.stats e in
  let p := match Equipment.attack st with
           | Some v => Player.set_attack (Player.attack p - v) p
           | None => p
           end in
  let p := match Equipment.defense st with
           | Some v => Player.set_defense (Player.defense p - v) p
           | None => p
           end in
  match Equipment.maxHealth st with
  | Some v =>
      let p := Player.set_maxHealth (Player.maxHealth p - v) p in
      Player.set_health (JS.Math_max 1 (Player.health p - v)) p
  | None => p
  end.

(** The value of the [rarity] field: the lower-case strings of
    [RARITY_TYPES]. *)
Definition rarityString (r : Equipment.rarity) : string :=
  match r with
  | Equipment.common => "common"
  | Equipment.uncommon => "uncommon"
  | Equipment.rare => "rare"
  | Equipment.epic => "epic"
  | Equipment.legendary => "legendary"
  end.

(** [getRarityMultiplier()], as assigned to the prototype. *)
Definition getRarityMultiplier (r : Equipment.rarity) : Q :=
  match r with
  | Equipment.common => 1
  | Equipment.uncommon => 1.5
  | Equipment.rare => 2
  | Equipment.epic => 3
  | Equipment.legendary => 5
  end.

Definition rarityNames (r : Equipment.rarity) : string :=
  match r with
  | Equipment.common => "普通"
  | Equipment.uncommon => "优秀"
  | Equipment.rare => "稀有"
  | Equipment.epic => "史诗"
  | Equipment.legendary => "传说"
  end.

(** [generateDescription()] as the constructor calls it, with [stats]
    still empty. *)
Definition generateDescription (r : Equipment.rarity) (name : string)
    : string :=
  (rarityNames r ++ " " ++ name)%string.

(** [this.rarity >= RARITY_TYPES.RARE]: a comparison of strings, by code
    units. *)
Definition rarityAtLeastRare (r : Equipment.rarity) : bool :=
  String.leb "rare" (rarityString r).

End BaseEquipment.

Module Weapon.

Section WithRuntime.
Variable rt : Runtime.

(** [new Weapon(name, rarity, level)]: the address of the new object. *)
Definition new (name : string) (rarity : Equipment.rarity) (level : Q)
    : M nat :=
  do i <- gameUtils.generateId rt;
  let rarityMultiplier := BaseEquipment.getRarityMultiplier rarity in
  let levelMultiplier := 1 + (level - 1) * 0.1 in
  do baseAttack <- gameUtils.randomInt rt 10 30;
  let attack := JS.Math_floor (baseAttack * rarityMultiplier * levelMultiplier) in
  do criticalRate <-
    (if BaseEquipment.rarityAtLeastRare rarity
     then do c <- gameUtils.random rt 0.02 0.05;
          ret (Some (c * rarityMultiplier))
     else ret None);
  alloc {| Equipment.id := i; Equipment.name := name;
           Equipment.description :=
             BaseEquipment.generateDescription rarity name;
           Equipment.type_ := Equipment.WEAPON; Equipment.rarity_ := rarity;
           Equipment.level := Some level;
           Equipment.stats :=
             {| Equipment.attack := Some attack; Equipment.defense := None;
                Equipment.maxHealth := None;
                Equipment.criticalRate := criticalRate;
                Equipment.lifesteal := None |};
           Equipment.isEquipped := false; Equipment.has_methods := true |}.

End WithRuntime.

End Weapon.

Module Armor.

Section WithRuntime.
Variable rt : Runtime.

(** [new Armor(name, rarity, level)]: the address of the new object. *)
Definition new (name : string) (rarity : Equipment.rarity) (level : Q)
    : M nat :=
  do i <- gameUtils.generateId rt;
  let rarityMultiplier := BaseEquipment.getRarityMultiplier rarity in
  let levelMultiplier := 1 + (level - 1) * 0.1 in
  do baseDefense <- gameUtils.randomInt rt 5 15;
  do baseHealth <- gameUtils.randomInt rt 20 50;
  alloc {| Equipment.id := i; Equipment.name := name;
           Equipment.description :=
             BaseEquipment.generateDescription rarity name;
           Equipment.type_ := Equipment.ARMOR; Equipment.rarity_ := rarity;
           Equipment.level := Some level;
           Equipment.stats :=
             {| Equipment.attack := None;
                Equipment.defense :=
                  Some (JS.Math_floor
                          (baseDefense * rarityMultiplier * levelMultiplier));
                Equipment.maxHealth :=
                  Some (JS.Math_floor
                          (baseHealth * rarityMultiplier * levelMultiplier));
                Equipment.criticalRate := None;
                Equipment.lifesteal := None |};
           Equipment.isEquipped := false; Equipment.has_methods := true |}.

End WithRuntime.

End Armor.

Module EquipmentFactory.

(** The keys of the weight table, in insertion order. *)
Inductive rarityKey := COMMON | UNCOMMON | RARE | EPIC | LEGENDARY.

Definition weights (isBossDrop : bool) : list (rarityKey * Q) :=
  [ (COMMON, if isBossDrop then 0 else 60);
    (UNCOMMON, if isBossDrop then 10 else 30);
    (RARE, if isBossDrop then 30 else 8);
    (EPIC, if isBossDrop then 40 else 2);
    (LEGENDARY, if isBossDrop then 20 else 0) ].

(** The [for] loop of [weightedRandom]: subtract each weight in turn and
    return the first key at which the running value is [<= 0]. *)
Fixpoint pick (entries : list (rarityKey * Q)) (randomValue : Q)
    : option rarityKey :=
  match entries with
  | [] => None
  | (key, weight) :: rest =>
      let randomValue := randomValue - weight in
      if JS.leb randomValue 0 then Some key else pick rest randomValue
  end.

Definition totalWeight (ws : list (rarityKey * Q)) : Q :=
  fold_left (fun sum kw => sum + snd kw) ws 0.

(** [weightedRandom(weights)] for the draw [r] of [Math.random()]; the
    fall-through is [Object.keys(weights)[0] || 'COMMON']. *)
Definition weightedRandom (ws : list (rarityKey * Q)) (r : Q) : rarityKey :=
  match pick ws (r * totalWeight ws) with
  | Some key => key
  | None => hd COMMON (map fst ws)
  end.

Definition toLowerCase (k : rarityKey) : Equipment.rarity :=
  match k with
  | COMMON => Equipment.common
  | UNCOMMON => Equipment.uncommon
  | RARE => Equipment.rare
  | EPIC => Equipment.epic
  | LEGENDARY => Equipment.legendary
  end.

Section WithRuntime.
Variable rt : Runtime.

Definition generateRarity (isBossDrop : bool) : M rarityKey :=
  do r <- random_draw rt;
  ret (weightedRandom (weights isBossDrop) r).

(** The rarity of the item returned by [generateRandomEquipment]:
    [generateRarity] is its first step, and the constructor stores
    [rarity.toLowerCase()] in the item.  The item's level, name and stats,
    drawn afterwards, are not modelled. *)
Definition generateRandomEquipment_rarity (playerLevel : Q)
    (isBossDrop : bool) : M Equipment.rarity :=
  do rarity <- generateRarity isBossDrop;
  ret (toLowerCase rarity).

End WithRuntime.

End EquipmentFactory.

Module EquipmentManager.

(** [player.equipment.find(eq => eq.type === equipment.type)] *)
Definition findByType (h : gmap nat Equipment.t) (ty : Equipment.type)
    (locs : list nat) : option nat :=
  find (fun l => match h !! l with
                 | Some e => bool_decide (Equipment.type_ e = ty)
                 | None => false
                 end) locs.

(** [player.equipment.filter(eq => eq.id !== oldEquipment.id)] *)
Definition removeById (h : gmap nat Equipment.t) (oldId : string)
    (locs : list nat) : list nat :=
  List.filter (fun l => match h !! l with
                        | Some e => negb (String.eqb (Equipment.id e) oldId)
                        | None => true
                        end) locs.

(** The first half of [equipToPlayer]: an item of the same type that is in
    [player.equipment] loses its effect and moves to the inventory. *)
Definition unequipOld (h : gmap nat Equipment.t) (ty : Equipment.type)
    (p : Player.t) : Player.t :=
  match findByType h ty (Player.equipment p) with
  | Some o =>
      match h !! o with
      | Some old =>
          let p := if Equipment.has_methods old
                   then BaseEquipment.removeEffect old p else p in
          Player.set_lists (removeById h (Equipment.id old) (Player.equipment p))
                           (Player.inventory p ++ [o]) p
      | None => p
      end
  | None => p
  end.

(** [equipToPlayer(player, equipment)]; [l] is the address of [equipment]. *)
Definition equipToPlayer (p : Player.t) (l : nat) : M (bool * Player.t) :=
  do h <- get_heap;
  match h !! l with
  | Some e =>
      let p := unequipOld h (Equipment.type_ e) p in
      let p := if Equipment.has_methods e
               then BaseEquipment.applyEffect e p else p in
      let p := Player.set_lists (Player.equipment p ++ [l])
                                (Player.inventory p) p in
      do _ <- store l (Equipment.set_isEquipped true e);
      ret (true, p)
  | None => ret (true, p)
  end.

(** [list.indexOf(l)] on addresses (reference identity). *)
Fixpoint indexOf (l : nat) (locs : list nat) : option nat :=
  match locs with
  | [] => None
  | l0 :: rest =>
      if bool_decide (l0 = l) then Some O else S <$> indexOf l rest
  end.

(** [unequipFromPlayer(player, equipment)] *)
Definition unequipFromPlayer (p : Player.t) (l : nat) : M (bool * Player.t) :=
  do h <- get_heap;
  match indexOf l (Player.equipment p), h !! l with
  | Some index, Some e =>
      let p := if Equipment.has_methods e
               then BaseEquipment.removeEffect e p else p in
      let p := Player.set_lists (delete index (Player.equipment p))
                                (Player.inventory p ++ [l]) p in
      do _ <- store l (Equipment.set_isEquipped false e);
      ret (true, p)
  | _, _ => ret (false, p)
  end.

(** [checkEquipmentConflict(player, equipment)]: is there an item of the
    type [ty] of [equipment] in [player.equipment]? *)
Definition checkEquipmentConflict (h : gmap nat Equipment.t) (p : Player.t)
    (ty : Equipment.type) : bool :=
  existsb (fun l => match h !! l with
                    | Some equipped => bool_decide (Equipment.type_ equipped = ty)
                    | None => false
                    end) (Player.equipment p).

End EquipmentManager.

(** ** Monster *)

Module Monster.

Record MonsterType := {
  baseHealth : Q;
  baseAttack : Q;
  baseDefense : Q;
  baseSpeed : Q;
  baseExperience : Q;
  sizeMin : Q;
  sizeMax : Q
}.

(** [MONSTER_TYPES[0..2]]: normal, elite, boss. *)
Definition normalType : MonsterType :=
  {| baseHealth := 50; baseAttack := 5; baseDefense := 2; baseSpeed := 150;
     baseExperience := 10; sizeMin := 30; sizeMax := 40 |}.

Definition eliteType : MonsterType :=
  {| baseHealth := 200; baseAttack := 20; baseDefense := 8; baseSpeed := 120;
     baseExperience := 50; sizeMin := 40; sizeMax := 60 |}.

Definition bossType : MonsterType :=
  {| baseHealth := 1000; baseAttack := 50; baseDefense := 20; baseSpeed := 80;
     baseExperience := 200; sizeMin := 80; sizeMax := 120 |}.

(** The fields of a monster; [target] tells whether the monster has the
    player as its target. *)
Record t := {
  id : string;
  x : Q;
  y : Q;
  width : Q;
  height : Q;
  isSolid : bool;
  health : Q;
  maxHealth : Q;
  level : Q;
  attack : Q;
  defense : Q;
  experienceReward : Q;
  isElite : bool;
  isBoss : bool;
  target : bool;
  moveSpeed : Q;
  attackRange : Q;
  attackSpeed : Q;
  lastAttackTime : Q;
  aggroRange : Q;
  wanderDirection : Q * Q;
  wanderTimer : Q;
  wanderInterval : Q
}.

Definition set_health (v : Q) (m : t) : t :=
  {| id := id m; x := x m; y := y m; width := width m; height := height m;
     isSolid := isSolid m; health := v; maxHealth := maxHealth m;
     level := level m; attack := attack m; defense := defense m;
     experienceReward := experienceReward m; isElite := isElite m;
     isBoss := isBoss m; target := target m; moveSpeed := moveSpeed m;
     attackRange := attackRange m; attackSpeed := attackSpeed m;
     lastAttackTime := lastAttackTime m; aggroRange := aggroRange m;
     wanderDirection := wanderDirection m; wanderTimer := wanderTimer m;
     wanderInterval := wanderInterval m |}.

Definition set_lastAttackTime (v : Q) (m : t) : t :=
  {| id := id m; x := x m; y := y m; width := width m; height := height m;
     isSolid := isSolid m; health := health m; maxHealth := maxHealth m;
     level := level m; attack := attack m; defense := defense m;
     experienceReward := experienceReward m; isElite := isElite m;
     isBoss := isBoss m; target := target m; moveSpeed := moveSpeed m;
     attackRange := attackRange m; attackSpeed := attackSpeed m;
     lastAttackTime := v; aggroRange := aggroRange m;
     wanderDirection := wanderDirection m; wanderTimer := wanderTimer m;
     wanderInterval := wanderInterval m |}.

(** [takeDamage(amount)]: the result is [this.health <= 0]. *)
Definition takeDamage (amount : Q) (m : t) : bool * t :=
  let damageReduction := JS.Math_min (defense m) (amount * 0.5) in
  let actualDamage := JS.Math_max 1 (amount - damageReduction) in
  let m' := set_health (health m - actualDamage) m in
  (JS.leb (health m') 0, m').

Section WithRuntime.
Variable rt : Runtime.

(** [new Monster(x, y, level, isElite, isBoss)] *)
Definition new (x0 y0 lvl : Q) (elite boss : bool) : M t :=
  do i <- gameUtils.generateId rt;
  let ty := if boss then bossType else if elite then eliteType else normalType in
  let levelMultiplier := 1 + (lvl - 1) * 0.2 in
  let eliteMultiplier := if elite then 2 else 1 in
  let bossMultiplier := if boss then 5 else 1 in
  let typeMultiplier := eliteMultiplier * bossMultiplier in
  do sizeVariation <- gameUtils.random rt (sizeMin ty) (sizeMax ty);
  let mhp := JS.Math_floor (baseHealth ty * levelMultiplier * typeMultiplier) in
  do wx <- gameUtils.random rt (-1) 1;
  do wy <- gameUtils.random rt (-1) 1;
  do wi <- gameUtils.random rt 2000 5000;
  ret {| id := i; x := x0; y := y0; width := sizeVariation;
         height := sizeVariation * 1.2; isSolid := true;
         health := mhp; maxHealth := mhp; level := lvl;
         attack := JS.Math_floor (baseAttack ty * levelMultiplier * typeMultiplier);
         defense := JS.Math_floor (baseDefense ty * levelMultiplier * typeMultiplier);
         experienceReward :=
           JS.Math_floor (baseExperience ty * levelMultiplier * typeMultiplier);
         isElite := elite; isBoss := boss; target := false;
         moveSpeed := baseSpeed ty; attackRange := 60;
         attackSpeed := if boss then 2000 else if elite then 1500 else 1000;
         lastAttackTime := 0;
         aggroRange := if boss then 400 else if elite then 300 else 200;
         wanderDirection := (wx, wy); wanderTimer := 0; wanderInterval := wi |}.

(** The damage of one attack: a boss draws for a critical hit
    ([this.isBoss && Math.random() < 0.1] draws only for a boss). *)
Definition attackDamage (m : t) : M Q :=
  if isBoss m then
    do r <- random_draw rt;
    ret (if JS.ltb r 0.1 then attack m * 2 else attack m)
  else ret (attack m).

(** [attackTarget(target)] *)
Definition attackTarget (m : t) (p : Player.t) : M (t * Player.t) :=
  do currentTime <- now rt;
  if JS.geb (currentTime - lastAttackTime m) (attackSpeed m) then
    let m1 := set_lastAttackTime currentTime m in
    if gameUtils.sqrt_leb
         (gameUtils.distance2 (x m1) (y m1) (Player.x p) (Player.y p))
         (attackRange m1)
    then
      do damage <- attackDamage m1;
      let damageDealt := JS.Math_max 1 (damage - Player.defense p * 0.5) in
      do h <- get_heap;
      ret (m1, snd (Player.takeDamage h damageDealt p))
    else ret (m1, p)
  else ret (m, p).

(** [generateLootStats(equipmentType, rarity)] *)
Definition generateLootStats (m : t) (ty : Equipment.type)
    (rarity : EquipmentFactory.rarityKey) : Equipment.stats_t :=
  let baseStat := level m * 5 in
  let rarityMultiplier :=
    match rarity with
    | EquipmentFactory.COMMON => 1
    | EquipmentFactory.UNCOMMON => 1.5
    | EquipmentFactory.RARE => 2
    | EquipmentFactory.EPIC => 3
    | EquipmentFactory.LEGENDARY => 5
    end in
  match ty with
  | Equipment.WEAPON =>
      {| Equipment.attack := Some (JS.Math_floor (baseStat * rarityMultiplier));
         Equipment.defense := None; Equipment.maxHealth := None;
         Equipment.criticalRate := None; Equipment.lifesteal := None |}
  | Equipment.ARMOR =>
      {| Equipment.attack := None;
         Equipment.defense := Some (JS.Math_floor (baseStat * rarityMultiplier));
         Equipment.maxHealth :=
           Some (JS.Math_floor (baseStat * 2 * rarityMultiplier));
         Equipment.criticalRate := None; Equipment.lifesteal := None |}
  | Equipment.ACCESSORY =>
      {| Equipment.attack := None; Equipment.defense := None;
         Equipment.maxHealth := None;
         Equipment.criticalRate :=
           Some (JS.Math_floor (baseStat * 0.1 * rarityMultiplier));
         Equipment.lifesteal :=
           Some (JS.Math_floor (baseStat * 0.05 * rarityMultiplier)) |}
  end.

Definition baseNames (ty : Equipment.type) : list string :=
  match ty with
  | Equipment.WEAPON => ["剑"; "斧"; "杖"; "匕首"; "弓"]
  | Equipment.ARMOR => ["头盔"; "胸甲"; "护腿"; "战靴"; "盾牌"]
  | Equipment.ACCESSORY => ["戒指"; "项链"; "护身符"; "腰带"; "手镯"]
  end%string.

Definition prefixes (rarity : EquipmentFactory.rarityKey) : list string :=
  match rarity with
  | EquipmentFactory.COMMON => []
  | EquipmentFactory.UNCOMMON => ["坚固的"; "锋利的"; "精致的"]
  | EquipmentFactory.RARE => ["稀有的"; "闪耀的"; "优质的"]
  | EquipmentFactory.EPIC => ["史诗级"; "传说的"; "远古的"]
  | EquipmentFactory.LEGENDARY => ["神话"; "无敌"; "永恒"]
  end%string.

(** [array[Math.floor(r * n)]]; for a draw in [[0, 1)] the index is in
    range, the default stands for the [undefined] of an index out of it. *)
Definition pickAt {A} (r n : Q) (l : list A) (d : A) : A :=
  nth (Z.to_nat (Qfloor (r * n))) l d.

(** The rarity of the loot of [dropLoot] for the draw [rarityChance]. *)
Definition lootRarity (m : t) (rarityChance : Q) : EquipmentFactory.rarityKey :=
  if isBoss m then
    if JS.ltb rarityChance 0.4 then EquipmentFactory.EPIC
    else EquipmentFactory.LEGENDARY
  else if isElite m then
    if JS.ltb rarityChance 0.6 then EquipmentFactory.RARE
    else EquipmentFactory.EPIC
  else
    if JS.ltb rarityChance 0.5 then EquipmentFactory.COMMON
    else if JS.ltb rarityChance 0.8 then EquipmentFactory.UNCOMMON
    else EquipmentFactory.RARE.

(** [dropLoot()]: the addresses of the loot objects it creates. *)
Definition dropLoot (m : t) : M (list nat) :=
  let dropChance := if isBoss m then 0.8 else if isElite m then 0.5 else 0.2 in
  do r0 <- random_draw rt;
  if JS.ltb r0 dropChance then
    do r1 <- random_draw rt;
    let equipmentType :=
      pickAt r1 3 [Equipment.WEAPON; Equipment.ARMOR; Equipment.ACCESSORY]
             Equipment.WEAPON in
    do rarityChance <- random_draw rt;
    let rarity := lootRarity m rarityChance in
    do r3 <- random_draw rt;
    let baseName := pickAt r3 5 (baseNames equipmentType) EmptyString in
    do prefix <-
      match rarity with
      | EquipmentFactory.COMMON => ret EmptyString
      | _ => do r4 <- random_draw rt;
             ret (pickAt r4 3 (prefixes rarity) EmptyString)
      end;
    let name0 := (prefix ++ baseName)%string in
    let name := if String.eqb name0 EmptyString then "未知装备"%string else name0 in
    let stats := generateLootStats m equipmentType rarity in
    do i <- gameUtils.generateId rt;
    do l <- alloc
      {| Equipment.id := i; Equipment.name := name;
         Equipment.description :=
           ("一件" ++ prefix ++ baseName ++ "，提供强大的属性加成。")%string;
         Equipment.type_ := equipmentType;
         Equipment.rarity_ := EquipmentFactory.toLowerCase rarity;
         Equipment.level := None; Equipment.stats := stats;
         Equipment.isEquipped := false; Equipment.has_methods := false |};
    ret [l]
  else ret [].

End WithRuntime.

Definition set_target (b : bool) (m : t) : t :=
  {| id := id m; x := x m; y := y m; width := width m; height := height m;
     isSolid := isSolid m; health := health m; maxHealth := maxHealth m;
     level := level m; attack := attack m; defense := defense m;
     experienceReward := experienceReward m; isElite := isElite m;
     isBoss := isBoss m; target := b; moveSpeed := moveSpeed m;
     attackRange := attackRange m; attackSpeed := attackSpeed m;
     lastAttackTime := lastAttackTime m; aggroRange := aggroRange m;
     wanderDirection := wanderDirection m; wanderTimer := wanderTimer m;
     wanderInterval := wanderInterval m |}.

(** [setTarget(player)]: the line of sight is tested against the empty
    obstacle list that the method builds. *)
Definition setTarget (player : Player.t) (m : t) : t :=
  if gameUtils.sqrt_leb
       (gameUtils.distance2 (x m) (y m) (Player.x player) (Player.y player))
       (aggroRange m)
  then
    match gameUtils.hasLineOfSight_default
            {| gameUtils.px := x m; gameUtils.py := y m |}
            {| gameUtils.px := Player.x player;
               gameUtils.py := Player.y player |} [] with
    | Some true => set_target true m
    | _ => m
    end
  else m.

End Monster.

(** ** Monster spawner *)

Module MonsterSpawner.

Record t := {
  minLevel : Q;
  maxLevel : Q;
  eliteChance : Q;
  bossChance : Q
}.

(** [new MonsterSpawner(minLevel)] *)
Definition new (minLevel0 : Q) : t :=
  {| minLevel := minLevel0; maxLevel := minLevel0 + 2; eliteChance := 0.1;
     bossChance := 0.02 |}.

(** [updateDifficulty(playerLevel)] *)
Definition updateDifficulty (playerLevel : Q) (s : t) : t :=
  {| minLevel := JS.Math_max 1 (playerLevel - 1);
     maxLevel := playerLevel + 3;
     eliteChance := JS.Math_min 0.2 (0.1 + playerLevel * 0.005);
     bossChance := JS.Math_min 0.05 (0.02 + playerLevel * 0.001) |}.

Section WithRuntime.
Variable rt : Runtime.

(** [spawnMonster(x, y)]: the elite draw is only made when the boss draw
    failed. *)
Definition spawnMonster (x0 y0 : Q) (s : t) : M Monster.t :=
  do r0 <- random_draw rt;
  let isBoss := JS.ltb r0 (bossChance s) in
  do isElite <-
    (if isBoss then ret false
     else do r1 <- random_draw rt; ret (JS.ltb r1 (eliteChance s)));
  do level <-
    (if isBoss then do k <- gameUtils.randomInt rt 0 2; ret (maxLevel s + k)
     else gameUtils.randomInt rt (minLevel s) (maxLevel s));
  Monster.new rt x0 y0 level isElite isBoss.

End WithRuntime.

End MonsterSpawner.

(** ** Poison aura *)

Module PoisonAuraSkill.

(** The skill with its private map [monsterDamageTimers], keyed by monster
    identifier; [damagePerSecond] is 5 and [damageInterval] is 1. *)
Record t := {
  skill : Skill.t;
  monsterDamageTimers : gmap string Q
}.

(** [effect(target)] on a monster: [target.takeDamage(5 * level)]. *)
Definition effect (ps : t) (target : Monster.t) : Monster.t :=
  snd (Monster.takeDamage (5 * Skill.level (skill ps)) target).

(** [applyPoisonDamage(monster, deltaTime)] *)
Definition applyPoisonDamage (monster : Monster.t) (deltaTime : Q) (ps : t)
    : Monster.t * t :=
  let monsterId := Monster.id monster in
  let currentTime :=
    match monsterDamageTimers ps !! monsterId with
    | Some v => if JS.truthy (Some v) then v else 0
    | None => 0
    end in
  let newTime := currentTime + deltaTime in
  if JS.geb newTime 1 then
    (effect ps monster,
     {| skill := skill ps;
        monsterDamageTimers := <[monsterId := 0]> (monsterDamageTimers ps) |})
  else
    (monster,
     {| skill := skill ps;
        monsterDamageTimers :=
          <[monsterId := newTime]> (monsterDamageTimers ps) |}).

End PoisonAuraSkill.

(** ** Map generation *)

Module Chunk.

Definition CHUNK_SIZE : Q := 500.

Inductive obstacleType := tree | rock | wall.

(** An obstacle.  Its [takeDamage] closure is [obstacleTakeDamage]. *)
Record Obstacle := {
  oid : string;
  obstacleType_ : obstacleType;
  ox : Q;
  oy : Q;
  owidth : Q;
  oheight : Q;
  oisSolid : bool;
  ohealth : Q;
  omaxHealth : Q;
  olevel : Q
}.

(** [obstacle.health -= amount; return obstacle.health <= 0] *)
Definition obstacleTakeDamage (amount : Q) (o : Obstacle) : bool * Obstacle :=
  let o' := {| oid := oid o; obstacleType_ := obstacleType_ o; ox := ox o;
               oy := oy o; owidth := owidth o; oheight := oheight o;
               oisSolid := oisSolid o; ohealth := ohealth o - amount;
               omaxHealth := omaxHealth o; olevel := olevel o |} in
  (JS.leb (ohealth o') 0, o').

Record t := {
  id : string;
  x : Q;
  y : Q;
  obstacles : list Obstacle;
  generated : bool
}.

Section WithRuntime.
Variable rt : Runtime.

(** [new Chunk(x, y)] *)
Definition new (x0 y0 : Q) : M t :=
  do i <- gameUtils.generateId rt;
  ret {| id := i; x := x0; y := y0; obstacles := []; generated := false |}.

(** [simpleRandom(seed)]: [x = Math.sin(seed) * 10000; x - Math.floor(x)] *)
Definition simpleRandom (seed : Q) : Q :=
  JS.frac (Math_sin rt seed * 10000).

(** [rng = () => simpleRandom(chunkSeed + Math.random() * 1000)] *)
Definition rng (chunkSeed : Q) : M Q :=
  do r <- random_draw rt;
  ret (simpleRandom (chunkSeed + r * 1000)).

(** [types[randomIndex] || OBSTACLE_TYPES.TREE] *)
Definition pickType (randomIndex : Z) : obstacleType :=
  match randomIndex with
  | 1%Z => rock
  | 2%Z => wall
  | _ => tree
  end.

(** One iteration of the [for] loop of [generate]: the obstacle it pushes. *)
Definition generateObstacle (chunkSeed worldX worldY : Q) : M Obstacle :=
  do rx <- rng chunkSeed;
  let x0 := worldX + rx * CHUNK_SIZE in
  do ry <- rng chunkSeed;
  let y0 := worldY + ry * CHUNK_SIZE in
  do rt0 <- rng chunkSeed;
  let ty := pickType (Qfloor (rt0 * 3)) in
  do dims <-
    match ty with
    | tree =>
        do rw <- rng chunkSeed;
        do rh <- rng chunkSeed;
        ret (40 + rw * 20, 60 + rh * 40, 100)
    | rock =>
        do rw <- rng chunkSeed;
        do rh <- rng chunkSeed;
        ret (30 + rw * 30, 30 + rh * 30, 200)
    | wall =>
        do rw <- rng chunkSeed;
        ret (50 + rw * 100, 20, 500)
    end;
  let '(w0, h0, hp) := dims in
  do i <- gameUtils.generateId rt;
  ret {| oid := i; obstacleType_ := ty; ox := x0; oy := y0; owidth := w0;
         oheight := h0; oisSolid := true; ohealth := hp; omaxHealth := hp;
         olevel := 1 |}.

(** [n] iterations of the loop, pushing onto [acc]. *)
Fixpoint generateLoop (n : nat) (chunkSeed worldX worldY : Q)
    (acc : list Obstacle) : M (list Obstacle) :=
  match n with
  | O => ret acc
  | S n' =>
      do o <- generateObstacle chunkSeed worldX worldY;
      generateLoop n' chunkSeed worldX worldY (acc ++ [o])
  end.

(** [obstacleCount = Math.floor(rng() * 15) + 5] *)
Definition obstacleCount (chunkSeed : Q) : M Z :=
  do r <- rng chunkSeed;
  ret (Qfloor (r * 15) + 5)%Z.

(** [generate(seed)] *)
Definition generate (seed : Q) (c : t) : M t :=
  if generated c then ret c
  else
    let chunkSeed := seed + x c * 10000 + y c * 100 in
    let worldX := x c * CHUNK_SIZE in
    let worldY := y c * CHUNK_SIZE in
    do count <- obstacleCount chunkSeed;
    do obs <- generateLoop (Z.to_nat count) chunkSeed worldX worldY
                           (obstacles c);
    ret {| id := id c; x := x c; y := y c; obstacles := obs;
           generated := true |}.

End WithRuntime.

(** [getObstacles()] *)
Definition getObstacles (c : t) : list Obstacle := obstacles c.

(** [containsPoint(x, y)] *)
Definition containsPoint (px py : Q) (c : t) : bool :=
  let worldX := x c * CHUNK_SIZE in
  let worldY := y c * CHUNK_SIZE in
  JS.geb px worldX && JS.ltb px (worldX + CHUNK_SIZE) &&
  JS.geb py worldY && JS.ltb py (worldY + CHUNK_SIZE).

End Chunk.

(** ** The unbounded map *)

Module MapGenerator.

(** The chunk table is a [Map] keyed by the string [x,y] of the chunk
    coordinates.  The coordinates the class passes are whole numbers (floors
    and sums of whole numbers), whose printed forms are distinct, so the
    table is keyed by the pair of integers.  [activeChunkRadius] is a whole
    number (the default, 2, is the only value the game uses). *)
Record t := {
  chunks : gmap (Z * Z) Chunk.t;
  seed : Q;
  activeChunkRadius : Z
}.

Definition with_chunks (cs : gmap (Z * Z) Chunk.t) (mg : t) : t :=
  {| chunks := cs; seed := seed mg; activeChunkRadius := activeChunkRadius mg |}.

(** [new MapGenerator(seed, activeChunkRadius)] *)
Definition new (seed0 : Q) (radius : Z) : t :=
  {| chunks := ∅; seed := seed0; activeChunkRadius := radius |}.

(** [getChunkCoordinates(worldX, worldY)] *)
Definition getChunkCoordinates (worldX worldY : Q) : Z * Z :=
  (Qfloor (worldX / Chunk.CHUNK_SIZE), Qfloor (worldY / Chunk.CHUNK_SIZE)).

(** The cells visited by [for (x = x0; x <= x1; x++) for (y = y0; y <= y1;
    y++)], in order. *)
Definition cells (x0 x1 y0 y1 : Z) : list (Z * Z) :=
  flat_map (fun cx => map (fun cy => (cx, cy)) (seqZ y0 (y1 - y0 + 1)))
           (seqZ x0 (x1 - x0 + 1)).

(** The test of [cleanupDistantChunks] on one chunk. *)
Definition distant (centerX centerY radius : Z) (chunk : Chunk.t) : bool :=
  let maxDistance := inject_Z (radius + 1) in
  JS.ltb maxDistance (Qabs (Chunk.x chunk - inject_Z centerX)) ||
  JS.ltb maxDistance (Qabs (Chunk.y chunk - inject_Z centerY)).

(** [cleanupDistantChunks(centerX, centerY)]: the keys to remove are
    collected first and deleted afterwards. *)
Definition cleanupDistantChunks (centerX centerY : Z) (mg : t) : t :=
  with_chunks
    (filter (fun kc => distant centerX centerY (activeChunkRadius mg) kc.2 = false)
            (chunks mg)) mg.

(** The filter of [getObstaclesInArea]. *)
Definition inArea (minX minY maxX maxY : Q) (obs : Chunk.Obstacle) : bool :=
  JS.ltb (Chunk.ox obs) maxX && JS.ltb minX (Chunk.ox obs + Chunk.owidth obs) &&
  JS.ltb (Chunk.oy obs) maxY && JS.ltb minY (Chunk.oy obs + Chunk.oheight obs).

Section WithRuntime.
Variable rt : Runtime.

(** [getOrCreateChunk(x, y)] *)
Definition getOrCreateChunk (cx cy : Z) (mg : t) : M (Chunk.t * t) :=
  match chunks mg !! (cx, cy) with
  | Some chunk => ret (chunk, mg)
  | None =>
      do chunk0 <- Chunk.new rt (inject_Z cx) (inject_Z cy);
      do chunk <- Chunk.generate rt (seed mg) chunk0;
      ret (chunk, with_chunks (<[(cx, cy) := chunk]> (chunks mg)) mg)
  end.

(** The nested loops of [updateActiveChunks] over the given cells. *)
Fixpoint createAll (cs : list (Z * Z)) (mg : t) : M t :=
  match cs with
  | [] => ret mg
  | (cx, cy) :: rest =>
      do r <- getOrCreateChunk cx cy mg;
      createAll rest (snd r)
  end.

(** [updateActiveChunks(centerX, centerY)] *)
Definition updateActiveChunks (centerX centerY : Q) (mg : t) : M t :=
  let center := getChunkCoordinates centerX centerY in
  let r := activeChunkRadius mg in
  do mg1 <- createAll (cells (center.1 - r) (center.1 + r)
                             (center.2 - r) (center.2 + r)) mg;
  ret (cleanupDistantChunks center.1 center.2 mg1).

(** The nested loops of [getObstaclesInArea], pushing onto [acc]. *)
Fixpoint collect (cs : list (Z * Z)) (minX minY maxX maxY : Q)
    (acc : list Chunk.Obstacle) (mg : t) : M (list Chunk.Obstacle * t) :=
  match cs with
  | [] => ret (acc, mg)
  | (cx, cy) :: rest =>
      do r <- getOrCreateChunk cx cy mg;
      let filteredObstacles :=
        List.filter (inArea minX minY maxX maxY) (Chunk.getObstacles r.1) in
      collect rest minX minY maxX maxY (acc ++ filteredObstacles) r.2
  end.

(** [getObstaclesInArea(minX, minY, maxX, maxY)] *)
Definition getObstaclesInArea (minX minY maxX maxY : Q) (mg : t)
    : M (list Chunk.Obstacle * t) :=
  let startChunk := getChunkCoordinates minX minY in
  let endChunk := getChunkCoordinates maxX maxY in
  collect (cells startChunk.1 endChunk.1 startChunk.2 endChunk.2)
          minX minY maxX maxY [] mg.

End WithRuntime.

End MapGenerator.

(** ** GameSystem: the combat sweeps of one tick *)

Module GameSystem.

Record AttackEffect := {
  ex : Q;
  ey : Q;
  damage : Q;
  lifetime : Q;
  maxLifetime : Q;
  color : string
}.

(** The part of the game system the combat sweeps read and write. *)
Record t := {
  player : Player.t;
  monsters : list Monster.t;
  score : Q;
  keysPressed : gset string;
  attackButtonPressed : bool;
  attackEffects : list AttackEffect
}.

Definition with_combat (p : Player.t) (ms : list Monster.t) (sc : Q)
    (fx : list AttackEffect) (g : t) : t :=
  {| player := p; monsters := ms; score := sc; keysPressed := keysPressed g;
     attackButtonPressed := attackButtonPressed g; attackEffects := fx |}.

(** [createAttackEffect(x, y, damage, color)] *)
Definition createAttackEffect (x0 y0 dmg : Q) (c : string) (g : t) : t :=
  with_combat (player g) (monsters g) (score g)
    (attackEffects g ++
       [{| ex := x0; ey := y0; damage := dmg; lifetime := 0.5;
           maxLifetime := 0.5; color := c |}]) g.

Section WithRuntime.
Variable rt : Runtime.

(** [loot.forEach(item => player.addEquipment(item))] *)
Fixpoint addLoot (loot : list nat) (p : Player.t) : M Player.t :=
  match loot with
  | [] => ret p
  | l :: rest => do p' <- Player.addEquipment l p; addLoot rest p'
  end.

(** [handleMonsterDeath(monster, index)]; [fuel] bounds the level-up loop
    of [gainExperience]. *)
Definition handleMonsterDeath (fuel : nat) (monster : Monster.t) (index : nat)
    (g : t) (w : World) : option (t * World) :=
  let sc := score g + Monster.experienceReward monster in
  match Player.gainExperience rt fuel (Monster.experienceReward monster)
          (player g) w with
  | None => None
  | Some (p1, w1) =>
      let '(loot, w2) := Monster.dropLoot rt monster w1 in
      let '(p2, w3) := addLoot loot p1 w2 in
      Some (with_combat p2 (delete index (monsters g)) sc (attackEffects g) g,
            w3)
  end.

(** The body of the sweep for index [i]. *)
Definition attackMonsterAt (fuel : nat) (attackDamage : Q) (i : nat) (g : t)
    (w : World) : option (t * World) :=
  match monsters g !! i with
  | None => Some (g, w)
  | Some monster =>
      let p := player g in
      if gameUtils.sqrt_leb
           (gameUtils.distance2 (Player.x p) (Player.y p)
                                (Monster.x monster) (Monster.y monster)) 150
      then
        let '(isDead, monster') := Monster.takeDamage attackDamage monster in
        let g1 := with_combat p (<[i := monster']> (monsters g)) (score g)
                              (attackEffects g) g in
        let g2 := createAttackEffect (Monster.x monster') (Monster.y monster')
                                     attackDamage "#FF6B6B" g1 in
        if isDead then handleMonsterDeath fuel monster' i g2 w
        else Some (g2, w)
      else Some (g, w)
  end.

(** [for (let i = n - 1; i >= 0; i--)] *)
Fixpoint sweepMonsters (fuel : nat) (attackDamage : Q) (n : nat) (g : t)
    (w : World) : option (t * World) :=
  match n with
  | O => Some (g, w)
  | S i =>
      match attackMonsterAt fuel attackDamage i g w with
      | None => None
      | Some (g', w') => sweepMonsters fuel attackDamage i g' w'
      end
  end.

(** [checkPlayerAttacks()] *)
Definition checkPlayerAttacks (fuel : nat) (g : t) (w : World)
    : option (t * World) :=
  if bool_decide (" "%string ∈ keysPressed g) || attackButtonPressed g then
    let g1 := createAttackEffect (Player.x (player g)) (Player.y (player g))
                                 0 "#FF4500" g in
    let '((calculatedDamage, p1), w1) := Player.performAttack rt (player g1) w in
    let attackDamage := if JS.ltb 0 calculatedDamage then calculatedDamage else 25 in
    let g2 := with_combat p1 (monsters g1) (score g1) (attackEffects g1) g1 in
    sweepMonsters fuel attackDamage (length (monsters g2)) g2 w1
  else Some (g, w).

End WithRuntime.

(** The body of the loop of [checkMonsterAttacks] for one monster. *)
Definition monsterHits (h : gmap nat Equipment.t) (p : Player.t)
    (monster : Monster.t) : Player.t :=
  if gameUtils.sqrt_leb
       (gameUtils.distance2 (Player.x p) (Player.y p)
                            (Monster.x monster) (Monster.y monster)) 60
  then
    let actualDamage :=
      JS.Math_max 1 (Monster.attack monster - Player.defense p * 0.5) in
    snd (Player.takeDamage h actualDamage p)
  else p.

(** [checkMonsterAttacks()] *)
Definition checkMonsterAttacks (g : t) : M t :=
  do h <- get_heap;
  ret (with_combat (fold_left (monsterHits h) (monsters g) (player g))
                   (monsters g) (score g) (attackEffects g) g).

(** The body of the loop of [updateAttackEffects] for the index [i]: the
    effect ages by [deltaTime] and is spliced out when its lifetime is
    used up. *)
Definition updateEffectAt (deltaTime : Q) (i : nat) (fx : list AttackEffect)
    : list AttackEffect :=
  match fx !! i with
  | None => fx
  | Some effect =>
      let effect' :=
        {| ex := ex effect; ey := ey effect; damage := damage effect;
           lifetime := lifetime effect - deltaTime;
           maxLifetime := maxLifetime effect; color := color effect |} in
      if JS.leb (lifetime effect') 0 then delete i fx
      else <[i := effect']> fx
  end.

(** [for (let i = n - 1; i >= 0; i--)] *)
Fixpoint updateEffectsFrom (deltaTime : Q) (n : nat) (fx : list AttackEffect)
    : list AttackEffect :=
  match n with
  | O => fx
  | S i => updateEffectsFrom deltaTime i (updateEffectAt deltaTime i fx)
  end.

(** [updateAttackEffects(deltaTime)] *)
Definition updateAttackEffects (deltaTime : Q) (g : t) : t :=
  with_combat (player g) (monsters g) (score g)
    (updateEffectsFrom deltaTime (length (attackEffects g)) (attackEffects g))
    g.

End GameSystem.

(** ** Specification predicates *)

Module Spec.

(** No item among [locs] is equipped with a truthy defense stat: the
    player wears no armor that [takeDamage] would count. *)
Definition noEquippedDefense (h : gmap nat Equipment.t) (locs : list nat)
    : Prop :=
  forall l e, l ∈ locs -> h !! l = Some e ->
    Equipment.isEquipped e = true ->
    JS.truthy (Equipment.defense (Equipment.stats e)) = false.


(** The player states the program builds: the constructor's, and those
    the methods make of such states. *)
Inductive reachable (rt : Runtime) : Player.t -> Prop :=
  | reach_new x0 y0 w : reachable rt (fst (Player.new rt x0 y0 w))
  | reach_reset p : reachable rt p -> reachable rt (Player.reset p)
  | reach_performAttack p w :
      reachable rt p -> reachable rt (snd (fst (Player.performAttack rt p w)))
  | reach_takeDamage p h amount :
      reachable rt p -> reachable rt (snd (Player.takeDamage h amount p))
  | reach_levelUp p w :
      reachable rt p -> reachable rt (fst (Player.levelUp rt p w))
  | reach_gainExperience p fuel amount w p' w' :
      reachable rt p ->
      Player.gainExperience rt fuel amount p w = Some (p', w') ->
      reachable rt p'
  | reach_addEquipment p src w :
      reachable rt p -> reachable rt (fst (Player.addEquipment src p w))
  | reach_equipItem p equipmentId w :
      reachable rt p -> reachable rt (fst (Player.equipItem equipmentId p w))
  | reach_equipToPlayer p l w :
      reachable rt p ->
      reachable rt (snd (fst (EquipmentManager.equipToPlayer p l w)))
  | reach_unequipFromPlayer p l w :
      reachable rt p ->
      reachable rt (snd (fst (EquipmentManager.unequipFromPlayer p l w))).


(** The attack input is held: the space key or the attack button. *)
Definition attackHeld (g : GameSystem.t) : Prop :=
  " "%string ∈ GameSystem.keysPressed g \/
  GameSystem.attackButtonPressed g = true.

(** The box of [entity] moved by [(dx, dy)]. *)
Definition movedBy (entity : gameUtils.Collider) (dx dy : Q)
    : gameUtils.Collider :=
  {| gameUtils.x := gameUtils.x entity + dx;
     gameUtils.y := gameUtils.y entity + dy;
     gameUtils.width := gameUtils.width entity;
     gameUtils.height := gameUtils.height entity;
     gameUtils.isSolid := gameUtils.isSolid entity |}.

(** The player's box overlaps no solid obstacle. *)
Definition clearOf (p : Player.t) (obstacles : list gameUtils.Collider)
    : Prop :=
  forall o, In o obstacles -> gameUtils.isSolid o = true ->
    gameUtils.checkCollision (Player.collider p) o = false.

(** An obstacle as [Chunk.generate] makes them for a chunk whose world
    origin is [(worldX, worldY)]: inside the chunk, solid, at full health,
    with the health and the size range of its type. *)
Definition obstacleOk (worldX worldY : Q) (o : Chunk.Obstacle) : Prop :=
  worldX <= Chunk.ox o /\ Chunk.ox o < worldX + Chunk.CHUNK_SIZE /\
  worldY <= Chunk.oy o /\ Chunk.oy o < worldY + Chunk.CHUNK_SIZE /\
  Chunk.oisSolid o = true /\ Chunk.ohealth o = Chunk.omaxHealth o /\
  match Chunk.obstacleType_ o with
  | Chunk.tree =>
      Chunk.omaxHealth o = 100 /\
      40 <= Chunk.owidth o /\ Chunk.owidth o < 60 /\
      60 <= Chunk.oheight o /\ Chunk.oheight o < 100
  | Chunk.rock =>
      Chunk.omaxHealth o = 200 /\
      30 <= Chunk.owidth o /\ Chunk.owidth o < 60 /\
      30 <= Chunk.oheight o /\ Chunk.oheight o < 60
  | Chunk.wall =>
      Chunk.omaxHealth o = 500 /\
      50 <= Chunk.owidth o /\ Chunk.owidth o < 150 /\
      Chunk.oheight o = 20
  end.

(** The chunk table holds, under the key [(cx, cy)], a generated chunk with
    these coordinates. *)
Definition tableOk (mg : MapGenerator.t) : Prop :=
  forall cx cy c, MapGenerator.chunks mg !! (cx, cy) = Some c ->
    Chunk.x c = inject_Z cx /\ Chunk.y c = inject_Z cy /\
    Chunk.generated c = true.

(** An attack effect [deltaTime] later. *)
Definition aged (deltaTime : Q) (e : GameSystem.AttackEffect)
    : GameSystem.AttackEffect :=
  {| GameSystem.ex := GameSystem.ex e; GameSystem.ey := GameSystem.ey e;
     GameSystem.damage := GameSystem.damage e;
     GameSystem.lifetime := GameSystem.lifetime e - deltaTime;
     GameSystem.maxLifetime := GameSystem.maxLifetime e;
     GameSystem.color := GameSystem.color e |}.

(** The effects that are still alive [deltaTime] later, in order. *)
Definition survivors (deltaTime : Q) (fx : list GameSystem.AttackEffect)
    : list GameSystem.AttackEffect :=
  List.filter (fun e => JS.ltb 0 (GameSystem.lifetime e))
              (map (aged deltaTime) fx).

(** The reach of the player's attack sweep: [distance <= 150]. *)
Definition inReach (p : Player.t) (m : Monster.t) : bool :=
  gameUtils.sqrt_leb
    (gameUtils.distance2 (Player.x p) (Player.y p)
                         (Monster.x m) (Monster.y m)) 150.

(** The threshold after [k] level-ups from a threshold [t]: [levelUp]
    replaces it by [floor(t * 1.5)] each time. *)
Fixpoint thresholdAfter (k : nat) (t : Q) : Q :=
  match k with
  | O => t
  | S k' => thresholdAfter k' (JS.Math_floor (t * 1.5))
  end.

(** The experience that [k] level-ups from a threshold [t] cost: the sum
    of the first [k] thresholds. *)
Fixpoint thresholdSum (k : nat) (t : Q) : Q :=
  match k with
  | O => 0
  | S k' => t + thresholdSum k' (JS.Math_floor (t * 1.5))
  end.

End Spec.

(** ** Sample states

    Concrete inputs on which the properties below are exercised. *)

Module Scenario.

(** A runtime whose every random draw is [0.5] and whose clock stands at
    5000 ms; the sine is the constant 0. *)
Definition rt0 : Runtime :=
  {| Math_random := fun _ => 0.5; Date_now := fun _ => 5000;
     Math_sin := fun _ => 0; base36_id := fun _ _ => "id0"%string |}.

Definition w0 : World := {| heap := ∅; rnd := 0; clk := 0 |}.

(** [new Player(0, 0)] *)
Definition player0 : Player.t := fst (Player.new rt0 0 0 w0).

(** [new Monster(10, 0, 1, false, false)]: a level 1 normal monster. *)
Definition monster0 : Monster.t := fst (Monster.new rt0 10 0 1 false false w0).

(** A tree as [Chunk.generate] builds them. *)
Definition tree0 : Chunk.Obstacle :=
  {| Chunk.oid := "id0"; Chunk.obstacleType_ := Chunk.tree;
     Chunk.ox := 0; Chunk.oy := 0; Chunk.owidth := 40; Chunk.oheight := 60;
     Chunk.oisSolid := true; Chunk.ohealth := 100; Chunk.omaxHealth := 100;
     Chunk.olevel := 1 |}.

(** A runtime with the given sine whose every random draw is [r]. *)
Definition rtDraw (sin : Q -> Q) (r : Q) : Runtime :=
  {| Math_random := fun _ => r; Date_now := fun _ => 5000;
     Math_sin := sin; base36_id := fun _ _ => "id0"%string |}.

(** A weapon as the factory builds them, flagged as equipped. *)
Definition sword : Equipment.t :=
  {| Equipment.id := "sword"; Equipment.name := "铁剑";
     Equipment.description := "普通 铁剑"; Equipment.type_ := Equipment.WEAPON;
     Equipment.rarity_ := Equipment.common; Equipment.level := Some 1;
     Equipment.stats :=
       {| Equipment.attack := Some 12; Equipment.defense := None;
          Equipment.maxHealth := None; Equipment.criticalRate := None;
          Equipment.lifesteal := None |};
     Equipment.isEquipped := true; Equipment.has_methods := true |}.

(** A second weapon, not equipped. *)
Definition axe : Equipment.t :=
  {| Equipment.id := "axe"; Equipment.name := "斧";
     Equipment.description := "普通 斧"; Equipment.type_ := Equipment.WEAPON;
     Equipment.rarity_ := Equipment.common; Equipment.level := Some 1;
     Equipment.stats :=
       {| Equipment.attack := Some 20; Equipment.defense := None;
          Equipment.maxHealth := None; Equipment.criticalRate := None;
          Equipment.lifesteal := None |};
     Equipment.isEquipped := false; Equipment.has_methods := true |}.

(** A world whose store holds the sword at address 0 and the axe at 1. *)
Definition w2 : World :=
  {| heap := <[1%nat := axe]> (<[0%nat := sword]> ∅); rnd := 0; clk := 0 |}.

(** [new Monster(10, 0, 6, false, false)]: a normal monster of level 6,
    whose attack is [floor (5 * (1 + 5 * 0.2))], that is 10. *)
Definition monster10 : Monster.t :=
  fst (Monster.new rt0 10 0 6 false false w0).





(** The fresh player next to [monster10], no key held. *)
Definition gameMonster10 : GameSystem.t :=
  {| GameSystem.player := player0; GameSystem.monsters := [monster10];
     GameSystem.score := 0; GameSystem.keysPressed := ∅;
     GameSystem.attackButtonPressed := false;
     GameSystem.attackEffects := [] |}.


(** The store of [w2] with the sword not yet equipped. *)
Definition w1 : World :=
  {| heap := <[1%nat := axe]>
               (<[0%nat := Equipment.set_isEquipped false sword]> ∅);
     rnd := 0; clk := 0 |}.



(** [new Chunk(0, 0)], not yet generated. *)
Definition chunk0 : Chunk.t := fst (Chunk.new rt0 0 0 w0).

(** The player of the progression scenario: experience 95 of 100. *)
Definition player95 : Player.t := Player.set_experience 95 player0.

(** Two boxes that share the edge [x = 10]. *)
Definition boxLeft : gameUtils.Collider :=
  {| gameUtils.x := 0; gameUtils.y := 0; gameUtils.width := 10;
     gameUtils.height := 10; gameUtils.isSolid := true |}.

Definition boxRight : gameUtils.Collider :=
  {| gameUtils.x := 10; gameUtils.y := 0; gameUtils.width := 5;
     gameUtils.height := 5; gameUtils.isSolid := true |}.

(** A solid rock 5 to the right of the fresh player's box (40 x 60 at the
    origin), and a bush at the same place that is not solid. *)
Definition rock : gameUtils.Collider :=
  {| gameUtils.x := 45; gameUtils.y := 0; gameUtils.width := 30;
     gameUtils.height := 30; gameUtils.isSolid := true |}.

Definition bush : gameUtils.Collider :=
  {| gameUtils.x := 45; gameUtils.y := 0; gameUtils.width := 30;
     gameUtils.height := 30; gameUtils.isSolid := false |}.

(** [new FireballSkill()] *)
Definition fireball : Skill.t :=
  fst (Skill.new rt0 Skill.FireballSkill w0).

(** The player after [reset()]: one skill point, no skill. *)
Definition playerReset : Player.t := Player.reset player0.

(** A fresh poison aura: no timer yet. *)
Definition poison0 : PoisonAuraSkill.t :=
  {| PoisonAuraSkill.skill := fst (Skill.new rt0 Skill.PoisonAuraSkill w0);
     PoisonAuraSkill.monsterDamageTimers := ∅ |}.

(** The poison aura after 0.6 s next to [monster0]. *)
Definition poison1 : PoisonAuraSkill.t :=
  snd (PoisonAuraSkill.applyPoisonDamage monster0 0.6 poison0).

(** An armor piece as the factory builds them, not equipped. *)
Definition shield : Equipment.t :=
  {| Equipment.id := "shield"; Equipment.name := "铁甲";
     Equipment.description := "普通 铁甲"; Equipment.type_ := Equipment.ARMOR;
     Equipment.rarity_ := Equipment.common; Equipment.level := Some 1;
     Equipment.stats :=
       {| Equipment.attack := None; Equipment.defense := Some 5;
          Equipment.maxHealth := Some 50; Equipment.criticalRate := None;
          Equipment.lifesteal := None |};
     Equipment.isEquipped := false; Equipment.has_methods := true |}.

(** A world whose store holds the shield at address 0. *)
Definition wShield : World :=
  {| heap := <[0%nat := shield]> ∅; rnd := 0; clk := 0 |}.

(** The fresh player down to 10 health of 100. *)
Definition playerWounded : Player.t := Player.set_health 10 player0.

(** [new Monster(10, 0, 5, false, true)]: a boss of level 5. *)
Definition boss0 : Monster.t := fst (Monster.new rt0 10 0 5 false true w0).

(** [new Chunk(1, -1)], not yet generated. *)
Definition chunkSE : Chunk.t :=
  fst (Chunk.new rt0 (inject_Z 1) (inject_Z (-1)) w0).

(** [new MapGenerator(7)]: no chunk yet, radius 2. *)
Definition map0 : MapGenerator.t := MapGenerator.new 7 2.

(** The fresh player holding the space key next to a monster that is down
    to 10 health, and far from a second one. *)
Definition gameKill : GameSystem.t :=
  {| GameSystem.player := player0;
     GameSystem.monsters :=
       [Monster.set_health 10 monster0;
        fst (Monster.new rt0 900 0 1 false false w0)];
     GameSystem.score := 0; GameSystem.keysPressed := {[ " "%string ]};
     GameSystem.attackButtonPressed := false;
     GameSystem.attackEffects := [] |}.

(** A player whose threshold is 0, which no method produces. *)
Definition playerNoThreshold : Player.t :=
  Player.with_stats 100 100 1 20 5 0 0 0 player0.

End Scenario.

(** * Properties *)

(** ** Comparisons and rounding *)

(** Case analysis on every [Math.max] and [Math.min] in sight. *)
Ltac qminmax :=
  unfold JS.Math_max, JS.Math_min in *;
  repeat match goal with
  | |- context [Qmax ?a ?b] =>
      let v := fresh "v" in
      let E := fresh "E" in
      destruct (Q.max_spec a b) as [[? ?] | [? ?]];
      remember (Qmax a b) as v eqn:E; clear E
  | |- context [Qmin ?a ?b] =>
      let v := fresh "v" in
      let E := fresh "E" in
      destruct (Q.min_spec a b) as [[? ?] | [? ?]];
      remember (Qmin a b) as v eqn:E; clear E
  | H : context [Qmax ?a ?b] |- _ =>
      let v := fresh "v" in
      let E := fresh "E" in
      destruct (Q.max_spec a b) as [[? ?] | [? ?]];
      remember (Qmax a b) as v eqn:E; clear E
  | H : context [Qmin ?a ?b] |- _ =>
      let v := fresh "v" in
      let E := fresh "E" in
      destruct (Q.min_spec a b) as [[? ?] | [? ?]];
      remember (Qmin a b) as v eqn:E; clear E
  end.

Lemma ltb_lt a b : JS.ltb a b = true <-> a < b.
Proof.
  unfold JS.ltb. rewrite negb_true_iff, <- not_true_iff_false, Qle_bool_iff.
  split; [apply Qnot_le_lt | apply Qlt_not_le].
Qed.

Lemma ltb_ge a b : JS.ltb a b = false <-> b <= a.
Proof.
  unfold JS.ltb. rewrite negb_false_iff. apply Qle_bool_iff.
Qed.

Lemma leb_le a b : JS.leb a b = true <-> a <= b.
Proof. apply Qle_bool_iff. Qed.

Lemma leb_gt a b : JS.leb a b = false <-> b < a.
Proof.
  unfold JS.leb. rewrite <- not_true_iff_false, Qle_bool_iff.
  split; [apply Qnot_le_lt | apply Qlt_not_le].
Qed.

Lemma geb_ge a b : JS.geb a b = true <-> b <= a.
Proof. apply Qle_bool_iff. Qed.

Lemma geb_lt a b : JS.geb a b = false <-> a < b.
Proof. unfold JS.geb. apply leb_gt. Qed.

Lemma Math_max_lower a b : a <= JS.Math_max a b.
Proof. apply Q.le_max_l. Qed.

Lemma Math_floor_mono x y : x <= y -> JS.Math_floor x <= JS.Math_floor y.
Proof.
  intros H. unfold JS.Math_floor. rewrite <- Zle_Qle. now apply Qfloor_resp_le.
Qed.

(** ** Line of sight *)

(** The model of [Math.floor(Math.sqrt(d2) / res)] is the floor of the real
    quotient: it is the integer [k >= 0] with [k * res <= sqrt d2 <
    (k + 1) * res], stated on the squares. *)
Lemma floor_sqrt_div_pos d2 res :
  0 < res -> 0 <= d2 ->
  let k := inject_Z (gameUtils.floor_sqrt_div d2 res) in
  0 <= k /\ (k * res) * (k * res) <= d2 /\
  d2 < ((k + 1) * res) * ((k + 1) * res).
Proof.
  intros Hres Hd. unfold gameUtils.floor_sqrt_div.
  apply ltb_lt in Hres as Hb. rewrite Hb. clear Hb.
  set (q := d2 / (res * res)).
  assert (Hrr : 0 < res * res) by nra.
  assert (Hq : 0 <= q).
  { unfold q. apply Qle_shift_div_l; [exact Hrr | lra]. }
  assert (Hn : (0 <= Qfloor q)%Z).
  { change 0%Z with (Qfloor 0). now apply Qfloor_resp_le. }
  pose proof (Z.sqrt_spec _ Hn) as [Hlo Hhi]. cbv zeta in *.
  pose proof (Z.sqrt_nonneg (Qfloor q)) as Hk.
  set (k := Z.sqrt (Qfloor q)) in *.
  pose proof (Qfloor_le q) as Hfl. pose proof (Qlt_floor q) as Hfu.
  assert (Hlo' : inject_Z k * inject_Z k <= q).
  { eapply Qle_trans; [| exact Hfl].
    rewrite <- inject_Z_mult. now rewrite <- Zle_Qle. }
  assert (Hhi' : q < (inject_Z k + 1) * (inject_Z k + 1)).
  { eapply Qlt_le_trans; [exact Hfu |].
    change 1 with (inject_Z 1). rewrite <- !inject_Z_plus, <- inject_Z_mult.
    rewrite <- Zle_Qle. unfold Z.succ in Hhi. lia. }
  assert (Hd2 : d2 == q * (res * res)).
  { unfold q. field. lra. }
  split; [| split].
  - change 0 with (inject_Z 0). now rewrite <- Zle_Qle.
  - rewrite Hd2. nra.
  - rewrite Hd2. nra.
Qed.

Lemma sightSteps_negative s e r : r < 0 -> gameUtils.sightSteps s e r = 2%Z.
Proof.
  intros Hr. unfold gameUtils.sightSteps, gameUtils.floor_sqrt_div.
  assert (Hb : JS.ltb 0 r = false) by (apply ltb_ge; lra).
  rewrite Hb.
  match goal with |- context [Z.sqrt_up ?a] =>
    pose proof (Z.sqrt_up_nonneg a) end.
  lia.
Qed.

Lemma sightSteps_ge_2 s e r : (2 <= gameUtils.sightSteps s e r)%Z.
Proof. unfold gameUtils.sightSteps. lia. Qed.







(** ** Damage *)

(** No skill class has a buff whose name contains the marker, so the
    on-damage trigger of [Player.takeDamage] never fires. *)
Lemma triggersOnDamage_never (s : Skill.t) : Skill.triggersOnDamage s = false.
Proof.
  unfold Skill.triggersOnDamage, Skill.type_, Skill.name.
  destruct (Skill.cls s); vm_compute; reflexivity.
Qed.

Lemma onDamageSkills_id (p : Player.t) : Player.onDamageSkills p = p.
Proof.
  unfold Player.onDamageSkills. generalize p at 2 3.
  induction (Player.skills p) as [| s l IH]; intros q; simpl; [reflexivity |].
  unfold Player.buffEffect. destruct (Skill.triggersOnDamage s); apply IH.
Qed.

Lemma Monster_takeDamage_health (amount : Q) (m : Monster.t) :
  Monster.health (snd (Monster.takeDamage amount m))
  = Monster.health m
    - JS.Math_max 1 (amount - JS.Math_min (Monster.defense m) (amount * 0.5)).
Proof. reflexivity. Qed.

Lemma Player_takeDamage_health h (amount : Q) (p : Player.t) :
  Player.health (snd (Player.takeDamage h amount p))
  = Player.health p
    - JS.Math_max 1
        (Player.armorReduce h (Player.equipment p)
           (JS.Math_max 1
              (amount - JS.Math_min (Player.defense p) (amount * 0.8)))).
Proof.
  unfold Player.takeDamage. cbn [snd]. now rewrite onDamageSkills_id.
Qed.

Lemma Player_takeDamage_maxHealth h (amount : Q) (p : Player.t) :
  Player.maxHealth (snd (Player.takeDamage h amount p)) = Player.maxHealth p.
Proof.
  unfold Player.takeDamage. cbn [snd]. now rewrite onDamageSkills_id.
Qed.

(** C1, as amended: for every player and every monster, whatever the
    amount and the defense, [takeDamage] lowers health by at least 1, and
    health stays at most maxHealth when it was so before the call; an
    obstacle's [takeDamage] has neither defense nor floor and subtracts
    exactly [amount]. *)
Theorem takeDamage_chip_damage (m : Monster.t) (p : Player.t)
    (h : gmap nat Equipment.t) (o : Chunk.Obstacle) (amount : Q) :
  let m' := snd (Monster.takeDamage amount m) in
  let p' := snd (Player.takeDamage h amount p) in
  let o' := snd (Chunk.obstacleTakeDamage amount o) in
  (Monster.health m' <= Monster.health m - 1 /\
   (Monster.health m <= Monster.maxHealth m ->
    Monster.health m' <= Monster.maxHealth m')) /\
  (Player.health p' <= Player.health p - 1 /\
   (Player.health p <= Player.maxHealth p ->
    Player.health p' <= Player.maxHealth p')) /\
  Chunk.ohealth o' == Chunk.ohealth o - amount.
Proof.
  intros m' p' o'. split; [| split].
  - subst m'. rewrite Monster_takeDamage_health. cbn [Monster.maxHealth snd
      Monster.takeDamage Monster.set_health].
    pose proof (Math_max_lower 1
      (amount - JS.Math_min (Monster.defense m) (amount * 0.5))).
    split; [| intros Hm]; lra.
  - subst p'. rewrite Player_takeDamage_health, Player_takeDamage_maxHealth.
    match goal with |- context [JS.Math_max 1 ?a] =>
      pose proof (Math_max_lower 1 a) end.
    split; [| intros Hp]; lra.
  - subst o'. cbn. reflexivity.
Qed.

Lemma takeDamage_chip_damage_witness :
  (Monster.health Scenario.monster0 <= Monster.maxHealth Scenario.monster0 /\
   Player.health Scenario.player0 <= Player.maxHealth Scenario.player0) /\
  (Monster.health (snd (Monster.takeDamage 25 Scenario.monster0)) <= 50 - 1 /\
   Monster.health (snd (Monster.takeDamage 25 Scenario.monster0))
   <= Monster.maxHealth (snd (Monster.takeDamage 25 Scenario.monster0))) /\
  (Player.health (snd (Player.takeDamage ∅ 25 Scenario.player0)) <= 100 - 1 /\
   Player.health (snd (Player.takeDamage ∅ 25 Scenario.player0))
   <= Player.maxHealth (snd (Player.takeDamage ∅ 25 Scenario.player0))).
Proof.
  assert (Hm : Monster.health Scenario.monster0
               <= Monster.maxHealth Scenario.monster0)
    by (vm_compute; discriminate).
  assert (Hp : Player.health Scenario.player0
               <= Player.maxHealth Scenario.player0)
    by (vm_compute; discriminate).
  split; [split; assumption |].
  destruct (takeDamage_chip_damage Scenario.monster0 Scenario.player0 ∅
              Scenario.tree0 25) as ((Hm1 & Hm2) & (Hp1 & Hp2) & _).
  split; split; auto.
Defined.

(** C1 as stated fails on obstacles: a tree with 100 of 100 health hit for
    0.5 loses 0.5, less than 1; hit for -10 it ends above its maxHealth. *)
Lemma obstacle_takeDamage_counterexample :
  let o := Scenario.tree0 in
  Chunk.ohealth (snd (Chunk.obstacleTakeDamage 0.5 o)) == 99.5 /\
  ~ Chunk.ohealth (snd (Chunk.obstacleTakeDamage 0.5 o)) <= Chunk.ohealth o - 1
  /\ ~ Chunk.ohealth (snd (Chunk.obstacleTakeDamage (-10) o))
       <= Chunk.omaxHealth (snd (Chunk.obstacleTakeDamage (-10) o)).
Proof.
  cbn. repeat split.
  - intros H. vm_compute in H. apply H. reflexivity.
  - intros H. vm_compute in H. apply H. reflexivity.
Qed.

(** ** Experience and levels *)

Lemma levelUp_experience rt (p : Player.t) (w : World) :
  Player.experience (fst (Player.levelUp rt p w))
  = Player.experience p - Player.experienceToNextLevel p.
Proof. reflexivity. Qed.

Lemma levelUp_threshold rt (p : Player.t) (w : World) :
  Player.experienceToNextLevel (fst (Player.levelUp rt p w))
  = JS.Math_floor (Player.experienceToNextLevel p * 1.5).
Proof. reflexivity. Qed.

Lemma levelUp_level rt (p : Player.t) (w : World) :
  Player.level (fst (Player.levelUp rt p w)) = Player.level p + 1.
Proof. reflexivity. Qed.

(** The threshold never falls below 1: the constructor and [reset] set it
    to 100 and [levelUp] keeps it at least 1. *)
Lemma new_threshold rt x0 y0 w :
  Player.experienceToNextLevel (fst (Player.new rt x0 y0 w)) = 100.
Proof. reflexivity. Qed.

Lemma reset_threshold p : Player.experienceToNextLevel (Player.reset p) = 100.
Proof. reflexivity. Qed.

Lemma levelUp_threshold_ge_1 rt (p : Player.t) (w : World) :
  1 <= Player.experienceToNextLevel p ->
  1 <= Player.experienceToNextLevel (fst (Player.levelUp rt p w)).
Proof.
  intros H. rewrite levelUp_threshold.
  apply Qle_trans with (JS.Math_floor 1); [vm_compute; discriminate |].
  apply Math_floor_mono. lra.
Qed.

(** Extra fuel does not change a result. *)
Lemma levelUpLoop_fuel_mono rt (fuel : nat) :
  forall (p : Player.t) (w : World) r (fuel' : nat),
    Player.levelUpLoop rt fuel p w = Some r -> (fuel <= fuel')%nat ->
    Player.levelUpLoop rt fuel' p w = Some r.
Proof.
  induction fuel as [| n IH]; intros p w r fuel' Hr Hle.
  - destruct fuel'; simpl in *;
      destruct (JS.geb _ _); try discriminate; exact Hr.
  - destruct fuel' as [| n']; [lia |]. simpl in *.
    destruct (JS.geb _ _); [| exact Hr].
    destruct (Player.levelUp rt p w) as [p1 w1]. apply IH; [exact Hr | lia].
Qed.

(** With the threshold at least 1 every iteration takes at least 1 off the
    experience, so [fuel] iterations are enough once the experience is
    below [fuel]. *)
Lemma levelUpLoop_terminates rt (fuel : nat) :
  forall (p : Player.t) (w : World),
    1 <= Player.experienceToNextLevel p ->
    Player.experience p < inject_Z (Z.of_nat fuel) ->
    exists p' w',
      Player.levelUpLoop rt fuel p w = Some (p', w') /\
      Player.experience p' < Player.experienceToNextLevel p' /\
      1 <= Player.experienceToNextLevel p' /\
      Player.level p <= Player.level p'.
Proof.
  induction fuel as [| n IH]; intros p w Hthr Hexp.
  - cbn [Player.levelUpLoop]. destruct (JS.geb _ _) eqn:E.
    + apply geb_ge in E. change (inject_Z (Z.of_nat 0)) with 0 in Hexp. lra.
    + apply geb_lt in E. exists p, w. repeat split; trivial. lra.
  - cbn [Player.levelUpLoop]. destruct (JS.geb _ _) eqn:E.
    + apply geb_ge in E.
      pose proof (levelUp_experience rt p w) as Hx.
      pose proof (levelUp_threshold_ge_1 rt p w Hthr) as Ht.
      pose proof (levelUp_level rt p w) as Hl.
      destruct (Player.levelUp rt p w) as [p1 w1]. cbn [fst] in *.
      destruct (IH p1 w1 Ht) as (p' & w' & Hr & Hlt & Hge & Hlv).
      { rewrite Hx. rewrite Nat2Z.inj_succ in Hexp. unfold Z.succ in Hexp.
        rewrite inject_Z_plus in Hexp. change (inject_Z 1) with 1 in Hexp.
        clear IH. generalize dependent (inject_Z (Z.of_nat n)). intros k Hk.
        lra. }
      exists p', w'. repeat split; trivial. rewrite Hl in Hlv. lra.
    + apply geb_lt in E. exists p, w. repeat split; trivial. lra.
Qed.

(** With a threshold of at least 1 the level-up loop of [gainExperience]
    ends, and ends below the threshold. *)
Lemma gainExperience_returns (rt : Runtime) (p : Player.t) (amount : Q)
    (w : World) :
  1 <= Player.experienceToNextLevel p ->
  exists (n : nat) (p' : Player.t) (w' : World),
    (forall fuel : nat, (n <= fuel)%nat ->
       Player.gainExperience rt fuel amount p w = Some (p', w')) /\
    Player.experience p' < Player.experienceToNextLevel p'.
Proof.
  intros Hthr. unfold Player.gainExperience.
  set (q := Player.set_experience (Player.experience p + amount) p).
  set (n := Z.to_nat (Qfloor (Player.experience q) + 1)).
  assert (Hexp : Player.experience q < inject_Z (Z.of_nat n)).
  { pose proof (Qlt_floor (Player.experience q)) as Hf. subst n.
    destruct (Z_lt_le_dec (Qfloor (Player.experience q) + 1) 0) as [Hneg | Hpos].
    - replace (Z.of_nat (Z.to_nat (Qfloor (Player.experience q) + 1)))
        with 0%Z by lia.
      apply Qlt_trans with (1 := Hf). now rewrite <- Zlt_Qlt.
    - now rewrite Z2Nat.id by lia. }
  destruct (levelUpLoop_terminates rt n q w Hthr Hexp)
    as (p' & w' & Hr & Hlt & _).
  exists n, p', w'. split; [| exact Hlt].
  intros fuel Hle. eapply levelUpLoop_fuel_mono; eassumption.
Qed.

(** The level-up loop, iteration by iteration: with a threshold of at
    least 1 it ends after exactly [k] calls of [levelUp], each of them made
    with the experience at or above the threshold of that moment; the
    level and the skill points have grown by [k], the threshold is the
    [k]-th one and the experience has lost the [k] thresholds crossed. *)
Lemma levelUpLoop_levels rt (fuel : nat) :
  forall (p : Player.t) (w : World),
    1 <= Player.experienceToNextLevel p ->
    Player.experience p < inject_Z (Z.of_nat fuel) ->
    exists (k : nat) (p' : Player.t) (w' : World),
      Player.levelUpLoop rt fuel p w = Some (p', w') /\
      (forall fuel', (fuel' < k)%nat ->
         Player.levelUpLoop rt fuel' p w = None) /\
      Player.experience p' < Player.experienceToNextLevel p' /\
      Player.level p' == Player.level p + inject_Z (Z.of_nat k) /\
      Player.skillPoints p' == Player.skillPoints p + inject_Z (Z.of_nat k) /\
      Player.experienceToNextLevel p'
      = Spec.thresholdAfter k (Player.experienceToNextLevel p) /\
      Player.experience p'
      == Player.experience p
         - Spec.thresholdSum k (Player.experienceToNextLevel p) /\
      (forall i, (i < k)%nat ->
         Spec.thresholdAfter i (Player.experienceToNextLevel p)
         <= Player.experience p
            - Spec.thresholdSum i (Player.experienceToNextLevel p)).
Proof.
  induction fuel as [| n IH]; intros p w Hthr Hexp.
  - cbn [Player.levelUpLoop]. destruct (JS.geb _ _) eqn:E.
    + apply geb_ge in E. change (inject_Z (Z.of_nat 0)) with 0 in Hexp. lra.
    + apply geb_lt in E. exists O, p, w.
      change (inject_Z (Z.of_nat 0)) with 0. cbn [Spec.thresholdAfter
        Spec.thresholdSum].
      repeat split; trivial; try lra; intros; lia.
  - destruct (JS.geb (Player.experience p) (Player.experienceToNextLevel p))
      eqn:E.
    + pose proof E as Hge. apply geb_ge in Hge.
      pose proof (levelUp_experience rt p w) as Hx.
      pose proof (levelUp_threshold rt p w) as Ht.
      pose proof (levelUp_threshold_ge_1 rt p w Hthr) as Ht1.
      pose proof (levelUp_level rt p w) as Hl.
      assert (Hsp : Player.skillPoints (fst (Player.levelUp rt p w))
                    = Player.skillPoints p + 1) by reflexivity.
      cbn [Player.levelUpLoop]. rewrite E.
      destruct (Player.levelUp rt p w) as [p1 w1] eqn:Elv. cbn [fst] in *.
      assert (Hexp1 : Player.experience p1 < inject_Z (Z.of_nat n)).
      { rewrite Hx. rewrite Nat2Z.inj_succ in Hexp. unfold Z.succ in Hexp.
        rewrite inject_Z_plus in Hexp. change (inject_Z 1) with 1 in Hexp.
        clear IH. generalize dependent (inject_Z (Z.of_nat n)). intros q Hq.
        lra. }
      destruct (IH p1 w1 Ht1 Hexp1)
        as (k & p' & w' & Hr & Hnone & Hlt & Hlv & Hpts & Hnxt & Hxp & Hcross).
      exists (S k), p', w'.
      assert (HSk : inject_Z (Z.of_nat (S k)) == inject_Z (Z.of_nat k) + 1).
      { rewrite Nat2Z.inj_succ. unfold Z.succ. rewrite inject_Z_plus.
        reflexivity. }
      cbn [Spec.thresholdAfter Spec.thresholdSum]. rewrite <- Ht.
      split; [exact Hr |]. split.
      { intros [| f] Hf; cbn [Player.levelUpLoop]; rewrite E;
          [reflexivity |].
        rewrite Elv. apply Hnone. lia. }
      split; [exact Hlt |].
      split; [rewrite Hlv, Hl, HSk; lra |].
      split; [rewrite Hpts, Hsp, HSk; lra |].
      split; [exact Hnxt |].
      split; [rewrite Hxp, Hx; lra |].
      intros [| i] Hi; cbn [Spec.thresholdAfter Spec.thresholdSum].
      * lra.
      * rewrite <- Ht. specialize (Hcross i ltac:(lia)). rewrite Hx in Hcross.
        lra.
    + apply geb_lt in E. exists O, p, w.
      change (inject_Z (Z.of_nat 0)) with 0.
      cbn [Player.levelUpLoop Spec.thresholdAfter Spec.thresholdSum].
      rewrite (proj2 (geb_lt _ _) E).
      repeat split; trivial; try lra; intros; lia.
Qed.

(** [gainExperience] on a player whose threshold is at least 1: the loop
    ends after exactly [k] level-ups, and the result is the one that [k]
    level-ups of the player with the gain added give. *)
Lemma gainExperience_levels (rt : Runtime) (p : Player.t) (amount : Q)
    (w : World) :
  1 <= Player.experienceToNextLevel p ->
  exists (n k : nat) (p' : Player.t) (w' : World),
    (forall fuel : nat, (n <= fuel)%nat ->
       Player.gainExperience rt fuel amount p w = Some (p', w')) /\
    (forall fuel : nat, (fuel < k)%nat ->
       Player.gainExperience rt fuel amount p w = None) /\
    Player.experience p' < Player.experienceToNextLevel p' /\
    Player.level p' == Player.level p + inject_Z (Z.of_nat k) /\
    Player.skillPoints p' == Player.skillPoints p + inject_Z (Z.of_nat k) /\
    Player.experienceToNextLevel p'
    = Spec.thresholdAfter k (Player.experienceToNextLevel p) /\
    Player.experience p'
    == Player.experience p + amount
       - Spec.thresholdSum k (Player.experienceToNextLevel p) /\
    (forall i, (i < k)%nat ->
       Spec.thresholdAfter i (Player.experienceToNextLevel p)
       <= Player.experience p + amount
          - Spec.thresholdSum i (Player.experienceToNextLevel p)) /\
    (Player.experienceToNextLevel p
     + JS.Math_floor (Player.experienceToNextLevel p * 1.5)
     <= Player.experience p + amount -> (2 <= k)%nat).
Proof.
  intros Hthr. unfold Player.gainExperience.
  set (q := Player.set_experience (Player.experience p + amount) p).
  set (n := Z.to_nat (Qfloor (Player.experience q) + 1)).
  assert (Hexp : Player.experience q < inject_Z (Z.of_nat n)).
  { pose proof (Qlt_floor (Player.experience q)) as Hf. subst n.
    destruct (Z_lt_le_dec (Qfloor (Player.experience q) + 1) 0) as [Hneg | Hpos].
    - replace (Z.of_nat (Z.to_nat (Qfloor (Player.experience q) + 1)))
        with 0%Z by lia.
      apply Qlt_trans with (1 := Hf). now rewrite <- Zlt_Qlt.
    - now rewrite Z2Nat.id by lia. }
  destruct (levelUpLoop_levels rt n q w Hthr Hexp)
    as (k & p' & w' & Hr & Hnone & Hlt & Hlv & Hpts & Hnxt & Hxp & Hcross).
  change (Player.experienceToNextLevel q)
    with (Player.experienceToNextLevel p) in *.
  change (Player.experience q) with (Player.experience p + amount) in *.
  change (Player.level q) with (Player.level p) in *.
  change (Player.skillPoints q) with (Player.skillPoints p) in *.
  exists n, k, p', w'.
  split; [intros fuel Hle; eapply levelUpLoop_fuel_mono; eassumption |].
  split; [exact Hnone |]. split; [exact Hlt |]. split; [exact Hlv |].
  split; [exact Hpts |]. split; [exact Hnxt |]. split; [exact Hxp |].
  split; [exact Hcross |].
  intros Htwo. rewrite Hnxt in Hlt.
  assert (H1 : 1 <= JS.Math_floor (Player.experienceToNextLevel p * 1.5)).
  { apply Qle_trans with (JS.Math_floor 1); [vm_compute; discriminate |].
    apply Math_floor_mono. lra. }
  destruct k as [| [| k]]; [| | lia];
    cbn [Spec.thresholdAfter Spec.thresholdSum] in Hlt, Hxp; lra.
Qed.

(** C2, as amended: for a player whose threshold is at least 1, as it is
    for every player the code builds, [gainExperience(amount)] returns:
    the loop ends after exactly [k] calls of [levelUp] (fewer iterations
    do not end it, more give the same result), at least two when the gain
    crosses two thresholds.  On return the level and the skill points have
    grown by [k], the threshold is the old one with [floor(. * 1.5)]
    applied [k] times, the experience is the old experience plus the
    amount minus the [k] thresholds crossed, each of which it had reached,
    and [experience < experienceToNextLevel]. *)
Theorem gainExperience_terminates (rt : Runtime) (p : Player.t) (amount : Q)
    (w : World) :
  1 <= Player.experienceToNextLevel p ->
  exists (n k : nat) (p' : Player.t) (w' : World),
    (forall fuel : nat, (n <= fuel)%nat ->
       Player.gainExperience rt fuel amount p w = Some (p', w')) /\
    (forall fuel : nat, (fuel < k)%nat ->
       Player.gainExperience rt fuel amount p w = None) /\
    Player.experience p' < Player.experienceToNextLevel p' /\
    Player.level p' == Player.level p + inject_Z (Z.of_nat k) /\
    Player.skillPoints p' == Player.skillPoints p + inject_Z (Z.of_nat k) /\
    Player.experienceToNextLevel p'
    = Spec.thresholdAfter k (Player.experienceToNextLevel p) /\
    Player.experience p'
    == Player.experience p + amount
       - Spec.thresholdSum k (Player.experienceToNextLevel p) /\
    (forall i, (i < k)%nat ->
       Spec.thresholdAfter i (Player.experienceToNextLevel p)
       <= Player.experience p + amount
          - Spec.thresholdSum i (Player.experienceToNextLevel p)) /\
    (Player.experienceToNextLevel p
     + JS.Math_floor (Player.experienceToNextLevel p * 1.5)
     <= Player.experience p + amount -> (2 <= k)%nat).
Proof. exact (gainExperience_levels rt p amount w). Qed.

Lemma gainExperience_terminates_witness :
  1 <= Player.experienceToNextLevel Scenario.player95 /\
  exists (n k : nat) (p' : Player.t) (w' : World),
    (forall fuel : nat, (n <= fuel)%nat ->
       Player.gainExperience Scenario.rt0 fuel 250 Scenario.player95
         Scenario.w0 = Some (p', w')) /\
    (forall fuel : nat, (fuel < k)%nat ->
       Player.gainExperience Scenario.rt0 fuel 250 Scenario.player95
         Scenario.w0 = None) /\
    Player.experience p' < Player.experienceToNextLevel p' /\
    Player.level p'
    == Player.level Scenario.player95 + inject_Z (Z.of_nat k) /\
    Player.skillPoints p'
    == Player.skillPoints Scenario.player95 + inject_Z (Z.of_nat k) /\
    Player.experienceToNextLevel p'
    = Spec.thresholdAfter k
        (Player.experienceToNextLevel Scenario.player95) /\
    Player.experience p'
    == Player.experience Scenario.player95 + 250
       - Spec.thresholdSum k
           (Player.experienceToNextLevel Scenario.player95) /\
    (forall i, (i < k)%nat ->
       Spec.thresholdAfter i (Player.experienceToNextLevel Scenario.player95)
       <= Player.experience Scenario.player95 + 250
          - Spec.thresholdSum i
              (Player.experienceToNextLevel Scenario.player95)) /\
    (Player.experienceToNextLevel Scenario.player95
     + JS.Math_floor (Player.experienceToNextLevel Scenario.player95 * 1.5)
     <= Player.experience Scenario.player95 + 250 -> (2 <= k)%nat).
Proof.
  assert (H : 1 <= Player.experienceToNextLevel Scenario.player95)
    by (vm_compute; discriminate).
  split; [exact H |].
  exact (gainExperience_terminates Scenario.rt0 Scenario.player95 250
           Scenario.w0 H).
Defined.

(** The progression scenario: at experience 95 of 100 a gain of 250 crosses
    two thresholds (100, then 150); the loop runs twice and leaves level 3,
    experience 95 of 225, full health and two skill points. *)
Lemma gainExperience_crosses_two_thresholds :
  exists p' w',
    Player.gainExperience Scenario.rt0 2 250 Scenario.player95 Scenario.w0
    = Some (p', w') /\
    Player.level p' == 3 /\ Player.experience p' == 95 /\
    Player.experienceToNextLevel p' == 225 /\
    Player.health p' == Player.maxHealth p' /\ Player.skillPoints p' == 2.
Proof.
  eexists. eexists. split; [vm_compute; reflexivity |].
  repeat split.
Qed.

(** One iteration is not enough there: the loop condition still holds
    after the first level-up. *)
Lemma gainExperience_one_iteration_not_enough :
  Player.gainExperience Scenario.rt0 1 250 Scenario.player95 Scenario.w0
  = None.
Proof. vm_compute. reflexivity. Qed.

(** A threshold below 1 is where the loop can run forever: at threshold 0
    with non-negative experience no amount of fuel ends it. *)
Lemma levelUpLoop_threshold_zero_diverges rt (fuel : nat) :
  forall (p : Player.t) (w : World),
    Player.experienceToNextLevel p == 0 -> 0 <= Player.experience p ->
    Player.levelUpLoop rt fuel p w = None.
Proof.
  induction fuel as [| n IH]; intros p w Hthr Hexp;
    cbn [Player.levelUpLoop];
    (destruct (JS.geb _ _) eqn:E; [| apply geb_lt in E; lra]).
  - reflexivity.
  - pose proof (levelUp_experience rt p w) as Hx.
    pose proof (levelUp_threshold rt p w) as Ht.
    destruct (Player.levelUp rt p w) as [p1 w1]. cbn [fst] in *.
    apply IH.
    + rewrite Ht. unfold JS.Math_floor.
      assert (Hz : Player.experienceToNextLevel p * 1.5 == 0) by lra.
      now rewrite (Qfloor_comp _ _ Hz).
    + rewrite Hx. lra.
Qed.

(** C2 as stated fails: "every player state" includes a threshold of 0,
    and there a gain that is not negative (here 5, on experience 0) keeps
    the loop condition true for ever: no number of iterations makes
    [gainExperience] return. *)
Lemma gainExperience_every_state_counterexample :
  Player.experienceToNextLevel Scenario.playerNoThreshold == 0 /\
  Player.experience Scenario.playerNoThreshold == 0 /\
  (0 <= 5)%Q /\
  forall fuel : nat,
    Player.gainExperience Scenario.rt0 fuel 5 Scenario.playerNoThreshold
      Scenario.w0 = None.
Proof.
  split; [reflexivity |]. split; [reflexivity |].
  split; [vm_compute; discriminate |].
  intros fuel. unfold Player.gainExperience.
  apply levelUpLoop_threshold_zero_diverges;
    [reflexivity | vm_compute; discriminate].
Qed.

(** ** Chunk generation *)

Lemma generate_generated rt seed (c : Chunk.t) (w : World) :
  Chunk.generated (fst (Chunk.generate rt seed c w)) = true.
Proof.
  unfold Chunk.generate. destruct (Chunk.generated c) eqn:E; [exact E |].
  unfold bind. destruct (Chunk.obstacleCount _ _ _) as [count w1].
  destruct (Chunk.generateLoop _ _ _ _ _ _ _) as [obs w2]. reflexivity.
Qed.

Lemma generate_of_generated rt seed (c : Chunk.t) (w : World) :
  Chunk.generated c = true -> Chunk.generate rt seed c w = (c, w).
Proof. intros H. unfold Chunk.generate. now rewrite H. Qed.

(** C8: a second [generate] on the chunk is a no-op: chunk (and so its
    obstacle list) and world are those left by the first call, whatever the
    seed of the second call and whatever the random draws. *)
Theorem generate_idempotent (rt : Runtime) (seed seed' : Q) (c : Chunk.t)
    (w : World) :
  Chunk.generate rt seed'
    (fst (Chunk.generate rt seed c w)) (snd (Chunk.generate rt seed c w))
  = Chunk.generate rt seed c w.
Proof.
  rewrite generate_of_generated by apply generate_generated.
  now destruct (Chunk.generate rt seed c w).
Qed.

Lemma generateLoop_length rt (n : nat) :
  forall chunkSeed worldX worldY acc (w : World),
    length (fst (Chunk.generateLoop rt n chunkSeed worldX worldY acc w))
    = (length acc + n)%nat.
Proof.
  induction n as [| n IH]; intros chunkSeed worldX worldY acc w.
  - cbn. lia.
  - cbn [Chunk.generateLoop]. unfold bind at 1.
    destruct (Chunk.generateObstacle _ _ _ _ _) as [o w1].
    rewrite IH, length_app. cbn. lia.
Qed.

(** The number of obstacles of a fresh chunk is the count drawn first. *)
Lemma generate_count rt seed (c : Chunk.t) (w : World) :
  Chunk.generated c = false -> Chunk.obstacles c = [] ->
  length (Chunk.obstacles (fst (Chunk.generate rt seed c w)))
  = Z.to_nat (fst (Chunk.obstacleCount rt
                     (seed + Chunk.x c * 10000 + Chunk.y c * 100) w)).
Proof.
  intros Hg Ho. unfold Chunk.generate. rewrite Hg. unfold bind.
  destruct (Chunk.obstacleCount _ _ _) as [count w1]. cbn [fst].
  pose proof (generateLoop_length rt (Z.to_nat count)
    (seed + Chunk.x c * 10000 + Chunk.y c * 100)
    (Chunk.x c * Chunk.CHUNK_SIZE) (Chunk.y c * Chunk.CHUNK_SIZE)
    (Chunk.obstacles c) w1) as Hl.
  destruct (Chunk.generateLoop _ _ _ _ _ _ _) as [obs w2].
  unfold ret. cbn [fst Chunk.obstacles] in *.
  rewrite Hl, Ho. reflexivity.
Qed.

Lemma Qfloor_eq (z : Z) (x : Q) :
  inject_Z z <= x -> x < inject_Z (z + 1) -> Qfloor x = z.
Proof.
  intros Hlo Hhi.
  pose proof (Qfloor_le x) as Hf. pose proof (Qlt_floor x) as Hc.
  assert (H1 : (Qfloor x < z + 1)%Z).
  { rewrite Zlt_Qlt. eapply Qle_lt_trans; eassumption. }
  assert (H2 : (z < Qfloor x + 1)%Z).
  { rewrite Zlt_Qlt. eapply Qle_lt_trans; eassumption. }
  lia.
Qed.

Lemma obstacleCount_value rt chunkSeed (w : World) :
  fst (Chunk.obstacleCount rt chunkSeed w)
  = (Qfloor (JS.frac (Math_sin rt (chunkSeed + Math_random rt (rnd w) * 1000)
                      * 10000) * 15) + 5)%Z.
Proof. reflexivity. Qed.

(** C3 fails on the code: [rng] adds [Math.random() * 1000] to the chunk
    seed, so what is generated follows the random draws and not only
    (seed, chunkX, chunkY).  For any sine with [sin 0 = 0] and [sin 1]
    within [0.84147, 0.841471] (the real sine is one), chunk (0, 0) at
    seed 0 gets 5 obstacles when [Math.random()] returns 0 and 15 when it
    returns 0.001. *)
Theorem generate_follows_Math_random (sin : Q -> Q) :
  (forall x, x == 0 -> sin x == 0) ->
  (forall x, x == 1 -> 0.84147 <= sin x /\ sin x <= 0.841471) ->
  length (Chunk.obstacles (fst (Chunk.generate (Scenario.rtDraw sin 0) 0
                                  Scenario.chunk0 Scenario.w0))) = 5%nat /\
  length (Chunk.obstacles (fst (Chunk.generate (Scenario.rtDraw sin 0.001) 0
                                  Scenario.chunk0 Scenario.w0))) = 15%nat.
Proof.
  intros H0 H1. split.
  - rewrite generate_count by reflexivity. rewrite obstacleCount_value.
    cbn [Math_sin Math_random Scenario.rtDraw Scenario.w0 rnd].
    match goal with |- context [sin ?a] =>
      assert (Ha : sin a == 0) by (apply H0; reflexivity);
      set (v := sin a) in * end.
    assert (Hf : JS.frac (v * 10000) * 15 == 0).
    { unfold JS.frac, JS.Math_floor.
      assert (Hz : v * 10000 == 0) by lra.
      rewrite (Qfloor_comp _ _ Hz). change (inject_Z (Qfloor 0)) with 0. lra. }
    rewrite (Qfloor_comp _ _ Hf). reflexivity.
  - rewrite generate_count by reflexivity. rewrite obstacleCount_value.
    cbn [Math_sin Math_random Scenario.rtDraw Scenario.w0 rnd].
    match goal with |- context [sin ?a] =>
      assert (Ha : 0.84147 <= sin a /\ sin a <= 0.841471)
        by (apply H1; reflexivity);
      set (v := sin a) in * end.
    destruct Ha as [Hlo Hhi].
    assert (Hfl : Qfloor (v * 10000) = 8414%Z).
    { apply Qfloor_eq.
      - change (inject_Z 8414) with 8414. lra.
      - change (inject_Z (8414 + 1)) with 8415. lra. }
    assert (Hf : Qfloor (JS.frac (v * 10000) * 15) = 10%Z).
    { unfold JS.frac, JS.Math_floor. rewrite Hfl.
      change (inject_Z 8414) with 8414. apply Qfloor_eq.
      - change (inject_Z 10) with 10. lra.
      - change (inject_Z (10 + 1)) with 11. lra. }
    rewrite Hf. reflexivity.
Qed.

Lemma generate_follows_Math_random_witness :
  let sin := fun x : Q => x * 0.8414705 in
  ((forall x, x == 0 -> sin x == 0) /\
   (forall x, x == 1 -> 0.84147 <= sin x /\ sin x <= 0.841471)) /\
  length (Chunk.obstacles (fst (Chunk.generate (Scenario.rtDraw sin 0) 0
                                  Scenario.chunk0 Scenario.w0))) = 5%nat /\
  length (Chunk.obstacles (fst (Chunk.generate (Scenario.rtDraw sin 0.001) 0
                                  Scenario.chunk0 Scenario.w0))) = 15%nat.
Proof.
  intros sin.
  assert (H0 : forall x, x == 0 -> sin x == 0).
  { intros x Hx. unfold sin. rewrite Hx. reflexivity. }
  assert (H1 : forall x, x == 1 -> 0.84147 <= sin x /\ sin x <= 0.841471).
  { intros x Hx. unfold sin. rewrite Hx. split; vm_compute; discriminate. }
  split; [split; assumption |].
  exact (generate_follows_Math_random sin H0 H1).
Defined.

(** ** Loot rarity *)

Lemma totalWeight_boss :
  EquipmentFactory.totalWeight (EquipmentFactory.weights true) == 100.
Proof. vm_compute. reflexivity. Qed.

(** A boss drop is not common for any draw in (0, 1]. *)
Lemma weightedRandom_boss_positive (r : Q) :
  0 < r -> r <= 1 ->
  EquipmentFactory.weightedRandom (EquipmentFactory.weights true) r
  <> EquipmentFactory.COMMON.
Proof.
  intros Hpos Hle. unfold EquipmentFactory.weightedRandom.
  pose proof totalWeight_boss as Ht.
  set (t := EquipmentFactory.totalWeight _) in *.
  assert (Hrt : r * t == r * 100) by (now rewrite Ht).
  cbn [EquipmentFactory.weights EquipmentFactory.pick].
  repeat match goal with
  | |- context [if JS.leb ?a 0 then _ else _] =>
      let E := fresh "E" in
      destruct (JS.leb a 0) eqn:E;
      [first [discriminate | apply leb_le in E; lra] |]
  end.
  match goal with
  | E : JS.leb (_ - 20) 0 = false |- _ => apply leb_gt in E; lra
  end.
Qed.

(** With draws in [[0, 1)], a boss drop is common only at the draw 0. *)
Lemma generateRarity_boss_not_common rt (w : World) :
  valid_random rt -> ~ Math_random rt (rnd w) == 0 ->
  fst (EquipmentFactory.generateRarity rt true w) <> EquipmentFactory.COMMON.
Proof.
  intros Hv Hnz. destruct (Hv (rnd w)) as [Hlo Hhi].
  apply weightedRandom_boss_positive; [| lra].
  destruct (Qlt_le_dec 0 (Math_random rt (rnd w))) as [Hpos | Hle];
    [exact Hpos |].
  exfalso. apply Hnz. lra.
Qed.

(** C5 fails on the code at the draw 0: [Math.random() * 100] is 0, the
    loop subtracts the weight 0 of COMMON first and tests
    [randomValue <= 0], which holds, so the boss drop is common. *)
Theorem bossDrop_common_at_draw_zero (rt : Runtime) (playerLevel : Q)
    (w : World) :
  Math_random rt (rnd w) == 0 ->
  fst (EquipmentFactory.generateRarity rt true w) = EquipmentFactory.COMMON /\
  fst (EquipmentFactory.generateRandomEquipment_rarity rt playerLevel true w)
  = Equipment.common.
Proof.
  intros Hr.
  assert (H : EquipmentFactory.weightedRandom (EquipmentFactory.weights true)
                (Math_random rt (rnd w)) = EquipmentFactory.COMMON).
  { unfold EquipmentFactory.weightedRandom.
    cbn [EquipmentFactory.weights EquipmentFactory.pick].
    destruct (JS.leb _ 0) eqn:E; [reflexivity |].
    apply leb_gt in E. pose proof totalWeight_boss as Ht.
    cbn [EquipmentFactory.weights] in Ht.
    set (t := EquipmentFactory.totalWeight _) in *.
    assert (Hrt : Math_random rt (rnd w) * t == 0) by (rewrite Hr; lra).
    lra. }
  split.
  - exact H.
  - unfold EquipmentFactory.generateRandomEquipment_rarity,
      EquipmentFactory.generateRarity, bind, ret, random_draw. cbn [fst].
    now rewrite H.
Qed.

Lemma bossDrop_common_at_draw_zero_witness :
  Math_random (Scenario.rtDraw (fun x => x) 0) (rnd Scenario.w0) == 0 /\
  fst (EquipmentFactory.generateRarity (Scenario.rtDraw (fun x => x) 0) true
         Scenario.w0) = EquipmentFactory.COMMON /\
  fst (EquipmentFactory.generateRandomEquipment_rarity
         (Scenario.rtDraw (fun x => x) 0) 7 true Scenario.w0)
  = Equipment.common.
Proof.
  assert (H : Math_random (Scenario.rtDraw (fun x => x) 0) (rnd Scenario.w0)
              == 0) by reflexivity.
  split; [exact H |].
  exact (bossDrop_common_at_draw_zero (Scenario.rtDraw (fun x => x) 0) 7
           Scenario.w0 H).
Defined.

(** ** Equipment: pick-up *)

Lemma alloc_fresh (e : Equipment.t) (w : World) :
  heap w !! fst (alloc e w) = None.
Proof. cbn. apply not_elem_of_dom, is_fresh. Qed.

(** What [addEquipment] does to the player's list and to the store. *)
Lemma addEquipment_copy (src : nat) (e : Equipment.t)
    (p : Player.t) (w : World) :
  heap w !! src = Some e ->
  exists (l : nat) (copy : Equipment.t),
    Player.equipment (fst (Player.addEquipment src p w))
    = Player.equipment p ++ [l] /\
    Player.inventory (fst (Player.addEquipment src p w)) = Player.inventory p /\
    heap w !! l = None /\ l <> src /\
    heap (snd (Player.addEquipment src p w)) !! l = Some copy /\
    Equipment.isEquipped copy = false /\
    (Equipment.id copy = Equipment.id e /\
     Equipment.name copy = Equipment.name e /\
     Equipment.description copy = Equipment.description e /\
     Equipment.type_ copy = Equipment.type_ e /\
     Equipment.rarity_ copy = Equipment.rarity_ e /\
     Equipment.level copy = Equipment.level e /\
     Equipment.stats copy = Equipment.stats e) /\
    (forall l' : nat, l' <> l ->
       heap (snd (Player.addEquipment src p w)) !! l' = heap w !! l').
Proof.
  intros Hsrc. unfold Player.addEquipment, bind, get_heap. rewrite Hsrc.
  pose proof (alloc_fresh (Player.spreadUnequipped e) w) as Hfresh.
  destruct (alloc (Player.spreadUnequipped e) w) as [l w1] eqn:Ha.
  cbn [fst snd ret] in *.
  assert (Hw1 : heap w1 = <[l := Player.spreadUnequipped e]> (heap w)).
  { unfold alloc in Ha. injection Ha as <- <-. reflexivity. }
  exists l, (Player.spreadUnequipped e).
  repeat split; try reflexivity; trivial.
  - intros ->. rewrite Hsrc in Hfresh. discriminate.
  - rewrite Hw1. apply lookup_insert_eq.
  - intros l' Hne. rewrite Hw1. now apply lookup_insert_ne.
Qed.

(** C10: [addEquipment] appends the address of a new object, one that was
    not in the store before and so is not the caller's; the new object has
    the identifier, name, description, type, rarity, level and stats of the
    caller's and [isEquipped = false], whatever the caller's flag; every
    object that existed, the caller's included, is left as it was. *)
Theorem addEquipment_appends_unequipped_copy (src : nat) (e : Equipment.t)
    (p : Player.t) (w : World) :
  heap w !! src = Some e ->
  exists (l : nat) (copy : Equipment.t),
    Player.equipment (fst (Player.addEquipment src p w))
    = Player.equipment p ++ [l] /\
    Player.inventory (fst (Player.addEquipment src p w)) = Player.inventory p /\
    heap w !! l = None /\ l <> src /\
    heap (snd (Player.addEquipment src p w)) !! l = Some copy /\
    Equipment.isEquipped copy = false /\
    (Equipment.id copy = Equipment.id e /\
     Equipment.name copy = Equipment.name e /\
     Equipment.description copy = Equipment.description e /\
     Equipment.type_ copy = Equipment.type_ e /\
     Equipment.rarity_ copy = Equipment.rarity_ e /\
     Equipment.level copy = Equipment.level e /\
     Equipment.stats copy = Equipment.stats e) /\
    (forall l' : nat, l' <> l ->
       heap (snd (Player.addEquipment src p w)) !! l' = heap w !! l').
Proof. exact (addEquipment_copy src e p w). Qed.

Lemma addEquipment_appends_unequipped_copy_witness :
  heap Scenario.w2 !! 0%nat = Some Scenario.sword /\
  Equipment.isEquipped Scenario.sword = true /\
  exists (l : nat) (copy : Equipment.t),
    Player.equipment (fst (Player.addEquipment 0 Scenario.player0 Scenario.w2))
    = Player.equipment Scenario.player0 ++ [l] /\
    Player.inventory (fst (Player.addEquipment 0 Scenario.player0 Scenario.w2))
    = Player.inventory Scenario.player0 /\
    heap Scenario.w2 !! l = None /\ l <> 0%nat /\
    heap (snd (Player.addEquipment 0 Scenario.player0 Scenario.w2)) !! l
    = Some copy /\
    Equipment.isEquipped copy = false /\
    (Equipment.id copy = Equipment.id Scenario.sword /\
     Equipment.name copy = Equipment.name Scenario.sword /\
     Equipment.description copy = Equipment.description Scenario.sword /\
     Equipment.type_ copy = Equipment.type_ Scenario.sword /\
     Equipment.rarity_ copy = Equipment.rarity_ Scenario.sword /\
     Equipment.level copy = Equipment.level Scenario.sword /\
     Equipment.stats copy = Equipment.stats Scenario.sword) /\
    (forall l' : nat, l' <> l ->
       heap (snd (Player.addEquipment 0 Scenario.player0 Scenario.w2)) !! l'
       = heap Scenario.w2 !! l').
Proof.
  assert (H : heap Scenario.w2 !! 0%nat = Some Scenario.sword)
    by (vm_compute; reflexivity).
  split; [exact H |]. split; [reflexivity |].
  exact (addEquipment_appends_unequipped_copy 0 Scenario.sword
           Scenario.player0 Scenario.w2 H).
Defined.

(** Picking up the equipped sword of the sample store: the copy goes to
    address 2 and is not equipped; the sword itself keeps its flag. *)
Lemma addEquipment_sword_example :
  let r := Player.addEquipment 0 Scenario.player0 Scenario.w2 in
  Player.equipment (fst r) = [2%nat] /\
  Equipment.isEquipped <$> heap (snd r) !! 2%nat = Some false /\
  Equipment.isEquipped <$> heap (snd r) !! 0%nat = Some true.
Proof. vm_compute. repeat split. Qed.

(** Loot handed to [addEquipment] one by one, as [handleMonsterDeath] does:
    every address appended to the player's list is a new object that is
    not equipped, and no existing object changes. *)
Lemma addLoot_unequipped (loot : list nat) :
  forall (p : Player.t) (w : World),
    (forall l, l ∈ loot -> is_Some (heap w !! l)) ->
    exists ls : list nat,
      Player.equipment (fst (GameSystem.addLoot loot p w))
      = Player.equipment p ++ ls /\
      length ls = length loot /\
      (forall l, l ∈ ls ->
         heap w !! l = None /\
         Equipment.isEquipped <$> heap (snd (GameSystem.addLoot loot p w)) !! l
         = Some false) /\
      (forall k, is_Some (heap w !! k) ->
         heap (snd (GameSystem.addLoot loot p w)) !! k = heap w !! k).
Proof.
  induction loot as [| a rest IH]; intros p w Hin.
  - exists []. cbn. rewrite app_nil_r.
    split; [reflexivity |]. split; [reflexivity |].
    split; [intros l Hl; inversion Hl | trivial].
  - destruct (Hin a) as [e He]; [left |].
    destruct (addEquipment_copy a e p w He)
      as (l0 & copy & Heq & _ & Hnew & _ & Hcopy & Hflag & _ & Hkeep).
    cbn [GameSystem.addLoot]. unfold bind.
    destruct (Player.addEquipment a p w) as [p1 w1]. cbn [fst snd] in *.
    assert (Hold : forall k, is_Some (heap w !! k) ->
                             heap w1 !! k = heap w !! k).
    { intros k [v Hk]. apply Hkeep. intros ->. congruence. }
    destruct (IH p1 w1) as (ls & Heq' & Hlen & Hls & Hkeep').
    { intros l Hl. rewrite Hold; apply Hin; now right. }
    exists (l0 :: ls). rewrite Heq', Heq, <- app_assoc. cbn [app length].
    split; [reflexivity |]. split; [congruence |]. split.
    + intros l Hl. apply elem_of_cons in Hl as [-> | Hl].
      * split; [exact Hnew |]. rewrite Hkeep' by (rewrite Hcopy; eauto).
        now rewrite Hcopy; cbn; rewrite Hflag.
      * destruct (Hls l Hl) as [Hn Hf]. split; [| exact Hf].
        destruct (decide (l = l0)) as [-> | Hne]; [exact Hnew |].
        now rewrite <- Hkeep.
    + intros k Hk. rewrite Hkeep'; rewrite Hold; trivial.
Qed.

(** ** Monster hits *)

Lemma armorReduce_no_armor h (locs : list nat) :
  Spec.noEquippedDefense h locs ->
  forall d : Q, Player.armorReduce h locs d = d.
Proof.
  unfold Player.armorReduce.
  induction locs as [| l locs IH]; intros Hno d; [reflexivity |].
  cbn [fold_left].
  assert (Hrest : Spec.noEquippedDefense h locs).
  { intros l' e Hl'. apply Hno. now right. }
  destruct (h !! l) as [item |] eqn:Hl; [| now apply IH].
  destruct (Equipment.defense (Equipment.stats item)) as [dd |] eqn:Hd;
    [| now apply IH].
  destruct (Equipment.isEquipped item) eqn:He; [| now apply IH].
  rewrite <- Hd, (Hno l item); trivial; [now apply IH | left].
Qed.

(** What a hit of raw attack [a] does to a player without armor. *)
Lemma takeDamage_after_mitigation h (p : Player.t) (a : Q) :
  a == 10 -> Player.defense p == 5 ->
  Spec.noEquippedDefense h (Player.equipment p) ->
  Player.health
    (snd (Player.takeDamage h
            (JS.Math_max 1 (a - Player.defense p * 0.5)) p))
  == Player.health p - 2.5.
Proof.
  intros Ha Hd Hno. rewrite Player_takeDamage_health.
  rewrite armorReduce_no_armor by exact Hno.
  qminmax; lra.
Qed.

(** What one mitigation does: [Player.takeDamage] at the raw attack 10
    takes [10 - min(5, 10 * 0.8) = 5] off the health of a player with
    defense 5 and no armor. *)
Lemma takeDamage_raw_attack h (p : Player.t) (a : Q) :
  a == 10 -> Player.defense p == 5 ->
  Spec.noEquippedDefense h (Player.equipment p) ->
  Player.health (snd (Player.takeDamage h a p)) == Player.health p - 5.
Proof.
  intros Ha Hd Hno. rewrite Player_takeDamage_health.
  rewrite armorReduce_no_armor by exact Hno.
  qminmax; lra.
Qed.

(** C7: the code does not apply the damage of 5.  For a monster with
    attack 10 and a player with defense 5 and no equipped armor, the
    defender's own mitigation of the raw attack would take 5 off the
    health ([Player.takeDamage(10)]): that is the damage resolution the
    player-to-monster path follows.  The monster-to-player paths mitigate
    twice: the attacker computes [max(1, 10 - 5 * 0.5) = 7.5], which it
    names and logs as the damage dealt, and passes it to
    [Player.takeDamage], which takes [min(5, 7.5 * 0.8) = 5] off again, so
    the health drops by 2.5.  This holds for the per-tick sweep
    [checkMonsterAttacks] (monster within 60) and for
    [Monster.attackTarget] (off cooldown, in range, and for a boss a draw
    that is no critical hit). *)
Theorem monster_attack_10_on_defense_5 (rt : Runtime) (m : Monster.t)
    (p : Player.t) (w : World) :
  Monster.attack m == 10 -> Player.defense p == 5 ->
  Spec.noEquippedDefense (heap w) (Player.equipment p) ->
  Player.health (snd (Player.takeDamage (heap w) (Monster.attack m) p))
  == Player.health p - 5 /\
  JS.Math_max 1 (Monster.attack m - Player.defense p * 0.5) == 7.5 /\
  (gameUtils.sqrt_leb
     (gameUtils.distance2 (Player.x p) (Player.y p) (Monster.x m) (Monster.y m))
     60 = true ->
   Player.health (GameSystem.monsterHits (heap w) p m)
   == Player.health p - 2.5) /\
  ((Monster.isBoss m = true -> 0.1 <= Math_random rt (rnd w)) ->
   Monster.attackSpeed m <= Date_now rt (clk w) - Monster.lastAttackTime m ->
   gameUtils.sqrt_leb
     (gameUtils.distance2 (Monster.x m) (Monster.y m) (Player.x p) (Player.y p))
     (Monster.attackRange m) = true ->
   Player.health (snd (fst (Monster.attackTarget rt m p w)))
   == Player.health p - 2.5).
Proof.
  intros Ha Hd Hno.
  split; [now apply takeDamage_raw_attack |].
  split; [qminmax; lra |]. split.
  - intros Hin. unfold GameSystem.monsterHits. rewrite Hin.
    now apply takeDamage_after_mitigation.
  - intros Hcrit Hcad Hin.
    unfold Monster.attackTarget, bind, now. apply geb_ge in Hcad.
    rewrite Hcad. cbn [Monster.x Monster.y Monster.attackRange
      Monster.set_lastAttackTime]. rewrite Hin.
    unfold Monster.attackDamage.
    cbn [Monster.isBoss Monster.set_lastAttackTime].
    destruct (Monster.isBoss m) eqn:Hboss.
    + unfold bind, random_draw. cbn [rnd].
      assert (Hb : JS.ltb (Math_random rt (rnd w)) 0.1 = false)
        by (apply ltb_ge; auto).
      rewrite Hb. cbn [ret get_heap fst snd heap Monster.attack].
      now apply takeDamage_after_mitigation.
    + cbn [ret get_heap fst snd heap Monster.attack].
      now apply takeDamage_after_mitigation.
Qed.

Lemma monster_attack_10_on_defense_5_witness :
  (Monster.attack Scenario.monster10 == 10 /\
   Player.defense Scenario.player0 == 5 /\
   Spec.noEquippedDefense (heap Scenario.w0)
     (Player.equipment Scenario.player0)) /\
  Player.health
    (snd (Player.takeDamage (heap Scenario.w0)
            (Monster.attack Scenario.monster10) Scenario.player0))
  == 100 - 5 /\
  Player.health
    (GameSystem.monsterHits (heap Scenario.w0) Scenario.player0
       Scenario.monster10) == 100 - 2.5 /\
  Player.health
    (snd (fst (Monster.attackTarget Scenario.rt0 Scenario.monster10
                 Scenario.player0 Scenario.w0))) == 100 - 2.5.
Proof.
  assert (Ha : Monster.attack Scenario.monster10 == 10) by reflexivity.
  assert (Hd : Player.defense Scenario.player0 == 5) by reflexivity.
  assert (Hno : Spec.noEquippedDefense (heap Scenario.w0)
                  (Player.equipment Scenario.player0)).
  { intros l e Hl. inversion Hl. }
  split; [repeat split; assumption |].
  destruct (monster_attack_10_on_defense_5 Scenario.rt0 Scenario.monster10
              Scenario.player0 Scenario.w0 Ha Hd Hno)
    as (Hraw & _ & Hsweep & Htarget).
  split; [exact Hraw |]. split.
  - apply Hsweep. vm_compute. reflexivity.
  - apply Htarget.
    + intros Hboss. discriminate Hboss.
    + vm_compute. discriminate.
    + vm_compute. reflexivity.
Defined.

(** The failing run: the level 6 monster (attack 10) next to the fresh
    player (defense 5, 100 health, nothing equipped) leaves the player at
    97.5, by the sweep as by [attackTarget]: the damage applied is 2.5,
    not 5. *)
Lemma monster_attack_10_failing_run :
  Monster.attack Scenario.monster10 == 10 /\
  Player.defense Scenario.player0 == 5 /\
  Player.equipment Scenario.player0 = [] /\
  let swept := fst (GameSystem.checkMonsterAttacks Scenario.gameMonster10
                      Scenario.w0) in
  let hit := snd (fst (Monster.attackTarget Scenario.rt0 Scenario.monster10
                         Scenario.player0 Scenario.w0)) in
  Player.health (GameSystem.player swept) == 97.5 /\
  Player.health hit == 97.5 /\
  ~ Player.health Scenario.player0 - Player.health (GameSystem.player swept)
    == 5 /\
  ~ Player.health Scenario.player0 - Player.health hit == 5.
Proof.
  repeat split; try (vm_compute; reflexivity);
    intros H; vm_compute in H; discriminate H.
Qed.

(** ** Attack cadence *)


Lemma attackHeld_test (g : GameSystem.t) :
  Spec.attackHeld g ->
  bool_decide (" "%string ∈ GameSystem.keysPressed g)
  || GameSystem.attackButtonPressed g = true.
Proof.
  intros [Hkey | Hbtn].
  - now rewrite bool_decide_eq_true_2.
  - rewrite Hbtn. apply orb_true_r.
Qed.



(** What the sweep does to a monster within 150 that survives the hit:
    it takes [takeDamage(attackDamage)], whatever the cooldown. *)
Lemma attackMonsterAt_in_range rt (fuel : nat) (attackDamage : Q) (i : nat)
    (g : GameSystem.t) (w : World) (m : Monster.t) :
  GameSystem.monsters g !! i = Some m ->
  gameUtils.sqrt_leb
    (gameUtils.distance2 (Player.x (GameSystem.player g))
       (Player.y (GameSystem.player g)) (Monster.x m) (Monster.y m)) 150
  = true ->
  fst (Monster.takeDamage attackDamage m) = false ->
  exists g',
    GameSystem.attackMonsterAt rt fuel attackDamage i g w = Some (g', w) /\
    GameSystem.monsters g'
    = <[i := snd (Monster.takeDamage attackDamage m)]> (GameSystem.monsters g)
    /\ GameSystem.player g' = GameSystem.player g.
Proof.
  intros Hm Hin Halive. unfold GameSystem.attackMonsterAt.
  rewrite Hm, Hin.
  destruct (Monster.takeDamage attackDamage m) as [isDead m'].
  cbn [fst snd] in *. subst isDead. eexists. split; [reflexivity |].
  split; reflexivity.
Qed.


(** ** Equipment: equipping *)



(** [equipItem] leaves the player's own fields, stats and inventory
    included, as they were. *)
Lemma equipItem_player equipmentId (p : Player.t) (w : World) :
  fst (Player.equipItem equipmentId p w) = p.
Proof.
  unfold Player.equipItem, bind, get_heap.
  destruct (Player.findById _ _ _) as [l |]; [| reflexivity].
  destruct (heap w !! l) as [e |]; [| reflexivity].
  destruct (Equipment.isEquipped e); [reflexivity |].
  destruct (Player.unequipType _ _ _ !! l); reflexivity.
Qed.




Lemma findByType_some h ty (locs : list nat) (o : nat) :
  EquipmentManager.findByType h ty locs = Some o ->
  o ∈ locs /\ exists old, h !! o = Some old /\ Equipment.type_ old = ty.
Proof.
  unfold EquipmentManager.findByType. intros H.
  apply find_some in H as [Hin Hf].
  split; [now apply list_elem_of_In |].
  destruct (h !! o) as [old |]; [| discriminate].
  exists old. split; [reflexivity |]. now apply bool_decide_eq_true_1 in Hf.
Qed.









(** ** Reachable player states *)

(** Every player the program builds has a threshold of at least 100. *)
Lemma levelUp_threshold_ge_100 rt (p : Player.t) (w : World) :
  100 <= Player.experienceToNextLevel p ->
  100 <= Player.experienceToNextLevel (fst (Player.levelUp rt p w)).
Proof.
  intros H. rewrite levelUp_threshold.
  apply Qle_trans with (JS.Math_floor 150); [vm_compute; discriminate |].
  apply Math_floor_mono. lra.
Qed.

Lemma levelUpLoop_threshold_ge_100 rt (fuel : nat) :
  forall (p : Player.t) (w : World) p' w',
    100 <= Player.experienceToNextLevel p ->
    Player.levelUpLoop rt fuel p w = Some (p', w') ->
    100 <= Player.experienceToNextLevel p'.
Proof.
  induction fuel as [| n IH]; intros p w p' w' Hthr Hr;
    cbn [Player.levelUpLoop] in Hr; destruct (JS.geb _ _);
    try discriminate; try (injection Hr as <- <-; exact Hthr).
  pose proof (levelUp_threshold_ge_100 rt p w Hthr) as Ht.
  destruct (Player.levelUp rt p w) as [p1 w1]. eapply IH; eassumption.
Qed.

Lemma applyEffect_threshold e (p : Player.t) :
  Player.experienceToNextLevel (BaseEquipment.applyEffect e p)
  = Player.experienceToNextLevel p.
Proof.
  unfold BaseEquipment.applyEffect.
  destruct (Equipment.attack _), (Equipment.defense _),
    (Equipment.maxHealth _); reflexivity.
Qed.

Lemma removeEffect_threshold e (p : Player.t) :
  Player.experienceToNextLevel (BaseEquipment.removeEffect e p)
  = Player.experienceToNextLevel p.
Proof.
  unfold BaseEquipment.removeEffect.
  destruct (Equipment.attack _), (Equipment.defense _),
    (Equipment.maxHealth _); reflexivity.
Qed.

Lemma reachable_threshold rt (p : Player.t) :
  Spec.reachable rt p -> 100 <= Player.experienceToNextLevel p.
Proof.
  induction 1 as [x0 y0 w | p _ _ | p w _ IH | p h amount _ IH | p w _ IH
                 | p fuel amount w p' w' _ IH Hr | p src w _ IH
                 | p equipmentId w _ IH | p l w _ IH | p l w _ IH].
  - vm_compute. discriminate.
  - vm_compute. discriminate.
  - unfold Player.performAttack, bind.
    destruct (Player.canAttack rt p w) as [[|] w1]; exact IH.
  - unfold Player.takeDamage. cbn [snd]. rewrite onDamageSkills_id. exact IH.
  - now apply levelUp_threshold_ge_100.
  - eapply levelUpLoop_threshold_ge_100; [| exact Hr]. exact IH.
  - unfold Player.addEquipment, bind, get_heap.
    destruct (heap w !! src); exact IH.
  - now rewrite equipItem_player.
  - unfold EquipmentManager.equipToPlayer, bind, get_heap.
    destruct (heap w !! l) as [e |]; [| exact IH].
    cbn [ret store fst snd Player.set_lists Player.experienceToNextLevel].
    assert (Hold : 100 <= Player.experienceToNextLevel
                            (EquipmentManager.unequipOld (heap w)
                               (Equipment.type_ e) p)).
    { unfold EquipmentManager.unequipOld.
      destruct (EquipmentManager.findByType _ _ _) as [o |]; [| exact IH].
      destruct (heap w !! o) as [old |]; [| exact IH].
      cbn [Player.set_lists Player.experienceToNextLevel].
      destruct (Equipment.has_methods old);
        [rewrite removeEffect_threshold |]; exact IH. }
    destruct (Equipment.has_methods e);
      [rewrite applyEffect_threshold |]; exact Hold.
  - unfold EquipmentManager.unequipFromPlayer, bind, get_heap.
    destruct (EquipmentManager.indexOf l (Player.equipment p)) as [i |];
      [| exact IH].
    destruct (heap w !! l) as [e |]; [| exact IH].
    cbn [ret store fst snd Player.set_lists Player.experienceToNextLevel].
    destruct (Equipment.has_methods e);
      [rewrite removeEffect_threshold |]; exact IH.
Qed.

(** So it does for every player the program builds. *)
Lemma gainExperience_returns_reachable (rt : Runtime) (p : Player.t)
    (amount : Q) (w : World) :
  Spec.reachable rt p ->
  exists (n : nat) (p' : Player.t) (w' : World),
    (forall fuel : nat, (n <= fuel)%nat ->
       Player.gainExperience rt fuel amount p w = Some (p', w')) /\
    Player.experience p' < Player.experienceToNextLevel p'.
Proof.
  intros Hr. apply gainExperience_returns.
  apply reachable_threshold in Hr. lra.
Qed.

(** * Further properties of the code *)

(** ** Collision tests *)

Lemma ltb_comp a b c d : a == c -> b == d -> JS.ltb a b = JS.ltb c d.
Proof.
  intros H1 H2. unfold JS.ltb. f_equal.
  destruct (Qle_bool b a) eqn:E1, (Qle_bool d c) eqn:E2; try reflexivity.
  - apply Qle_bool_iff in E1.
    assert (H : d <= c) by (rewrite <- H1, <- H2; exact E1).
    apply Qle_bool_iff in H. congruence.
  - apply Qle_bool_iff in E2.
    assert (H : b <= a) by (rewrite H1, H2; exact E2).
    apply Qle_bool_iff in H. congruence.
Qed.

(** X1: [checkCollision] is symmetric, and two boxes that are side by side
    or only share an edge (the first ends where the second starts, on
    either axis) do not collide: the four comparisons are strict. *)
Theorem checkCollision_symmetric (a b : gameUtils.Collider) :
  gameUtils.checkCollision a b = gameUtils.checkCollision b a /\
  (gameUtils.x a + gameUtils.width a <= gameUtils.x b ->
   gameUtils.checkCollision a b = false) /\
  (gameUtils.y a + gameUtils.height a <= gameUtils.y b ->
   gameUtils.checkCollision a b = false).
Proof.
  unfold gameUtils.checkCollision. split; [| split].
  - destruct (JS.ltb (gameUtils.x a) _), (JS.ltb (gameUtils.x b) _),
      (JS.ltb (gameUtils.y a) _), (JS.ltb (gameUtils.y b) _); reflexivity.
  - intros H. apply ltb_ge in H. rewrite H.
    destruct (JS.ltb (gameUtils.x a) _); reflexivity.
  - intros H. apply ltb_ge in H. rewrite H.
    destruct (JS.ltb (gameUtils.x a) _), (JS.ltb (gameUtils.x b) _),
      (JS.ltb (gameUtils.y a) _); reflexivity.
Qed.

Lemma checkCollision_symmetric_witness :
  gameUtils.x Scenario.boxLeft + gameUtils.width Scenario.boxLeft
  <= gameUtils.x Scenario.boxRight /\
  gameUtils.checkCollision Scenario.boxLeft Scenario.boxRight = false /\
  gameUtils.checkCollision Scenario.boxRight Scenario.boxLeft = false.
Proof.
  assert (H : gameUtils.x Scenario.boxLeft + gameUtils.width Scenario.boxLeft
              <= gameUtils.x Scenario.boxRight) by (vm_compute; discriminate).
  split; [exact H |].
  destruct (checkCollision_symmetric Scenario.boxLeft Scenario.boxRight)
    as (Hs & Hx & _).
  split; [exact (Hx H) | rewrite <- Hs; exact (Hx H)].
Defined.

Lemma willCollide_iff entity dx dy obstacles :
  gameUtils.willCollide entity dx dy obstacles = true <->
  exists o, In o obstacles /\ gameUtils.isSolid o = true /\
            gameUtils.checkCollision (Spec.movedBy entity dx dy) o = true.
Proof.
  unfold gameUtils.willCollide. rewrite existsb_exists.
  split; intros (o & Hin & H); exists o; (split; [exact Hin |]).
  - apply andb_true_iff in H. exact H.
  - apply andb_true_iff. exact H.
Qed.

Lemma willCollide_no_solid entity dx dy obstacles :
  (forall o, In o obstacles -> gameUtils.isSolid o = false) ->
  gameUtils.willCollide entity dx dy obstacles = false.
Proof.
  intros H.
  destruct (gameUtils.willCollide entity dx dy obstacles) eqn:E;
    [| reflexivity].
  apply willCollide_iff in E. destruct E as (o & Hin & Hs & _).
  rewrite (H o Hin) in Hs. discriminate.
Qed.

(** X2: [willCollide] answers [true] exactly when some solid obstacle
    collides, in the sense of [checkCollision], with the entity's box moved
    by [(dx, dy)]; obstacles that are not solid never block, so a list
    without solid obstacles gives [false]. *)
Theorem willCollide_spec (entity : gameUtils.Collider) (dx dy : Q)
    (obstacles : list gameUtils.Collider) :
  (gameUtils.willCollide entity dx dy obstacles = true <->
   exists o, In o obstacles /\ gameUtils.isSolid o = true /\
             gameUtils.checkCollision (Spec.movedBy entity dx dy) o = true) /\
  ((forall o, In o obstacles -> gameUtils.isSolid o = false) ->
   gameUtils.willCollide entity dx dy obstacles = false).
Proof.
  split; [exact (willCollide_iff entity dx dy obstacles) |].
  exact (willCollide_no_solid entity dx dy obstacles).
Qed.

Lemma willCollide_spec_witness :
  (forall o, In o [Scenario.bush] -> gameUtils.isSolid o = false) /\
  gameUtils.willCollide (Player.collider Scenario.player0) 10 0
    [Scenario.bush] = false /\
  gameUtils.willCollide (Player.collider Scenario.player0) 10 0
    [Scenario.rock] = true.
Proof.
  assert (H : forall o, In o [Scenario.bush] -> gameUtils.isSolid o = false).
  { intros o [<- | []]. reflexivity. }
  split; [exact H |]. split.
  - exact (proj2 (willCollide_spec (Player.collider Scenario.player0) 10 0
                    [Scenario.bush]) H).
  - apply (proj1 (willCollide_spec (Player.collider Scenario.player0) 10 0
                    [Scenario.rock])).
    exists Scenario.rock. split; [left; reflexivity |].
    split; reflexivity.
Defined.

(** ** Clamping and interpolation *)

(** X3: for [min <= max], [clamp] lands in [[min, max]] and leaves a value
    of that interval as it is; with the bounds the wrong way round it
    returns [max].  [lerp] clamps its factor: at or below 0 it gives
    [start], at or above 1 it gives [end], and it never leaves the interval
    between the two. *)
Theorem clamp_lerp_range (value min max start end_ factor : Q) :
  (min <= max ->
   min <= gameUtils.clamp value min max /\
   gameUtils.clamp value min max <= max /\
   (min <= value -> value <= max -> gameUtils.clamp value min max == value)) /\
  (max < min -> gameUtils.clamp value min max == max) /\
  (factor <= 0 -> gameUtils.lerp start end_ factor == start) /\
  (1 <= factor -> gameUtils.lerp start end_ factor == end_) /\
  (start <= end_ ->
   start <= gameUtils.lerp start end_ factor /\
   gameUtils.lerp start end_ factor <= end_).
Proof.
  assert (Hc : 0 <= gameUtils.clamp factor 0 1 /\
               gameUtils.clamp factor 0 1 <= 1 /\
               (factor <= 0 -> gameUtils.clamp factor 0 1 == 0) /\
               (1 <= factor -> gameUtils.clamp factor 0 1 == 1)).
  { unfold gameUtils.clamp. repeat split; intros; qminmax; lra. }
  destruct Hc as (H0 & H1 & Hlo & Hhi).
  unfold gameUtils.lerp. split; [| split; [| split; [| split]]].
  - intros H. unfold gameUtils.clamp. qminmax; repeat split; intros; lra.
  - intros H. unfold gameUtils.clamp. qminmax; lra.
  - intros H. rewrite (Hlo H). lra.
  - intros H. rewrite (Hhi H). lra.
  - intros H. remember (gameUtils.clamp factor 0 1) as c eqn:E.
    clear E Hlo Hhi. split; nra.
Qed.

Lemma clamp_lerp_range_witness :
  (0 <= 10 /\ 10 < 20 /\ 1 <= 3 /\ 2 <= 8) /\
  gameUtils.clamp 15 0 10 <= 10 /\
  gameUtils.clamp 15 20 10 == 10 /\
  gameUtils.lerp 2 8 3 == 8 /\
  2 <= gameUtils.lerp 2 8 3.
Proof.
  assert (Ha : 0 <= 10) by (vm_compute; discriminate).
  assert (Hb : 10 < 20) by reflexivity.
  assert (Hc : 1 <= 3) by (vm_compute; discriminate).
  assert (Hd : 2 <= 8) by (vm_compute; discriminate).
  split; [repeat split; assumption |].
  destruct (clamp_lerp_range 15 0 10 2 8 3) as (H1 & _ & _ & H4 & H5).
  destruct (clamp_lerp_range 15 20 10 2 8 3) as (_ & H2 & _).
  split; [exact (proj1 (proj2 (H1 Ha))) |].
  split; [exact (H2 Hb) |].
  split; [exact (H4 Hc) | exact (proj1 (H5 Hd))].
Defined.

(** ** Random helpers *)

Lemma rt0_valid : valid_random Scenario.rt0.
Proof. intros n. split; [vm_compute; discriminate | reflexivity]. Qed.

Lemma Qfloor_range (x : Q) (k : Z) :
  0 <= x -> x < inject_Z (k + 1) -> (0 <= Qfloor x <= k)%Z.
Proof.
  intros H0 H1. split.
  - change 0%Z with (Qfloor 0). apply Qfloor_resp_le. exact H0.
  - assert (H : inject_Z (Qfloor x) < inject_Z (k + 1)).
    { eapply Qle_lt_trans; [apply Qfloor_le | exact H1]. }
    rewrite <- Zlt_Qlt in H. lia.
Qed.

(** [Math.floor(r * (n + 1))] for a draw [r] of [[0, 1)]: an index of
    [0..n]. *)
Lemma scaled_draw_range (r : Q) (n : Z) :
  0 <= r -> r < 1 -> (0 <= n)%Z ->
  (0 <= Qfloor (r * inject_Z (n + 1)) <= n)%Z.
Proof.
  intros H0 H1 Hn. apply Qfloor_range.
  - assert (0 <= inject_Z (n + 1)) by (rewrite <- (Zle_Qle 0); lia). nra.
  - assert (0 < inject_Z (n + 1)) by (rewrite <- (Zlt_Qlt 0); lia). nra.
Qed.

Lemma randomInt_bounds (rt : Runtime) (min max : Q) (k : Z) (w : World) :
  valid_random rt -> (0 <= k)%Z -> max - min == inject_Z k ->
  exists j : Z, (0 <= j <= k)%Z /\
    fst (gameUtils.randomInt rt min max w) == min + inject_Z j /\
    min <= fst (gameUtils.randomInt rt min max w) /\
    fst (gameUtils.randomInt rt min max w) <= max.
Proof.
  intros Hv Hk Hd. destruct (Hv (rnd w)) as [H0 H1].
  unfold gameUtils.randomInt, bind, random_draw, ret. cbn [fst].
  set (r := Math_random rt (rnd w)) in *.
  assert (E : r * (max - min + 1) == r * inject_Z (k + 1)).
  { rewrite inject_Z_plus. rewrite Hd. reflexivity. }
  pose proof (scaled_draw_range r k H0 H1 Hk) as Hj.
  rewrite <- (Qfloor_comp _ _ E) in Hj.
  exists (Qfloor (r * (max - min + 1))). unfold JS.Math_floor.
  set (j := Qfloor (r * (max - min + 1))) in *.
  assert (0 <= inject_Z j) by (rewrite <- (Zle_Qle 0); lia).
  assert (inject_Z j <= inject_Z k) by (rewrite <- Zle_Qle; lia).
  repeat split; try lia; lra.
Qed.

(** X4: with draws of [Math.random()] in [[0, 1)], [randomInt(min, max)]
    for bounds a whole number [k >= 0] apart returns [min + j] for a whole
    [j] of [0..k], so a value of [[min, max]]; and [random(min, max)] for
    [min < max] returns a value of [[min, max)]. *)
Theorem randomInt_range (rt : Runtime) (min max : Q) (k : Z) (w : World) :
  valid_random rt ->
  ((0 <= k)%Z -> max - min == inject_Z k ->
   exists j : Z, (0 <= j <= k)%Z /\
     fst (gameUtils.randomInt rt min max w) == min + inject_Z j /\
     min <= fst (gameUtils.randomInt rt min max w) /\
     fst (gameUtils.randomInt rt min max w) <= max) /\
  (min < max ->
   min <= fst (gameUtils.random rt min max w) /\
   fst (gameUtils.random rt min max w) < max).
Proof.
  intros Hv. split.
  - exact (randomInt_bounds rt min max k w Hv).
  - intros Hlt. destruct (Hv (rnd w)) as [H0 H1].
    unfold gameUtils.random, bind, random_draw, ret. cbn [fst].
    set (r := Math_random rt (rnd w)) in *. split; nra.
Qed.

Lemma randomInt_range_witness :
  (valid_random Scenario.rt0 /\ (0 <= 20)%Z /\ 40 - 20 == inject_Z 20 /\
   20 < 40) /\
  (exists j : Z, (0 <= j <= 20)%Z /\
     fst (gameUtils.randomInt Scenario.rt0 20 40 Scenario.w0)
     == 20 + inject_Z j /\
     20 <= fst (gameUtils.randomInt Scenario.rt0 20 40 Scenario.w0) /\
     fst (gameUtils.randomInt Scenario.rt0 20 40 Scenario.w0) <= 40) /\
  20 <= fst (gameUtils.random Scenario.rt0 20 40 Scenario.w0) /\
  fst (gameUtils.random Scenario.rt0 20 40 Scenario.w0) < 40.
Proof.
  assert (Hk : (0 <= 20)%Z) by lia.
  assert (Hd : 40 - 20 == inject_Z 20) by reflexivity.
  assert (Hlt : 20 < 40) by reflexivity.
  split; [repeat split; first [exact rt0_valid | assumption] |].
  destruct (randomInt_range Scenario.rt0 20 40 20 Scenario.w0 rt0_valid)
    as [Hi Hr].
  split; [exact (Hi Hk Hd) | exact (Hr Hlt)].
Defined.

(** One step of the shuffle exchanges two elements of the array. *)
Lemma swapAt_Permutation {A} (i : nat) (j : Z) (l l' : list A) :
  gameUtils.swapAt i j l = Some l' -> l' ≡ₚ l.
Proof.
  unfold gameUtils.swapAt. destruct (j <? 0)%Z; [discriminate |].
  destruct (l !! i) as [a |] eqn:Ei; [| discriminate].
  destruct (l !! Z.to_nat j) as [b |] eqn:Ej; [| discriminate].
  intros [= <-]. apply Permutation_insert_swap; assumption.
Qed.

Lemma swapAt_in_range {A} (i : nat) (j : Z) (l : list A) :
  (i < length l)%nat -> (0 <= j <= Z.of_nat i)%Z ->
  exists l', gameUtils.swapAt i j l = Some l' /\ length l' = length l.
Proof.
  intros Hi Hj. unfold gameUtils.swapAt.
  destruct (j <? 0)%Z eqn:E; [apply Z.ltb_lt in E; lia |].
  destruct (lookup_lt_is_Some_2 l i Hi) as [a Ea].
  assert (Hj' : (Z.to_nat j < length l)%nat) by lia.
  destruct (lookup_lt_is_Some_2 l _ Hj') as [b Eb].
  rewrite Ea, Eb. eexists; split; [reflexivity |].
  rewrite !length_insert. reflexivity.
Qed.

Lemma shuffleFrom_Permutation {A} (rt : Runtime) (n : nat) :
  valid_random rt ->
  forall (l : list A) (w : World), (n < length l)%nat \/ n = O ->
    exists l',
      gameUtils.shuffleFrom rt n l w
      = (Some l',
         {| heap := heap w; rnd := (rnd w + n)%nat; clk := clk w |})
      /\ l' ≡ₚ l.
Proof.
  intros Hv. induction n as [| n IH]; intros l w Hn.
  - exists l. cbn. split; [| reflexivity]. unfold ret. f_equal.
    destruct w; cbn. f_equal. lia.
  - destruct Hn as [Hn | Hn]; [| discriminate].
    cbn [gameUtils.shuffleFrom]. unfold bind, random_draw.
    destruct (Hv (rnd w)) as [H0 H1].
    assert (Hj : (0 <= Qfloor (Math_random rt (rnd w)
                               * (inject_Z (Z.of_nat (S n)) + 1))
                  <= Z.of_nat (S n))%Z).
    { assert (E : Math_random rt (rnd w) * (inject_Z (Z.of_nat (S n)) + 1)
                  == Math_random rt (rnd w) * inject_Z (Z.of_nat (S n) + 1)).
      { rewrite inject_Z_plus. reflexivity. }
      rewrite (Qfloor_comp _ _ E).
      apply scaled_draw_range; [assumption .. | lia]. }
    destruct (swapAt_in_range (S n) _ l Hn Hj) as (l1 & E1 & Hlen).
    rewrite E1.
    destruct (IH l1 {| heap := heap w; rnd := S (rnd w); clk := clk w |})
      as (l' & E' & Hp).
    { left. lia. }
    exists l'. rewrite E'. cbn. split.
    + f_equal. f_equal. lia.
    + rewrite Hp. eapply swapAt_Permutation. exact E1.
Qed.

(** X5: with draws of [Math.random()] in [[0, 1)], [shuffleArray] returns
    a permutation of its argument (every drawn index is inside the array,
    so no [undefined] is stored), and it makes [length - 1] draws (none
    for the empty array). *)
Theorem shuffleArray_permutation {A} (rt : Runtime) (array : list A)
    (w : World) :
  valid_random rt ->
  exists newArray,
    fst (gameUtils.shuffleArray rt array w) = Some newArray /\
    newArray ≡ₚ array /\
    rnd (snd (gameUtils.shuffleArray rt array w))
    = (rnd w + (length array - 1))%nat.
Proof.
  intros Hv. unfold gameUtils.shuffleArray.
  destruct (shuffleFrom_Permutation rt (length array - 1) Hv array w)
    as (l' & E & Hp).
  { destruct array; cbn; [right; reflexivity | left; lia]. }
  exists l'. rewrite E. cbn. auto.
Qed.

Lemma shuffleArray_permutation_witness :
  valid_random Scenario.rt0 /\
  exists newArray,
    fst (gameUtils.shuffleArray Scenario.rt0 [1; 2; 3; 4]%nat Scenario.w0)
    = Some newArray /\
    newArray ≡ₚ [1; 2; 3; 4]%nat /\
    rnd (snd (gameUtils.shuffleArray Scenario.rt0 [1; 2; 3; 4]%nat
                Scenario.w0)) = 3%nat.
Proof.
  split; [exact rt0_valid |].
  exact (shuffleArray_permutation Scenario.rt0 [1; 2; 3; 4]%nat Scenario.w0
           rt0_valid).
Defined.

(** X6: [getRandomElement] throws on the empty array, without drawing; on
    a non-empty array, with draws in [[0, 1)], it returns an element of the
    array. *)
Theorem getRandomElement_member {A} (rt : Runtime) (array : list A)
    (w : World) :
  (array = [] ->
   gameUtils.getRandomElement rt array w
   = (gameUtils.Throws "Cannot get random element from empty array", w)) /\
  (valid_random rt -> array <> [] ->
   exists a,
     fst (gameUtils.getRandomElement rt array w) = gameUtils.Returns a /\
     a ∈ array).
Proof.
  split.
  - intros ->. reflexivity.
  - intros Hv Hne. destruct array as [| a0 rest]; [congruence |].
    unfold gameUtils.getRandomElement, bind, random_draw, ret. cbn [fst].
    destruct (Hv (rnd w)) as [H0 H1].
    set (l := a0 :: rest) in *.
    assert (Hj : (0 <= Qfloor (Math_random rt (rnd w)
                               * inject_Z (Z.of_nat (length l)))
                  <= Z.of_nat (length rest))%Z).
    { replace (Z.of_nat (length l)) with (Z.of_nat (length rest) + 1)%Z
        by (subst l; cbn [length]; lia).
      apply scaled_draw_range; [assumption .. | lia]. }
    set (j := Qfloor (Math_random rt (rnd w)
                      * inject_Z (Z.of_nat (length l)))) in *.
    destruct (j <? 0)%Z eqn:E; [apply Z.ltb_lt in E; lia |].
    assert (Hlt : (Z.to_nat j < length l)%nat)
      by (subst l; cbn [length]; lia).
    destruct (lookup_lt_is_Some_2 l _ Hlt) as [a Ea]. rewrite Ea.
    exists a. split; [reflexivity |].
    apply list_elem_of_lookup. exists (Z.to_nat j). exact Ea.
Qed.

Lemma getRandomElement_member_witness :
  (valid_random Scenario.rt0 /\
   ["#FF6B6B"; "#4ECDC4"; "#45B7D1"]%string <> []) /\
  gameUtils.getRandomElement Scenario.rt0 (@nil string) Scenario.w0
  = (gameUtils.Throws "Cannot get random element from empty array",
     Scenario.w0) /\
  exists a,
    fst (gameUtils.getRandomElement Scenario.rt0
           ["#FF6B6B"; "#4ECDC4"; "#45B7D1"]%string Scenario.w0)
    = gameUtils.Returns a /\
    a ∈ ["#FF6B6B"; "#4ECDC4"; "#45B7D1"]%string.
Proof.
  assert (Hne : ["#FF6B6B"; "#4ECDC4"; "#45B7D1"]%string <> [])
    by discriminate.
  split; [split; [exact rt0_valid | exact Hne] |].
  split.
  - exact (proj1 (getRandomElement_member Scenario.rt0 (@nil string)
                    Scenario.w0) eq_refl).
  - exact (proj2 (getRandomElement_member Scenario.rt0
                    ["#FF6B6B"; "#4ECDC4"; "#45B7D1"]%string Scenario.w0)
             rt0_valid Hne).
Defined.

(** ** Movement *)

Lemma checkCollision_comp (a a' b : gameUtils.Collider) :
  gameUtils.x a == gameUtils.x a' -> gameUtils.y a == gameUtils.y a' ->
  gameUtils.width a == gameUtils.width a' ->
  gameUtils.height a == gameUtils.height a' ->
  gameUtils.checkCollision a b = gameUtils.checkCollision a' b.
Proof.
  intros Hx Hy Hw Hh. unfold gameUtils.checkCollision.
  rewrite (ltb_comp (gameUtils.x a) _ (gameUtils.x a')
             (gameUtils.x b + gameUtils.width b))
    by (try assumption; reflexivity).
  rewrite (ltb_comp (gameUtils.x b) (gameUtils.x a + gameUtils.width a)
             (gameUtils.x b) (gameUtils.x a' + gameUtils.width a'))
    by (try reflexivity; rewrite Hx, Hw; reflexivity).
  rewrite (ltb_comp (gameUtils.y a) _ (gameUtils.y a')
             (gameUtils.y b + gameUtils.height b))
    by (try assumption; reflexivity).
  rewrite (ltb_comp (gameUtils.y b) (gameUtils.y a + gameUtils.height a)
             (gameUtils.y b) (gameUtils.y a' + gameUtils.height a'))
    by (try reflexivity; rewrite Hy, Hh; reflexivity).
  reflexivity.
Qed.

Lemma willCollide_false entity dx dy obstacles :
  gameUtils.willCollide entity dx dy obstacles = false ->
  forall o, In o obstacles -> gameUtils.isSolid o = true ->
    gameUtils.checkCollision (Spec.movedBy entity dx dy) o = false.
Proof.
  intros H o Hin Hs.
  destruct (gameUtils.checkCollision _ o) eqn:E; [| reflexivity].
  assert (gameUtils.willCollide entity dx dy obstacles = true).
  { apply willCollide_iff. exists o. auto. }
  congruence.
Qed.

(** A step that [willCollide] lets through ends clear of the obstacles. *)
Lemma step_clear (p : Player.t) (dx dy : Q) obstacles :
  gameUtils.willCollide (Player.collider p) dx dy obstacles = false ->
  Spec.clearOf
    (Player.set_position (Player.x p + dx) (Player.y p + dy) p) obstacles.
Proof.
  intros H o Hin Hs. rewrite <- (willCollide_false _ _ _ _ H o Hin Hs).
  apply checkCollision_comp; cbn; reflexivity.
Qed.

Lemma clearOf_comp (p q : Player.t) obstacles :
  Player.x p == Player.x q -> Player.y p == Player.y q ->
  Player.width p = Player.width q -> Player.height p = Player.height q ->
  Spec.clearOf p obstacles -> Spec.clearOf q obstacles.
Proof.
  intros Hx Hy Hw Hh H o Hin Hs. rewrite <- (H o Hin Hs). symmetry.
  apply checkCollision_comp; cbn; try assumption;
    rewrite ?Hw, ?Hh; reflexivity.
Qed.

(** X7: [Player.move] does nothing when both steps are inside the dead
    zone of 0.1; outside it, with no solid obstacle around, it moves the
    player by exactly [(dx, dy)]; and whatever the obstacles, a player
    whose box overlaps no solid obstacle before the call overlaps none
    after it (each axis only moves when [willCollide] lets it). *)
Theorem move_keeps_clear (dx dy : Q) (obstacles : list gameUtils.Collider)
    (p : Player.t) :
  (Qabs dx < 0.1 -> Qabs dy < 0.1 -> Player.move dx dy obstacles p = p) /\
  (0.1 <= Qabs dx \/ 0.1 <= Qabs dy ->
   (forall o, In o obstacles -> gameUtils.isSolid o = false) ->
   Player.move dx dy obstacles p
   = Player.set_position (Player.x p + dx) (Player.y p + dy) p) /\
  (Spec.clearOf p obstacles ->
   Spec.clearOf (Player.move dx dy obstacles p) obstacles).
Proof.
  unfold Player.move. split; [| split].
  - intros Hx Hy. apply ltb_lt in Hx, Hy. rewrite Hx, Hy. reflexivity.
  - intros Hd Hns.
    assert (E : JS.ltb (Qabs dx) 0.1 && JS.ltb (Qabs dy) 0.1 = false).
    { apply andb_false_iff.
      destruct Hd as [H | H]; [left | right]; apply ltb_ge; exact H. }
    rewrite E.
    rewrite (willCollide_no_solid (Player.collider p) dx 0 obstacles Hns).
    cbn [negb].
    rewrite (willCollide_no_solid _ 0 dy obstacles Hns).
    reflexivity.
  - intros Hc.
    destruct (JS.ltb (Qabs dx) 0.1 && JS.ltb (Qabs dy) 0.1); [exact Hc |].
    set (p1 := if negb (gameUtils.willCollide (Player.collider p) dx 0
                          obstacles)
               then Player.set_position (Player.x p + dx) (Player.y p) p
               else p).
    assert (Hc1 : Spec.clearOf p1 obstacles).
    { subst p1.
      destruct (gameUtils.willCollide (Player.collider p) dx 0 obstacles)
        eqn:E; cbn [negb]; [exact Hc |].
      apply (clearOf_comp
               (Player.set_position (Player.x p + dx) (Player.y p + 0) p));
        [cbn; reflexivity | cbn; lra | reflexivity | reflexivity |].
      apply step_clear. exact E. }
    destruct (gameUtils.willCollide (Player.collider p1) 0 dy obstacles)
      eqn:E; cbn [negb]; [exact Hc1 |].
    apply (clearOf_comp
             (Player.set_position (Player.x p1 + 0) (Player.y p1 + dy) p1));
      [cbn; lra | cbn; reflexivity | reflexivity | reflexivity |].
    apply step_clear. exact E.
Qed.

Lemma move_keeps_clear_witness :
  (Qabs 0.05 < 0.1 /\ Spec.clearOf Scenario.player0 [Scenario.rock]) /\
  Player.move 0.05 0.05 [Scenario.rock] Scenario.player0 = Scenario.player0 /\
  Spec.clearOf (Player.move 10 (-100) [Scenario.rock] Scenario.player0)
    [Scenario.rock] /\
  Player.x (Player.move 10 (-100) [Scenario.rock] Scenario.player0) == 0 /\
  Player.y (Player.move 10 (-100) [Scenario.rock] Scenario.player0) == -100.
Proof.
  assert (Hd : Qabs 0.05 < 0.1) by reflexivity.
  assert (Hc : Spec.clearOf Scenario.player0 [Scenario.rock]).
  { intros o [<- | []] _. reflexivity. }
  split; [split; assumption |].
  split.
  - exact (proj1 (move_keeps_clear 0.05 0.05 [Scenario.rock] Scenario.player0)
             Hd Hd).
  - split.
    + exact (proj2 (proj2 (move_keeps_clear 10 (-100) [Scenario.rock]
                             Scenario.player0)) Hc).
    + split; reflexivity.
Defined.

(** ** Skills *)

Lemma learnSkill_ids (skill : Skill.t) (p : Player.t) :
  NoDup (Skill.id <$> Player.skills p) ->
  NoDup (Skill.id <$> Player.skills (Player.learnSkill skill p)).
Proof.
  intros Hnd. unfold Player.learnSkill.
  destruct (JS.leb (Player.skillPoints p) 0); [exact Hnd |].
  destruct (list_find _ (Player.skills p)) as [[i s] |] eqn:E.
  - destruct (JS.ltb (Skill.level s) (Skill.maxLevel s)); [| exact Hnd].
    cbn [Player.skills Player.set_skills].
    apply list_find_Some in E as (Hi & _ & _).
    rewrite list_fmap_insert. cbn [Skill.id Skill.set_level].
    rewrite list_insert_id; [exact Hnd |].
    rewrite list_lookup_fmap, Hi. reflexivity.
  - cbn [Player.skills Player.set_skills].
    rewrite fmap_app. cbn [fmap list_fmap Skill.id Skill.set_level].
    apply NoDup_app. split; [exact Hnd |]. split; [| apply NoDup_singleton].
    intros x Hx Hx'. apply list_elem_of_singleton in Hx'. subst x.
    apply list_elem_of_fmap in Hx as (s & Hs & Hin).
    apply list_find_None in E. rewrite Forall_forall in E.
    apply (E s Hin). symmetry. exact Hs.
Qed.

(** X8: [learnSkill] changes nothing when [canLearnSkills()] is false; it
    keeps the identifiers of the learned skills distinct; it spends at most
    one point, so a whole number of skill points stays a whole number that
    is not negative; and a skill that was not known is appended at level 1,
    whatever the level of the argument, for exactly one point. *)
Theorem learnSkill_invariants (skill : Skill.t) (p : Player.t) :
  let p' := Player.learnSkill skill p in
  (Player.canLearnSkills p = false -> p' = p) /\
  (NoDup (Skill.id <$> Player.skills p) ->
   NoDup (Skill.id <$> Player.skills p')) /\
  (forall n : nat, Player.skillPoints p == inject_Z (Z.of_nat n) ->
     exists n' : nat, Player.skillPoints p' == inject_Z (Z.of_nat n') /\
                      (n' = n \/ S n' = n)) /\
  (0 < Player.skillPoints p ->
   (forall s, s ∈ Player.skills p -> Skill.id s <> Skill.id skill) ->
   Player.skills p' = Player.skills p ++ [Skill.set_level 1 skill] /\
   Player.skillPoints p' = Player.skillPoints p - 1).
Proof.
  cbv zeta. split; [| split; [| split]].
  - intros H. unfold Player.canLearnSkills in H. apply ltb_ge in H.
    unfold Player.learnSkill. apply leb_le in H. rewrite H. reflexivity.
  - apply learnSkill_ids.
  - intros n Hn. unfold Player.learnSkill.
    destruct (JS.leb (Player.skillPoints p) 0) eqn:E0.
    { exists n. split; [exact Hn | left; reflexivity]. }
    apply leb_gt in E0. rewrite Hn in E0. rewrite <- (Zlt_Qlt 0) in E0.
    assert (Hm : Player.skillPoints p - 1 == inject_Z (Z.of_nat (n - 1))).
    { rewrite Hn. replace (Z.of_nat (n - 1)) with (Z.of_nat n - 1)%Z by lia.
      unfold Zminus. rewrite inject_Z_plus. reflexivity. }
    destruct (list_find _ (Player.skills p)) as [[i s] |].
    + destruct (JS.ltb (Skill.level s) (Skill.maxLevel s)).
      * exists (n - 1)%nat. split; [exact Hm | right; lia].
      * exists n. split; [exact Hn | left; reflexivity].
    + exists (n - 1)%nat. split; [exact Hm | right; lia].
  - intros Hpos Hnew. unfold Player.learnSkill.
    apply leb_gt in Hpos. rewrite Hpos.
    destruct (list_find _ (Player.skills p)) as [[i s] |] eqn:E.
    + apply list_find_Some in E as (Hi & Hid & _).
      exfalso. apply (Hnew s); [| exact Hid].
      apply list_elem_of_lookup. exists i. exact Hi.
    + split; reflexivity.
Qed.

Lemma learnSkill_invariants_witness :
  let p := Scenario.playerReset in
  let p' := Player.learnSkill Scenario.fireball p in
  (0 < Player.skillPoints p /\
   (forall s, s ∈ Player.skills p -> Skill.id s <> Skill.id Scenario.fireball) /\
   Player.canLearnSkills p' = false) /\
  Player.skills p' = Player.skills p ++ [Skill.set_level 1 Scenario.fireball] /\
  Player.skillPoints p' = Player.skillPoints p - 1 /\
  Player.learnSkill Scenario.fireball p' = p'.
Proof.
  cbv zeta.
  assert (H0 : 0 < Player.skillPoints Scenario.playerReset) by reflexivity.
  assert (H1 : forall s, s ∈ Player.skills Scenario.playerReset ->
                         Skill.id s <> Skill.id Scenario.fireball).
  { intros s Hs. inversion Hs. }
  assert (H2 : Player.canLearnSkills
                 (Player.learnSkill Scenario.fireball Scenario.playerReset)
               = false) by reflexivity.
  split; [repeat split; assumption |].
  destruct (learnSkill_invariants Scenario.fireball Scenario.playerReset)
    as (_ & _ & _ & Hnew).
  destruct (Hnew H0 H1) as [Hs Hp].
  split; [exact Hs |]. split; [exact Hp |].
  exact (proj1 (learnSkill_invariants Scenario.fireball
                  (Player.learnSkill Scenario.fireball Scenario.playerReset))
           H2).
Defined.

(** X9: [update] of a skill never makes a non-negative cooldown negative
    and never raises it for a non-negative [deltaTime]; the skill is usable
    as soon as the elapsed time covers the cooldown, not before; a skill
    whose cooldown was just triggered is usable after one update by its
    [cooldown].  (The [update] overrides of the classes call it first and
    change none of these fields.) *)
Theorem Skill_update_cooldown (deltaTime : Q) (s : Skill.t) :
  let s' := Skill.update deltaTime s in
  (0 <= Skill.currentCooldown s -> 0 <= Skill.currentCooldown s') /\
  (0 <= deltaTime -> Skill.currentCooldown s' <= Skill.currentCooldown s) /\
  (Skill.currentCooldown s <= deltaTime -> Skill.canUse s' = true) /\
  (0 <= deltaTime -> deltaTime < Skill.currentCooldown s ->
   Skill.canUse s' = false /\
   Skill.currentCooldown s' == Skill.currentCooldown s - deltaTime) /\
  Skill.canUse (Skill.update (Skill.cooldown s) (Skill.triggerCooldown s))
  = true /\
  Skill.level s' = Skill.level s /\ Skill.id s' = Skill.id s.
Proof.
  cbv zeta. unfold Skill.update, Skill.canUse, Skill.triggerCooldown.
  cbn [Skill.currentCooldown Skill.set_currentCooldown Skill.cooldown].
  split; [| split; [| split; [| split; [| split]]]].
  - intros H. destruct (JS.ltb 0 (Skill.currentCooldown s)) eqn:E;
      [| exact H].
    cbn. destruct (JS.ltb (Skill.currentCooldown s - deltaTime) 0) eqn:E2.
    + lra.
    + apply ltb_ge in E2. exact E2.
  - intros H. destruct (JS.ltb 0 (Skill.currentCooldown s)) eqn:E; [| lra].
    apply ltb_lt in E. cbn.
    destruct (JS.ltb (Skill.currentCooldown s - deltaTime) 0) eqn:E2; lra.
  - intros H. destruct (JS.ltb 0 (Skill.currentCooldown s)) eqn:E.
    + cbn. destruct (JS.ltb (Skill.currentCooldown s - deltaTime) 0) eqn:E2.
      * reflexivity.
      * apply leb_le. lra.
    + apply ltb_ge in E. apply leb_le. exact E.
  - intros H0 H.
    assert (E : JS.ltb 0 (Skill.currentCooldown s) = true)
      by (apply ltb_lt; lra).
    rewrite E. cbn.
    assert (E2 : JS.ltb (Skill.currentCooldown s - deltaTime) 0 = false)
      by (apply ltb_ge; lra).
    rewrite E2. split; [apply leb_gt; lra | reflexivity].
  - destruct (JS.ltb 0 (Skill.cooldown s)) eqn:E.
    + cbn.
      assert (E2 : JS.ltb (Skill.cooldown s - Skill.cooldown s) 0 = false)
        by (apply ltb_ge; lra).
      rewrite E2. apply leb_le. lra.
    + cbn. apply ltb_ge in E. apply leb_le. exact E.
  - destruct (JS.ltb 0 (Skill.currentCooldown s)); split; reflexivity.
Qed.

Lemma Skill_update_cooldown_witness :
  let s := Skill.triggerCooldown Scenario.fireball in
  (0 <= 0.5 /\ 0.5 < Skill.currentCooldown s /\ Skill.currentCooldown s <= 3) /\
  Skill.canUse (Skill.update 0.5 s) = false /\
  Skill.currentCooldown (Skill.update 0.5 s) == Skill.currentCooldown s - 0.5 /\
  Skill.canUse (Skill.update 3 s) = true.
Proof.
  cbv zeta.
  assert (H0 : 0 <= 0.5) by (vm_compute; discriminate).
  assert (H1 : 0.5 < Skill.currentCooldown
                       (Skill.triggerCooldown Scenario.fireball))
    by reflexivity.
  assert (H2 : Skill.currentCooldown (Skill.triggerCooldown Scenario.fireball)
               <= 3) by (vm_compute; discriminate).
  split; [repeat split; assumption |].
  destruct (Skill_update_cooldown 0.5 (Skill.triggerCooldown Scenario.fireball))
    as (_ & _ & _ & H & _).
  destruct (H H0 H1) as [Ha Hb].
  split; [exact Ha |]. split; [exact Hb |].
  destruct (Skill_update_cooldown 3 (Skill.triggerCooldown Scenario.fireball))
    as (_ & _ & H3 & _).
  exact (H3 H2).
Defined.

(** [timers.get(id) || 0] is the stored time, or 0 without an entry. *)
Lemma poison_currentTime (v : option Q) :
  match v with
  | Some q => if JS.truthy (Some q) then q else 0
  | None => 0
  end == default 0 v.
Proof.
  destruct v as [q |]; cbn; [| reflexivity].
  destruct (Qeq_bool q 0) eqn:E; cbn; [| reflexivity].
  apply Qeq_bool_iff in E. rewrite E. reflexivity.
Qed.

(** X10: [applyPoisonDamage] only writes the timer of the monster it is
    given; afterwards that timer exists and is below the interval of 1 (and
    not negative when it was not and time runs forward); when the
    accumulated time reaches 1 the timer restarts at 0 and the monster
    loses at least 1 health, otherwise the monster is untouched. *)
Theorem applyPoisonDamage_timer (monster : Monster.t) (deltaTime : Q)
    (ps : PoisonAuraSkill.t) :
  let r := PoisonAuraSkill.applyPoisonDamage monster deltaTime ps in
  let timers := PoisonAuraSkill.monsterDamageTimers ps in
  let timers' := PoisonAuraSkill.monsterDamageTimers (snd r) in
  let t0 := default 0 (timers !! Monster.id monster) in
  (forall i, i <> Monster.id monster -> timers' !! i = timers !! i) /\
  (exists t, timers' !! Monster.id monster = Some t /\ t < 1 /\
             (0 <= t0 -> 0 <= deltaTime -> 0 <= t)) /\
  (1 <= t0 + deltaTime ->
   timers' !! Monster.id monster = Some 0 /\
   Monster.health (fst r) <= Monster.health monster - 1) /\
  (t0 + deltaTime < 1 -> fst r = monster) /\
  PoisonAuraSkill.skill (snd r) = PoisonAuraSkill.skill ps.
Proof.
  cbv zeta. unfold PoisonAuraSkill.applyPoisonDamage.
  pose proof (poison_currentTime
                (PoisonAuraSkill.monsterDamageTimers ps !! Monster.id monster))
    as Ht.
  set (cur := match PoisonAuraSkill.monsterDamageTimers ps
                    !! Monster.id monster with
              | Some q => if JS.truthy (Some q) then q else 0
              | None => 0
              end) in *.
  set (t0 := default 0 (PoisonAuraSkill.monsterDamageTimers ps
                          !! Monster.id monster)) in *.
  destruct (JS.geb (cur + deltaTime) 1) eqn:E;
    cbn [fst snd PoisonAuraSkill.monsterDamageTimers PoisonAuraSkill.skill].
  - apply geb_ge in E.
    split; [intros i Hi; apply lookup_insert_ne; congruence |].
    split; [exists 0; split; [apply lookup_insert_eq |
                              split; [reflexivity | intros; lra]] |].
    split; [| split; [intros; lra | reflexivity]].
    intros _. split; [apply lookup_insert_eq |].
    unfold PoisonAuraSkill.effect. rewrite Monster_takeDamage_health.
    pose proof (Math_max_lower 1
      (5 * Skill.level (PoisonAuraSkill.skill ps)
       - JS.Math_min (Monster.defense monster)
           (5 * Skill.level (PoisonAuraSkill.skill ps) * 0.5))). lra.
  - apply geb_lt in E.
    split; [intros i Hi; apply lookup_insert_ne; congruence |].
    split; [exists (cur + deltaTime);
            split; [apply lookup_insert_eq |
                    split; [exact E | intros; lra]] |].
    split; [intros; lra |]. split; reflexivity.
Qed.

Lemma applyPoisonDamage_timer_witness :
  let m := Scenario.monster0 in
  let t0 := default 0 (PoisonAuraSkill.monsterDamageTimers Scenario.poison0
                         !! Monster.id m) in
  let t1 := default 0 (PoisonAuraSkill.monsterDamageTimers Scenario.poison1
                         !! Monster.id m) in
  (t0 + 0.6 < 1 /\ 1 <= t1 + 0.6) /\
  fst (PoisonAuraSkill.applyPoisonDamage m 0.6 Scenario.poison0) = m /\
  PoisonAuraSkill.monsterDamageTimers
    (snd (PoisonAuraSkill.applyPoisonDamage m 0.6 Scenario.poison1))
    !! Monster.id m = Some 0 /\
  Monster.health
    (fst (PoisonAuraSkill.applyPoisonDamage m 0.6 Scenario.poison1))
  <= Monster.health m - 1.
Proof.
  cbv zeta.
  assert (H0 : default 0 (PoisonAuraSkill.monsterDamageTimers Scenario.poison0
                            !! Monster.id Scenario.monster0) + 0.6 < 1)
    by reflexivity.
  assert (H1 : 1 <= default 0 (PoisonAuraSkill.monsterDamageTimers
                                 Scenario.poison1
                                 !! Monster.id Scenario.monster0) + 0.6)
    by (vm_compute; discriminate).
  split; [split; assumption |].
  destruct (applyPoisonDamage_timer Scenario.monster0 0.6 Scenario.poison0)
    as (_ & _ & _ & Hlo & _).
  destruct (applyPoisonDamage_timer Scenario.monster0 0.6 Scenario.poison1)
    as (_ & _ & Hhi & _).
  split; [exact (Hlo H0) |]. exact (Hhi H1).
Defined.

Lemma findByName_none rt (skillId : string) (factories : list Skill.class) :
  (forall c, Skill.class_name c <> skillId) ->
  forall w, fst (SkillPool.findByName rt skillId factories w) = None.
Proof.
  intros Hne. induction factories as [| c rest IH]; intros w; [reflexivity |].
  cbn [SkillPool.findByName]. unfold bind.
  destruct (Skill.new rt c w) as [s w1] eqn:E.
  assert (Hn : Skill.name s = Skill.class_name c).
  { unfold Skill.new, bind, gameUtils.generateId, bind, now, random_draw,
      ret in E.
    injection E as <- _. reflexivity. }
  rewrite Hn. rewrite (proj2 (String.eqb_neq _ _) (Hne c)). apply IH.
Qed.

(** X11: [getSkillById] looks skills up by their name: for the name of
    each of the nine classes it returns a fresh skill of that class (level
    1, maximum level 10, no cooldown running), and for any other string it
    returns [null]. *)
Theorem getSkillById_by_name (rt : Runtime) (w : World) :
  (forall c : Skill.class,
     exists s,
       fst (SkillPool.getSkillById rt (Skill.class_name c) w) = Some s /\
       Skill.cls s = c /\ Skill.name s = Skill.class_name c /\
       Skill.level s = 1 /\ Skill.maxLevel s = 10 /\
       Skill.currentCooldown s = 0) /\
  (forall skillId : string,
     (forall c, Skill.class_name c <> skillId) ->
     fst (SkillPool.getSkillById rt skillId w) = None).
Proof.
  split.
  - intros c. unfold SkillPool.getSkillById, SkillPool.availableSkills.
    destruct c; cbn; eexists; (split; [reflexivity |]);
      repeat split; reflexivity.
  - intros skillId Hne. apply findByName_none. exact Hne.
Qed.

Lemma getSkillById_by_name_witness :
  (forall c, Skill.class_name c <> "fireball"%string) /\
  fst (SkillPool.getSkillById Scenario.rt0 "fireball" Scenario.w0) = None /\
  exists s,
    fst (SkillPool.getSkillById Scenario.rt0 "闪电链" Scenario.w0) = Some s /\
    Skill.cls s = Skill.LightningChainSkill.
Proof.
  assert (Hne : forall c, Skill.class_name c <> "fireball"%string).
  { intros c. destruct c; discriminate. }
  split; [exact Hne |].
  destruct (getSkillById_by_name Scenario.rt0 Scenario.w0) as [Hyes Hno].
  split; [exact (Hno "fireball"%string Hne) |].
  destruct (Hyes Skill.LightningChainSkill) as (s & Hs & Hc & _).
  exists s. split; [exact Hs | exact Hc].
Defined.

(** ** Equipment: applying and removing effects *)

Lemma applyEffect_removeEffect_stats (e : Equipment.t) (p : Player.t) :
  1 <= Player.health p -> Player.health p <= Player.maxHealth p ->
  let p' := BaseEquipment.removeEffect e (BaseEquipment.applyEffect e p) in
  Player.attack p' == Player.attack p /\
  Player.defense p' == Player.defense p /\
  Player.maxHealth p' == Player.maxHealth p /\
  Player.health p' == Player.health p.
Proof.
  intros H1 H2. unfold BaseEquipment.removeEffect, BaseEquipment.applyEffect.
  destruct (Equipment.attack _) as [a |], (Equipment.defense _) as [d |],
    (Equipment.maxHealth _) as [m |]; cbn;
    repeat split; try reflexivity; try (qminmax; lra).
Qed.

(** X12: [removeEffect] undoes [applyEffect] on attack, defense and
    maxHealth, in either order; applied first and removed afterwards, the
    item also leaves health as it was, provided [1 <= health <=
    maxHealth].  The other order (take the item off, put it back on) never
    lowers health and is not the identity on a wounded player: with a
    maxHealth bonus [v] and [health - v < 1], health comes back as
    [1 + v]. *)
Theorem applyEffect_removeEffect_roundtrip (e : Equipment.t) (p : Player.t) :
  let q := BaseEquipment.removeEffect e (BaseEquipment.applyEffect e p) in
  let q' := BaseEquipment.applyEffect e (BaseEquipment.removeEffect e p) in
  (Player.attack q == Player.attack p /\
   Player.defense q == Player.defense p /\
   Player.maxHealth q == Player.maxHealth p) /\
  (Player.attack q' == Player.attack p /\
   Player.defense q' == Player.defense p /\
   Player.maxHealth q' == Player.maxHealth p) /\
  (1 <= Player.health p -> Player.health p <= Player.maxHealth p ->
   Player.health q == Player.health p) /\
  (Player.health p <= Player.maxHealth p ->
   Player.health p <= Player.health q' /\
   forall v, Equipment.maxHealth (Equipment.stats e) = Some v ->
     Player.health p - v < 1 -> 1 + v <= Player.maxHealth p ->
     Player.health q' == 1 + v).
Proof.
  cbv zeta. unfold BaseEquipment.removeEffect, BaseEquipment.applyEffect.
  split; [| split; [| split]].
  - destruct (Equipment.attack _) as [a |], (Equipment.defense _) as [d |],
      (Equipment.maxHealth _) as [m |]; cbn; repeat split; lra.
  - destruct (Equipment.attack _) as [a |], (Equipment.defense _) as [d |],
      (Equipment.maxHealth _) as [m |]; cbn; repeat split; lra.
  - intros H1 H2.
    destruct (Equipment.attack _) as [a |], (Equipment.defense _) as [d |],
      (Equipment.maxHealth _) as [m |]; cbn;
      try reflexivity; qminmax; lra.
  - intros H2.
    destruct (Equipment.attack _) as [a |], (Equipment.defense _) as [d |],
      (Equipment.maxHealth _) as [m |]; cbn;
      (split; [try (qminmax; lra); lra |]);
      intros v [= <-] Hlow Hroom || (intros v Hv; discriminate Hv);
      qminmax; lra.
Qed.

Lemma applyEffect_removeEffect_roundtrip_witness :
  let p := Scenario.playerWounded in
  let e := Scenario.shield in
  (1 <= Player.health p /\ Player.health p <= Player.maxHealth p /\
   Equipment.maxHealth (Equipment.stats e) = Some 50 /\
   Player.health p - 50 < 1 /\ 1 + 50 <= Player.maxHealth p) /\
  Player.health (BaseEquipment.removeEffect e (BaseEquipment.applyEffect e p))
  == 10 /\
  Player.health (BaseEquipment.applyEffect e (BaseEquipment.removeEffect e p))
  == 51.
Proof.
  cbv zeta.
  assert (H1 : 1 <= Player.health Scenario.playerWounded)
    by (vm_compute; discriminate).
  assert (H2 : Player.health Scenario.playerWounded
               <= Player.maxHealth Scenario.playerWounded)
    by (vm_compute; discriminate).
  assert (H3 : Player.health Scenario.playerWounded - 50 < 1) by reflexivity.
  assert (H4 : 1 + 50 <= Player.maxHealth Scenario.playerWounded)
    by (vm_compute; discriminate).
  split; [repeat split; assumption |].
  destruct (applyEffect_removeEffect_roundtrip Scenario.shield
              Scenario.playerWounded) as (_ & _ & Ha & Hb).
  split.
  - rewrite (Ha H1 H2). reflexivity.
  - rewrite (proj2 (Hb H2) 50 eq_refl H3 H4). reflexivity.
Defined.

Lemma indexOf_app_last (l : nat) (locs : list nat) :
  l ∉ locs -> EquipmentManager.indexOf l (locs ++ [l]) = Some (length locs).
Proof.
  induction locs as [| l0 rest IH]; intros Hn; cbn.
  - rewrite bool_decide_eq_true_2 by reflexivity. reflexivity.
  - rewrite bool_decide_eq_false_2.
    + rewrite IH; [reflexivity |]. intros H. apply Hn. now right.
    + intros ->. apply Hn. now left.
Qed.

Lemma delete_app_last {A} (l : list A) (a : A) :
  delete (length l) (l ++ [a]) = l.
Proof. induction l; cbn; [reflexivity | f_equal; assumption]. Qed.

Lemma removeEffect_set_lists e a b (p : Player.t) :
  BaseEquipment.removeEffect e (Player.set_lists a b p)
  = Player.set_lists a b (BaseEquipment.removeEffect e p).
Proof.
  unfold BaseEquipment.removeEffect.
  destruct (Equipment.attack _), (Equipment.defense _),
    (Equipment.maxHealth _); reflexivity.
Qed.

Lemma applyEffect_lists e (p : Player.t) :
  Player.equipment (BaseEquipment.applyEffect e p) = Player.equipment p /\
  Player.inventory (BaseEquipment.applyEffect e p) = Player.inventory p.
Proof.
  unfold BaseEquipment.applyEffect.
  destruct (Equipment.attack _), (Equipment.defense _),
    (Equipment.maxHealth _); split; reflexivity.
Qed.

(** X13: when [checkEquipmentConflict] is false for an item that the
    player does not wear, [equipToPlayer] followed by [unequipFromPlayer]
    of that item succeeds and leaves [player.equipment] as it was, with the
    item appended to the inventory and flagged as not equipped, every other
    object untouched, and (for [1 <= health <= maxHealth]) attack, defense,
    maxHealth and health back at their values. *)
Theorem equip_then_unequip (p : Player.t) (l : nat) (e : Equipment.t)
    (w : World) :
  heap w !! l = Some e ->
  EquipmentManager.checkEquipmentConflict (heap w) p (Equipment.type_ e)
  = false ->
  l ∉ Player.equipment p ->
  1 <= Player.health p -> Player.health p <= Player.maxHealth p ->
  let r1 := EquipmentManager.equipToPlayer p l w in
  let r2 := EquipmentManager.unequipFromPlayer (snd (fst r1)) l (snd r1) in
  let p' := snd (fst r2) in
  fst (fst r2) = true /\
  Player.equipment p' = Player.equipment p /\
  Player.inventory p' = Player.inventory p ++ [l] /\
  heap (snd r2) !! l = Some (Equipment.set_isEquipped false e) /\
  (forall k, k <> l -> heap (snd r2) !! k = heap w !! k) /\
  Player.attack p' == Player.attack p /\
  Player.defense p' == Player.defense p /\
  Player.maxHealth p' == Player.maxHealth p /\
  Player.health p' == Player.health p.
Proof.
  intros Hl Hc Hn H1 H2.
  assert (Hf : EquipmentManager.findByType (heap w) (Equipment.type_ e)
                 (Player.equipment p) = None).
  { unfold EquipmentManager.findByType.
    destruct (find _ _) as [o |] eqn:E; [| reflexivity].
    apply find_some in E as [Hin Ho].
    unfold EquipmentManager.checkEquipmentConflict in Hc.
    assert (existsb
              (fun l0 => match heap w !! l0 with
                         | Some equipped =>
                             bool_decide (Equipment.type_ equipped
                                          = Equipment.type_ e)
                         | None => false
                         end) (Player.equipment p) = true).
    { apply existsb_exists. exists o. auto. }
    congruence. }
  cbv zeta.
  unfold EquipmentManager.equipToPlayer, bind, get_heap, store, ret.
  rewrite Hl. unfold EquipmentManager.unequipOld. rewrite Hf.
  cbn [fst snd].
  unfold EquipmentManager.unequipFromPlayer, bind, get_heap, store, ret.
  cbn [heap Player.equipment Player.set_lists].
  assert (Heq : forall q,
            Player.equipment (if Equipment.has_methods e
                              then BaseEquipment.applyEffect e q else q)
            = Player.equipment q).
  { intros q. destruct (Equipment.has_methods e); [| reflexivity].
    apply applyEffect_lists. }
  assert (Hinv : forall q,
            Player.inventory (if Equipment.has_methods e
                              then BaseEquipment.applyEffect e q else q)
            = Player.inventory q).
  { intros q. destruct (Equipment.has_methods e); [| reflexivity].
    apply applyEffect_lists. }
  rewrite Heq. rewrite (indexOf_app_last l _ Hn).
  rewrite lookup_insert_eq. cbn [fst snd heap].
  cbn [Equipment.has_methods Equipment.set_isEquipped].
  split; [reflexivity |].
  destruct (Equipment.has_methods e) eqn:Hm.
  - change (BaseEquipment.removeEffect (Equipment.set_isEquipped true e))
      with (BaseEquipment.removeEffect e).
    rewrite Hinv. rewrite removeEffect_set_lists.
    cbn [Player.equipment Player.inventory Player.set_lists
         Player.attack Player.defense Player.maxHealth Player.health].
    rewrite delete_app_last.
    split; [reflexivity |]. split; [reflexivity |].
    split; [rewrite lookup_insert_eq; reflexivity |].
    split; [intros k Hk; rewrite !lookup_insert_ne by congruence;
            reflexivity |].
    exact (applyEffect_removeEffect_stats e p H1 H2).
  - cbn [Player.equipment Player.inventory Player.set_lists].
    rewrite delete_app_last.
    split; [reflexivity |]. split; [reflexivity |].
    split; [rewrite lookup_insert_eq; reflexivity |].
    split; [intros k Hk; rewrite !lookup_insert_ne by congruence;
            reflexivity |].
    repeat split; reflexivity.
Qed.

Lemma equip_then_unequip_witness :
  let p := Scenario.playerWounded in
  let w := Scenario.wShield in
  let r1 := EquipmentManager.equipToPlayer p 0 w in
  let r2 := EquipmentManager.unequipFromPlayer (snd (fst r1)) 0 (snd r1) in
  (heap w !! 0%nat = Some Scenario.shield /\
   EquipmentManager.checkEquipmentConflict (heap w) p Equipment.ARMOR = false /\
   (0%nat ∉ Player.equipment p) /\
   1 <= Player.health p /\ Player.health p <= Player.maxHealth p) /\
  Player.maxHealth (snd (fst r1)) == 150 /\
  fst (fst r2) = true /\
  Player.equipment (snd (fst r2)) = [] /\
  Player.inventory (snd (fst r2)) = [0%nat] /\
  Player.maxHealth (snd (fst r2)) == 100 /\
  Player.health (snd (fst r2)) == 10.
Proof.
  cbv zeta.
  assert (Hl : heap Scenario.wShield !! 0%nat = Some Scenario.shield)
    by reflexivity.
  assert (Hc : EquipmentManager.checkEquipmentConflict (heap Scenario.wShield)
                 Scenario.playerWounded (Equipment.type_ Scenario.shield)
               = false) by reflexivity.
  assert (Hn : 0%nat ∉ Player.equipment Scenario.playerWounded)
    by apply not_elem_of_nil.
  assert (H1 : 1 <= Player.health Scenario.playerWounded)
    by (vm_compute; discriminate).
  assert (H2 : Player.health Scenario.playerWounded
               <= Player.maxHealth Scenario.playerWounded)
    by (vm_compute; discriminate).
  split; [repeat split; assumption |].
  split; [reflexivity |].
  destruct (equip_then_unequip Scenario.playerWounded 0 Scenario.shield
              Scenario.wShield Hl Hc Hn H1 H2)
    as (Ht & He & Hi & _ & _ & _ & _ & Hm & Hh).
  split; [exact Ht |]. split; [exact He |]. split; [exact Hi |].
  split; [rewrite Hm; reflexivity | rewrite Hh; reflexivity].
Defined.

(** ** Loot: rarity tables and equipment classes *)

Ltac decide_leb :=
  repeat match goal with
  | |- context [if JS.leb ?a 0 then _ else _] =>
      first [ rewrite (proj2 (leb_le a 0)) by lra
            | rewrite (proj2 (leb_gt a 0)) by lra ]
  end.

Lemma totalWeight_plain :
  EquipmentFactory.totalWeight (EquipmentFactory.weights false) == 100.
Proof. vm_compute. reflexivity. Qed.

(** X14: the rarity drawn by [generateRarity] as a function of the draw
    [r].  Outside boss drops it is never LEGENDARY, for any draw at all:
    COMMON up to 0.6, UNCOMMON up to 0.9, RARE up to 0.98, EPIC up to 1.
    For boss drops: UNCOMMON on (0, 0.1], RARE up to 0.4, EPIC up to 0.8,
    LEGENDARY up to 1. *)
Theorem generateRarity_thresholds (rt : Runtime) (w : World) :
  let r := Math_random rt (rnd w) in
  let plain := fst (EquipmentFactory.generateRarity rt false w) in
  let boss := fst (EquipmentFactory.generateRarity rt true w) in
  plain <> EquipmentFactory.LEGENDARY /\
  (r <= 0.6 -> plain = EquipmentFactory.COMMON) /\
  (0.6 < r -> r <= 0.9 -> plain = EquipmentFactory.UNCOMMON) /\
  (0.9 < r -> r <= 0.98 -> plain = EquipmentFactory.RARE) /\
  (0.98 < r -> r <= 1 -> plain = EquipmentFactory.EPIC) /\
  (0 < r -> r <= 0.1 -> boss = EquipmentFactory.UNCOMMON) /\
  (0.1 < r -> r <= 0.4 -> boss = EquipmentFactory.RARE) /\
  (0.4 < r -> r <= 0.8 -> boss = EquipmentFactory.EPIC) /\
  (0.8 < r -> r <= 1 -> boss = EquipmentFactory.LEGENDARY).
Proof.
  cbv zeta. unfold EquipmentFactory.generateRarity, bind, random_draw, ret.
  cbn [fst]. set (r := Math_random rt (rnd w)).
  unfold EquipmentFactory.weightedRandom.
  pose proof totalWeight_plain as Hp. pose proof totalWeight_boss as Hb.
  set (tp := EquipmentFactory.totalWeight (EquipmentFactory.weights false))
    in *.
  set (tb := EquipmentFactory.totalWeight (EquipmentFactory.weights true))
    in *.
  assert (Hrp : r * tp == r * 100) by (now rewrite Hp).
  assert (Hrb : r * tb == r * 100) by (now rewrite Hb).
  cbn [EquipmentFactory.weights EquipmentFactory.pick map fst hd].
  split.
  { repeat match goal with
    | |- context [if JS.leb ?a 0 then _ else _] =>
        let E := fresh "E" in
        destruct (JS.leb a 0) eqn:E; [try discriminate |]
    end.
    - apply leb_le in E3. apply leb_gt in E2. lra.
    - discriminate. }
  repeat split; intros; decide_leb; reflexivity.
Qed.

Lemma generateRarity_thresholds_witness :
  let rt := Scenario.rtDraw (fun x => x) 0.95 in
  (0.9 < Math_random rt (rnd Scenario.w0) /\
   Math_random rt (rnd Scenario.w0) <= 0.98 /\
   0.8 < Math_random rt (rnd Scenario.w0) /\
   Math_random rt (rnd Scenario.w0) <= 1) /\
  fst (EquipmentFactory.generateRarity rt false Scenario.w0)
  = EquipmentFactory.RARE /\
  fst (EquipmentFactory.generateRarity rt true Scenario.w0)
  = EquipmentFactory.LEGENDARY.
Proof.
  cbv zeta. set (rt := Scenario.rtDraw (fun x => x) 0.95).
  assert (H1 : 0.9 < Math_random rt (rnd Scenario.w0)) by reflexivity.
  assert (H2 : Math_random rt (rnd Scenario.w0) <= 0.98)
    by (vm_compute; discriminate).
  assert (H3 : 0.8 < Math_random rt (rnd Scenario.w0)) by reflexivity.
  assert (H4 : Math_random rt (rnd Scenario.w0) <= 1)
    by (vm_compute; discriminate).
  split; [repeat split; assumption |].
  destruct (generateRarity_thresholds rt Scenario.w0)
    as (_ & _ & _ & Hr & _ & _ & _ & _ & Hl).
  split; [exact (Hr H1 H2) | exact (Hl H3 H4)].
Defined.

Lemma floor_draw_nonneg (r n : Q) :
  0 <= r -> 0 <= n -> 0 <= JS.Math_floor (r * n).
Proof.
  intros Hr Hn. unfold JS.Math_floor. rewrite <- (Zle_Qle 0).
  change 0%Z with (Qfloor 0). apply Qfloor_resp_le. nra.
Qed.

Lemma getRarityMultiplier_ge_1 r : 1 <= BaseEquipment.getRarityMultiplier r.
Proof. destruct r; vm_compute; discriminate. Qed.

(** A whole lower bound [b] of the base stat survives the multipliers and
    the floor. *)
Lemma scaled_floor_lower (base rm lm b : Q) (z : Z) :
  b == inject_Z z -> b <= base -> 0 <= b -> 1 <= rm -> 1 <= lm ->
  b <= JS.Math_floor (base * rm * lm).
Proof.
  intros Hb H0 Hpos H1 H2.
  assert (Ha : base <= base * rm) by nra.
  assert (Hc : base * rm <= base * rm * lm) by nra.
  assert (H : b <= base * rm * lm) by lra.
  unfold JS.Math_floor. rewrite Hb. rewrite <- Zle_Qle.
  apply Qfloor_resp_le in H. rewrite (Qfloor_comp _ _ Hb) in H.
  rewrite Qfloor_Z in H. exact H.
Qed.

(** X15: [new Weapon(name, rarity, level)] creates a new, unequipped
    object of type WEAPON with an attack stat, which is at least 10 for
    draws in [[0, 1)] and a level of at least 1.  It has a criticalRate
    stat exactly when its rarity is 'uncommon' or 'rare': the test
    [this.rarity >= 'rare'] compares strings, so 'epic' and 'legendary'
    weapons get none. *)
Theorem Weapon_new_stats (rt : Runtime) (name : string)
    (rarity : Equipment.rarity) (level : Q) (w : World) :
  let l := fst (Weapon.new rt name rarity level w) in
  let w' := snd (Weapon.new rt name rarity level w) in
  exists (e : Equipment.t) (a : Q),
    heap w !! l = None /\ heap w' !! l = Some e /\
    Equipment.type_ e = Equipment.WEAPON /\ Equipment.rarity_ e = rarity /\
    Equipment.isEquipped e = false /\
    Equipment.attack (Equipment.stats e) = Some a /\
    (is_Some (Equipment.criticalRate (Equipment.stats e)) <->
     rarity = Equipment.uncommon \/ rarity = Equipment.rare) /\
    (valid_random rt -> 1 <= level -> 10 <= a).
Proof.
  cbv zeta.
  unfold Weapon.new, bind, gameUtils.generateId, bind, now, random_draw, ret.
  unfold gameUtils.randomInt, bind, random_draw, ret.
  assert (Hatk : valid_random rt -> 1 <= level ->
            10 <= JS.Math_floor
                    ((JS.Math_floor (Math_random rt (S (rnd w))
                                     * (30 - 10 + 1)) + 10)
                     * BaseEquipment.getRarityMultiplier rarity
                     * (1 + (level - 1) * 0.1))).
  { intros Hv Hlvl. destruct (Hv (S (rnd w))) as [H0 _].
    pose proof (floor_draw_nonneg _ (30 - 10 + 1) H0
                  ltac:(vm_compute; discriminate)).
    apply (scaled_floor_lower _ _ _ 10 10); try lra.
    - reflexivity.
    - apply getRarityMultiplier_ge_1. }
  destruct (BaseEquipment.rarityAtLeastRare rarity) eqn:Er;
    unfold gameUtils.random, bind, random_draw, ret, alloc;
    cbn [fst snd heap rnd clk];
    (eexists; eexists;
     split; [apply not_elem_of_dom, is_fresh |];
     split; [apply lookup_insert_eq |];
     cbn [Equipment.type_ Equipment.rarity_ Equipment.isEquipped
          Equipment.stats Equipment.attack Equipment.criticalRate];
     split; [reflexivity |]; split; [reflexivity |]; split; [reflexivity |];
     split; [reflexivity |]; split; [| exact Hatk]).
  - split; [intros _ | intros _; eexists; reflexivity].
    destruct rarity; try discriminate Er; auto.
  - split; [intros [x Hx]; discriminate |].
    intros [-> | ->]; discriminate Er.
Qed.

Lemma Weapon_new_stats_witness :
  let r := Weapon.new Scenario.rt0 "铁剑" Equipment.epic 1 Scenario.w0 in
  (valid_random Scenario.rt0 /\ 1 <= 1) /\
  exists (e : Equipment.t) (a : Q),
    heap (snd r) !! fst r = Some e /\
    Equipment.attack (Equipment.stats e) = Some a /\ 10 <= a /\
    ~ is_Some (Equipment.criticalRate (Equipment.stats e)).
Proof.
  cbv zeta.
  assert (H1 : 1 <= 1) by (vm_compute; discriminate).
  split; [split; [exact rt0_valid | exact H1] |].
  destruct (Weapon_new_stats Scenario.rt0 "铁剑" Equipment.epic 1 Scenario.w0)
    as (e & a & _ & He & _ & _ & _ & Ha & Hc & Hlo).
  exists e, a. split; [exact He |]. split; [exact Ha |].
  split; [exact (Hlo rt0_valid H1) |].
  intros Hs. apply Hc in Hs. destruct Hs; discriminate.
Defined.

(** X16: [new Armor(name, rarity, level)] creates a new, unequipped object
    of type ARMOR with a defense and a maxHealth stat and no attack stat;
    for draws in [[0, 1)] and a level of at least 1 the defense is at least
    5 and the maxHealth bonus at least 20. *)
Theorem Armor_new_stats (rt : Runtime) (name : string)
    (rarity : Equipment.rarity) (level : Q) (w : World) :
  let l := fst (Armor.new rt name rarity level w) in
  let w' := snd (Armor.new rt name rarity level w) in
  exists (e : Equipment.t) (d m : Q),
    heap w !! l = None /\ heap w' !! l = Some e /\
    Equipment.type_ e = Equipment.ARMOR /\ Equipment.isEquipped e = false /\
    Equipment.attack (Equipment.stats e) = None /\
    Equipment.defense (Equipment.stats e) = Some d /\
    Equipment.maxHealth (Equipment.stats e) = Some m /\
    (valid_random rt -> 1 <= level -> 5 <= d /\ 20 <= m).
Proof.
  cbv zeta.
  unfold Armor.new, bind, gameUtils.generateId, bind, now, random_draw, ret.
  unfold gameUtils.randomInt, bind, random_draw, ret, alloc.
  cbn [fst snd heap rnd clk].
  eexists; eexists; eexists.
  split; [apply not_elem_of_dom, is_fresh |].
  split; [apply lookup_insert_eq |].
  cbn [Equipment.type_ Equipment.isEquipped Equipment.stats Equipment.attack
       Equipment.defense Equipment.maxHealth].
  repeat (split; [reflexivity |]).
  intros Hv Hlvl.
  destruct (Hv (S (rnd w))) as [H0 _].
  destruct (Hv (S (S (rnd w)))) as [H1 _].
  pose proof (floor_draw_nonneg _ (15 - 5 + 1) H0
                ltac:(vm_compute; discriminate)).
  pose proof (floor_draw_nonneg _ (50 - 20 + 1) H1
                ltac:(vm_compute; discriminate)).
  split.
  - apply (scaled_floor_lower _ _ _ 5 5); try lra;
      [reflexivity | apply getRarityMultiplier_ge_1].
  - apply (scaled_floor_lower _ _ _ 20 20); try lra;
      [reflexivity | apply getRarityMultiplier_ge_1].
Qed.

Lemma Armor_new_stats_witness :
  let r := Armor.new Scenario.rt0 "铁甲" Equipment.rare 3 Scenario.w0 in
  (valid_random Scenario.rt0 /\ 1 <= 3) /\
  exists (e : Equipment.t) (d m : Q),
    heap (snd r) !! fst r = Some e /\
    Equipment.defense (Equipment.stats e) = Some d /\
    Equipment.maxHealth (Equipment.stats e) = Some m /\
    5 <= d /\ 20 <= m.
Proof.
  cbv zeta.
  assert (H1 : 1 <= 3) by (vm_compute; discriminate).
  split; [split; [exact rt0_valid | exact H1] |].
  destruct (Armor_new_stats Scenario.rt0 "铁甲" Equipment.rare 3 Scenario.w0)
    as (e & d & m & _ & He & _ & _ & _ & Hd & Hm & Hlo).
  exists e, d, m. split; [exact He |]. split; [exact Hd |].
  split; [exact Hm |]. exact (Hlo rt0_valid H1).
Defined.

(** X17: [Monster.dropLoot] drops nothing when the first draw is at or
    above the drop chance of the monster's tier (0.8 boss, 0.5 elite, 0.2
    otherwise), and exactly one new, unequipped object literal below it.
    The rarity of the item follows the tier: epic or legendary for a boss
    (never common, for any draw), rare or epic for an elite, and common,
    uncommon or rare otherwise. *)
Theorem dropLoot_by_tier (rt : Runtime) (m : Monster.t) (w : World) :
  let r := Monster.dropLoot rt m w in
  let dropChance :=
    if Monster.isBoss m then 0.8 else if Monster.isElite m then 0.5 else 0.2 in
  (dropChance <= Math_random rt (rnd w) ->
   fst r = [] /\ heap (snd r) = heap w) /\
  (Math_random rt (rnd w) < dropChance ->
   exists (l : nat) (e : Equipment.t),
     fst r = [l] /\ heap w !! l = None /\ heap (snd r) !! l = Some e /\
     (forall k, k <> l -> heap (snd r) !! k = heap w !! k) /\
     Equipment.isEquipped e = false /\ Equipment.has_methods e = false /\
     (Monster.isBoss m = true ->
      Equipment.rarity_ e = Equipment.epic \/
      Equipment.rarity_ e = Equipment.legendary) /\
     (Monster.isBoss m = false -> Monster.isElite m = true ->
      Equipment.rarity_ e = Equipment.rare \/
      Equipment.rarity_ e = Equipment.epic) /\
     (Monster.isBoss m = false -> Monster.isElite m = false ->
      Equipment.rarity_ e = Equipment.common \/
      Equipment.rarity_ e = Equipment.uncommon \/
      Equipment.rarity_ e = Equipment.rare)).
Proof.
  cbv zeta. unfold Monster.dropLoot.
  set (dropChance := if Monster.isBoss m then 0.8
                     else if Monster.isElite m then 0.5 else 0.2).
  unfold bind, random_draw, gameUtils.generateId, bind, now, random_draw,
    ret, alloc.
  cbn [rnd clk heap].
  split.
  - intros H. apply ltb_ge in H. rewrite H. split; reflexivity.
  - intros H. apply ltb_lt in H. rewrite H.
    set (rarity := Monster.lootRarity m _).
    assert (Hr : (Monster.isBoss m = true ->
                  rarity = EquipmentFactory.EPIC \/
                  rarity = EquipmentFactory.LEGENDARY) /\
                 (Monster.isBoss m = false -> Monster.isElite m = true ->
                  rarity = EquipmentFactory.RARE \/
                  rarity = EquipmentFactory.EPIC) /\
                 (Monster.isBoss m = false -> Monster.isElite m = false ->
                  rarity = EquipmentFactory.COMMON \/
                  rarity = EquipmentFactory.UNCOMMON \/
                  rarity = EquipmentFactory.RARE)).
    { subst rarity. unfold Monster.lootRarity.
      destruct (Monster.isBoss m), (Monster.isElite m);
        repeat split; intros; try discriminate;
        repeat match goal with
        | |- context [if JS.ltb ?a ?b then _ else _] =>
            destruct (JS.ltb a b)
        end; auto. }
    destruct rarity eqn:Erar; cbn [fst snd heap];
      (eexists; eexists;
       split; [reflexivity |];
       split; [apply not_elem_of_dom, is_fresh |];
       split; [apply lookup_insert_eq |];
       split; [intros k Hk; rewrite lookup_insert_ne by congruence;
               reflexivity |];
       cbn [Equipment.isEquipped Equipment.has_methods Equipment.rarity_
            EquipmentFactory.toLowerCase];
       split; [reflexivity |]; split; [reflexivity |];
       destruct Hr as (Hb & He & Hn);
       split; [intros Hx; destruct (Hb Hx); first [discriminate | auto] |];
       split; [intros Hx Hy; destruct (He Hx Hy);
               first [discriminate | auto] |];
       intros Hx Hy; destruct (Hn Hx Hy) as [? | [? | ?]];
       first [discriminate | auto]).
Qed.

Lemma dropLoot_by_tier_witness :
  let r := Monster.dropLoot Scenario.rt0 Scenario.boss0 Scenario.w0 in
  (Math_random Scenario.rt0 (rnd Scenario.w0) < 0.8 /\
   Monster.isBoss Scenario.boss0 = true) /\
  exists (l : nat) (e : Equipment.t),
    fst r = [l] /\ heap (snd r) !! l = Some e /\
    Equipment.isEquipped e = false /\
    (Equipment.rarity_ e = Equipment.epic \/
     Equipment.rarity_ e = Equipment.legendary).
Proof.
  cbv zeta.
  assert (H1 : Math_random Scenario.rt0 (rnd Scenario.w0) < 0.8)
    by reflexivity.
  assert (H2 : Monster.isBoss Scenario.boss0 = true) by reflexivity.
  split; [split; assumption |].
  destruct (proj2 (dropLoot_by_tier Scenario.rt0 Scenario.boss0 Scenario.w0)
              H1)
    as (l & e & Hl & _ & He & _ & Hq & _ & Hb & _).
  exists l, e. split; [exact Hl |]. split; [exact He |].
  split; [exact Hq | exact (Hb H2)].
Defined.

(** ** Monsters and the spawner *)

(** X18: the stats that the Monster constructor computes grow with the
    level: of two monsters of the same kind, the one of the higher level
    has at least the maxHealth, attack, defense and experience reward of
    the other.  A new monster is at full health and has no target. *)
Theorem Monster_new_monotone (rt : Runtime) (x0 y0 x1 y1 lvl1 lvl2 : Q)
    (elite boss : bool) (w1 w2 : World) :
  lvl1 <= lvl2 ->
  let m1 := fst (Monster.new rt x0 y0 lvl1 elite boss w1) in
  let m2 := fst (Monster.new rt x1 y1 lvl2 elite boss w2) in
  Monster.maxHealth m1 <= Monster.maxHealth m2 /\
  Monster.attack m1 <= Monster.attack m2 /\
  Monster.defense m1 <= Monster.defense m2 /\
  Monster.experienceReward m1 <= Monster.experienceReward m2 /\
  Monster.health m1 = Monster.maxHealth m1 /\ Monster.target m1 = false.
Proof.
  intros Hl. cbv zeta.
  unfold Monster.new, bind, gameUtils.generateId, bind, now, random_draw, ret,
    gameUtils.random, bind, random_draw, ret.
  cbn [fst Monster.maxHealth Monster.attack Monster.defense
       Monster.experienceReward Monster.health Monster.target].
  destruct elite, boss;
    cbn [Monster.baseHealth Monster.baseAttack Monster.baseDefense
         Monster.baseExperience Monster.bossType Monster.eliteType
         Monster.normalType];
    repeat split; try (apply Math_floor_mono; lra).
Qed.

Lemma Monster_new_monotone_witness :
  1 <= 6 /\
  Monster.maxHealth Scenario.monster0 <= Monster.maxHealth Scenario.monster10 /\
  Monster.attack Scenario.monster0 <= Monster.attack Scenario.monster10 /\
  Monster.health Scenario.monster0 = Monster.maxHealth Scenario.monster0.
Proof.
  assert (H : 1 <= 6) by (vm_compute; discriminate).
  split; [exact H |].
  destruct (Monster_new_monotone Scenario.rt0 10 0 10 0 1 6 false false
              Scenario.w0 Scenario.w0 H) as (Hh & Ha & _ & _ & He & _).
  split; [exact Hh |]. split; [exact Ha | exact He].
Defined.

Lemma hasLineOfSight_no_obstacles s e :
  gameUtils.hasLineOfSight_default s e [] = Some true.
Proof.
  unfold gameUtils.hasLineOfSight_default, gameUtils.hasLineOfSight.
  change (Qeq_bool 5 0) with false. cbv iota. f_equal.
  apply negb_true_iff.
  induction (gameUtils.samplePoints s e 5) as [| pt rest IH]; [reflexivity |].
  cbn [existsb gameUtils.blocked]. exact IH.
Qed.

(** X19: [setTarget] takes the player as target exactly when the player is
    within the monster's aggro range, and never drops a target: the line of
    sight is tested against an empty obstacle list, so nothing ever blocks
    it.  Position and health are not touched. *)
Theorem setTarget_within_aggro (player : Player.t) (m : Monster.t) :
  let inRange :=
    gameUtils.sqrt_leb
      (gameUtils.distance2 (Monster.x m) (Monster.y m)
                           (Player.x player) (Player.y player))
      (Monster.aggroRange m) in
  Monster.target (Monster.setTarget player m) = inRange || Monster.target m /\
  Monster.x (Monster.setTarget player m) = Monster.x m /\
  Monster.y (Monster.setTarget player m) = Monster.y m /\
  Monster.health (Monster.setTarget player m) = Monster.health m.
Proof.
  cbv zeta. unfold Monster.setTarget. rewrite hasLineOfSight_no_obstacles.
  destruct (gameUtils.sqrt_leb _ _); cbn; repeat split; reflexivity.
Qed.

(** X20: after [updateDifficulty] the minimum level is at least 1 and, for
    a player level of at least -2, not above the maximum level; the elite
    chance is capped at 0.2 (reached from level 20 on) and the boss chance
    at 0.05 (reached from level 30 on); and all four parameters grow with
    the player's level. *)
Theorem updateDifficulty_bounds (a b : Q) (s s' : MonsterSpawner.t) :
  a <= b ->
  let sa := MonsterSpawner.updateDifficulty a s in
  let sb := MonsterSpawner.updateDifficulty b s' in
  1 <= MonsterSpawner.minLevel sa /\
  MonsterSpawner.eliteChance sa <= 0.2 /\
  MonsterSpawner.bossChance sa <= 0.05 /\
  (-2 <= a -> MonsterSpawner.minLevel sa <= MonsterSpawner.maxLevel sa) /\
  (20 <= a -> MonsterSpawner.eliteChance sa == 0.2) /\
  (30 <= a -> MonsterSpawner.bossChance sa == 0.05) /\
  MonsterSpawner.minLevel sa <= MonsterSpawner.minLevel sb /\
  MonsterSpawner.maxLevel sa <= MonsterSpawner.maxLevel sb /\
  MonsterSpawner.eliteChance sa <= MonsterSpawner.eliteChance sb /\
  MonsterSpawner.bossChance sa <= MonsterSpawner.bossChance sb.
Proof.
  intros Hab. cbv zeta. unfold MonsterSpawner.updateDifficulty.
  cbn [MonsterSpawner.minLevel MonsterSpawner.maxLevel
       MonsterSpawner.eliteChance MonsterSpawner.bossChance].
  repeat split; intros; qminmax; lra.
Qed.

Lemma updateDifficulty_bounds_witness :
  let s := MonsterSpawner.new 1 in
  (5 <= 40 /\ 40 <= 40 /\ -2 <= 5 /\ 20 <= 40 /\ 30 <= 40) /\
  MonsterSpawner.minLevel (MonsterSpawner.updateDifficulty 5 s)
  <= MonsterSpawner.maxLevel (MonsterSpawner.updateDifficulty 5 s) /\
  MonsterSpawner.eliteChance (MonsterSpawner.updateDifficulty 5 s)
  <= MonsterSpawner.eliteChance (MonsterSpawner.updateDifficulty 40 s) /\
  MonsterSpawner.eliteChance (MonsterSpawner.updateDifficulty 40 s) == 0.2 /\
  MonsterSpawner.bossChance (MonsterSpawner.updateDifficulty 40 s) == 0.05.
Proof.
  cbv zeta.
  assert (H1 : 5 <= 40) by (vm_compute; discriminate).
  assert (H2 : 40 <= 40) by (vm_compute; discriminate).
  assert (H3 : -2 <= 5) by (vm_compute; discriminate).
  assert (H4 : 20 <= 40) by (vm_compute; discriminate).
  assert (H5 : 30 <= 40) by (vm_compute; discriminate).
  split; [repeat split; assumption |].
  destruct (updateDifficulty_bounds 5 40 (MonsterSpawner.new 1)
              (MonsterSpawner.new 1) H1)
    as (_ & _ & _ & Hm & _ & _ & _ & _ & He & _).
  destruct (updateDifficulty_bounds 40 40 (MonsterSpawner.new 1)
              (MonsterSpawner.new 1) H2)
    as (_ & _ & _ & _ & Hce & Hcb & _).
  split; [exact (Hm H3) |]. split; [exact He |].
  split; [exact (Hce H4) | exact (Hcb H5)].
Defined.

Lemma Monster_new_fields rt x0 y0 lvl elite boss w :
  let m := fst (Monster.new rt x0 y0 lvl elite boss w) in
  Monster.level m = lvl /\ Monster.isElite m = elite /\
  Monster.isBoss m = boss /\ Monster.health m = Monster.maxHealth m /\
  Monster.x m = x0 /\ Monster.y m = y0.
Proof.
  cbv zeta.
  unfold Monster.new, bind, gameUtils.generateId, bind, now, random_draw, ret,
    gameUtils.random, bind, random_draw, ret.
  cbn. repeat split; reflexivity.
Qed.

(** [spawnMonster] with its draws written out. *)
Lemma spawnMonster_eq rt x0 y0 (s : MonsterSpawner.t) (w : World) :
  MonsterSpawner.spawnMonster rt x0 y0 s w =
  let w1 := {| heap := heap w; rnd := S (rnd w); clk := clk w |} in
  if JS.ltb (Math_random rt (rnd w)) (MonsterSpawner.bossChance s) then
    Monster.new rt x0 y0
      (MonsterSpawner.maxLevel s + fst (gameUtils.randomInt rt 0 2 w1))
      false true (snd (gameUtils.randomInt rt 0 2 w1))
  else
    let w2 := {| heap := heap w; rnd := S (S (rnd w)); clk := clk w |} in
    Monster.new rt x0 y0
      (fst (gameUtils.randomInt rt (MonsterSpawner.minLevel s)
              (MonsterSpawner.maxLevel s) w2))
      (JS.ltb (Math_random rt (S (rnd w))) (MonsterSpawner.eliteChance s))
      false
      (snd (gameUtils.randomInt rt (MonsterSpawner.minLevel s)
              (MonsterSpawner.maxLevel s) w2)).
Proof.
  unfold MonsterSpawner.spawnMonster, bind, random_draw, ret.
  cbn [rnd heap clk].
  destruct (JS.ltb (Math_random rt (rnd w)) (MonsterSpawner.bossChance s)).
  - cbv zeta. destruct (gameUtils.randomInt rt 0 2 _); reflexivity.
  - cbv zeta. destruct (gameUtils.randomInt rt _ _ _); reflexivity.
Qed.

(** X21: [spawnMonster] makes a boss exactly when the first draw is below
    the boss chance, and a boss is never also elite.  With draws in
    [[0, 1)] and level bounds a whole number apart, a monster that is not
    a boss has its level in [[minLevel, maxLevel]] and a boss in
    [[maxLevel, maxLevel + 2]].  The monster is placed at the given point,
    at full health. *)
Theorem spawnMonster_kind_and_level (rt : Runtime) (x0 y0 : Q)
    (s : MonsterSpawner.t) (k : Z) (w : World) :
  valid_random rt -> (0 <= k)%Z ->
  MonsterSpawner.maxLevel s - MonsterSpawner.minLevel s == inject_Z k ->
  let m := fst (MonsterSpawner.spawnMonster rt x0 y0 s w) in
  (Monster.isBoss m = true <->
   Math_random rt (rnd w) < MonsterSpawner.bossChance s) /\
  (Monster.isBoss m = true -> Monster.isElite m = false) /\
  (Monster.isBoss m = false ->
   MonsterSpawner.minLevel s <= Monster.level m /\
   Monster.level m <= MonsterSpawner.maxLevel s) /\
  (Monster.isBoss m = true ->
   MonsterSpawner.maxLevel s <= Monster.level m /\
   Monster.level m <= MonsterSpawner.maxLevel s + 2) /\
  Monster.x m = x0 /\ Monster.y m = y0 /\
  Monster.health m = Monster.maxHealth m.
Proof.
  intros Hv Hk Hd. cbv zeta. rewrite spawnMonster_eq. cbv zeta.
  destruct (JS.ltb (Math_random rt (rnd w)) (MonsterSpawner.bossChance s))
    eqn:Eb.
  - match goal with
    | |- context [Monster.new rt x0 y0 ?l ?e ?b ?w2] =>
        destruct (Monster_new_fields rt x0 y0 l e b w2)
          as (Hl & He & Hbo & Hh & Hx & Hy)
    end.
    rewrite Hl, He, Hbo, Hh, Hx, Hy.
    destruct (randomInt_bounds rt 0 2 2
                {| heap := heap w; rnd := S (rnd w); clk := clk w |} Hv)
      as (j & _ & _ & Hlo & Hhi); [lia | vm_compute; reflexivity |].
    apply ltb_lt in Eb.
    repeat split; try reflexivity; try discriminate; try assumption;
      intros; lra.
  - match goal with
    | |- context [Monster.new rt x0 y0 ?l ?e ?b ?w2] =>
        destruct (Monster_new_fields rt x0 y0 l e b w2)
          as (Hl & He & Hbo & Hh & Hx & Hy)
    end.
    rewrite Hl, He, Hbo, Hh, Hx, Hy.
    destruct (randomInt_bounds rt _ _ k
                {| heap := heap w; rnd := S (S (rnd w)); clk := clk w |}
                Hv Hk Hd) as (j & _ & _ & Hlo & Hhi).
    apply ltb_ge in Eb.
    repeat split; try reflexivity; try discriminate; try assumption.
    intros H. lra.
Qed.

Lemma spawnMonster_kind_and_level_witness :
  let s := MonsterSpawner.new 1 in
  let m := fst (MonsterSpawner.spawnMonster Scenario.rt0 700 0 s Scenario.w0) in
  (valid_random Scenario.rt0 /\ (0 <= 2)%Z /\
   MonsterSpawner.maxLevel s - MonsterSpawner.minLevel s == inject_Z 2 /\
   Monster.isBoss m = false) /\
  1 <= Monster.level m /\ Monster.level m <= 1 + 2 /\
  Monster.x m = 700 /\ Monster.health m = Monster.maxHealth m.
Proof.
  cbv zeta.
  assert (Hk : (0 <= 2)%Z) by lia.
  assert (Hd : MonsterSpawner.maxLevel (MonsterSpawner.new 1)
               - MonsterSpawner.minLevel (MonsterSpawner.new 1)
               == inject_Z 2) by reflexivity.
  assert (Hb : Monster.isBoss
                 (fst (MonsterSpawner.spawnMonster Scenario.rt0 700 0
                         (MonsterSpawner.new 1) Scenario.w0)) = false)
    by reflexivity.
  split; [repeat split; first [exact rt0_valid | assumption] |].
  destruct (spawnMonster_kind_and_level Scenario.rt0 700 0
              (MonsterSpawner.new 1) 2 Scenario.w0 rt0_valid Hk Hd)
    as (_ & _ & Hn & _ & Hx & _ & Hh).
  destruct (Hn Hb) as [Hlo Hhi].
  split; [exact Hlo |]. split; [exact Hhi |]. split; [exact Hx | exact Hh].
Defined.

(** ** Chunks and the map *)

Lemma frac_range (x : Q) : 0 <= JS.frac x /\ JS.frac x < 1.
Proof.
  unfold JS.frac, JS.Math_floor.
  pose proof (Qfloor_le x) as H. pose proof (Qlt_floor x) as H0.
  rewrite inject_Z_plus in H0. change (inject_Z 1) with 1 in H0. split; lra.
Qed.

(** Every value of [rng()] lies in [[0, 1)], whatever the sine is. *)
Lemma rng_range rt chunkSeed (w : World) :
  0 <= fst (Chunk.rng rt chunkSeed w) /\ fst (Chunk.rng rt chunkSeed w) < 1.
Proof.
  unfold Chunk.rng, bind, random_draw, ret, Chunk.simpleRandom. cbn [fst].
  apply frac_range.
Qed.

Lemma generateObstacle_ok rt chunkSeed worldX worldY (w : World) :
  Spec.obstacleOk worldX worldY
    (fst (Chunk.generateObstacle rt chunkSeed worldX worldY w)).
Proof.
  unfold Chunk.generateObstacle.
  unfold bind at 1. destruct (Chunk.rng rt chunkSeed w) as [rx w1] eqn:E1.
  unfold bind at 1. destruct (Chunk.rng rt chunkSeed w1) as [ry w2] eqn:E2.
  unfold bind at 1. destruct (Chunk.rng rt chunkSeed w2) as [rt0 w3] eqn:E3.
  pose proof (rng_range rt chunkSeed w) as Hx. rewrite E1 in Hx.
  pose proof (rng_range rt chunkSeed w1) as Hy. rewrite E2 in Hy.
  cbn [fst] in Hx, Hy. unfold Chunk.CHUNK_SIZE in *.
  destruct (Chunk.pickType (Qfloor (rt0 * 3))) eqn:Et.
  - unfold bind at 1. unfold bind at 1.
    destruct (Chunk.rng rt chunkSeed w3) as [rw w4] eqn:E4.
    unfold bind at 1. destruct (Chunk.rng rt chunkSeed w4) as [rh w5] eqn:E5.
    pose proof (rng_range rt chunkSeed w3) as Hw. rewrite E4 in Hw.
    pose proof (rng_range rt chunkSeed w4) as Hh. rewrite E5 in Hh.
    cbn [fst] in Hw, Hh.
    unfold ret at 1.
    unfold bind, gameUtils.generateId, bind, now, random_draw, ret.
    cbn. unfold Spec.obstacleOk. cbn. unfold Chunk.CHUNK_SIZE.
    repeat split; try reflexivity; lra.
  - unfold bind at 1. unfold bind at 1.
    destruct (Chunk.rng rt chunkSeed w3) as [rw w4] eqn:E4.
    unfold bind at 1. destruct (Chunk.rng rt chunkSeed w4) as [rh w5] eqn:E5.
    pose proof (rng_range rt chunkSeed w3) as Hw. rewrite E4 in Hw.
    pose proof (rng_range rt chunkSeed w4) as Hh. rewrite E5 in Hh.
    cbn [fst] in Hw, Hh.
    unfold ret at 1.
    unfold bind, gameUtils.generateId, bind, now, random_draw, ret.
    cbn. unfold Spec.obstacleOk. cbn. unfold Chunk.CHUNK_SIZE.
    repeat split; try reflexivity; lra.
  - unfold bind at 1. unfold bind at 1.
    destruct (Chunk.rng rt chunkSeed w3) as [rw w4] eqn:E4.
    pose proof (rng_range rt chunkSeed w3) as Hw. rewrite E4 in Hw.
    cbn [fst] in Hw.
    unfold ret at 1.
    unfold bind, gameUtils.generateId, bind, now, random_draw, ret.
    cbn. unfold Spec.obstacleOk. cbn. unfold Chunk.CHUNK_SIZE.
    repeat split; try reflexivity; lra.
Qed.

Lemma generateLoop_ok rt (n : nat) :
  forall chunkSeed worldX worldY acc (w : World),
    Forall (Spec.obstacleOk worldX worldY) acc ->
    Forall (Spec.obstacleOk worldX worldY)
      (fst (Chunk.generateLoop rt n chunkSeed worldX worldY acc w)).
Proof.
  induction n as [| n IH]; intros chunkSeed worldX worldY acc w Hacc.
  - exact Hacc.
  - cbn [Chunk.generateLoop]. unfold bind.
    pose proof (generateObstacle_ok rt chunkSeed worldX worldY w) as Ho.
    destruct (Chunk.generateObstacle rt chunkSeed worldX worldY w) as [o w1].
    apply IH. apply Forall_app. split; [exact Hacc |].
    constructor; [exact Ho | constructor].
Qed.

Lemma obstacleCount_range rt chunkSeed (w : World) :
  (5 <= fst (Chunk.obstacleCount rt chunkSeed w) <= 19)%Z.
Proof.
  unfold Chunk.obstacleCount, bind, ret.
  pose proof (rng_range rt chunkSeed w) as [H0 H1].
  destruct (Chunk.rng rt chunkSeed w) as [r w1]. cbn [fst] in *.
  assert (Hr : (0 <= Qfloor (r * 15) <= 14)%Z).
  { apply Qfloor_range; [lra |]. change (inject_Z (14 + 1)) with 15. lra. }
  lia.
Qed.

Lemma generate_wellformed (rt : Runtime) (seed : Q) (c : Chunk.t)
    (w : World) :
  Chunk.generated c = false -> Chunk.obstacles c = [] ->
  let c' := fst (Chunk.generate rt seed c w) in
  (5 <= length (Chunk.obstacles c') <= 19)%nat /\
  Forall (Spec.obstacleOk (Chunk.x c * Chunk.CHUNK_SIZE)
                          (Chunk.y c * Chunk.CHUNK_SIZE))
         (Chunk.obstacles c') /\
  Forall (fun o => Chunk.containsPoint (Chunk.ox o) (Chunk.oy o) c' = true)
         (Chunk.obstacles c') /\
  Chunk.x c' = Chunk.x c /\ Chunk.y c' = Chunk.y c /\
  Chunk.id c' = Chunk.id c.
Proof.
  intros Hg Hobs. cbv zeta.
  pose proof (generate_count rt seed c w Hg Hobs) as Hlen.
  pose proof (obstacleCount_range rt
                (seed + Chunk.x c * 10000 + Chunk.y c * 100) w) as Hc.
  assert (Hok : Forall (Spec.obstacleOk (Chunk.x c * Chunk.CHUNK_SIZE)
                                        (Chunk.y c * Chunk.CHUNK_SIZE))
                  (Chunk.obstacles (fst (Chunk.generate rt seed c w))) /\
                Chunk.x (fst (Chunk.generate rt seed c w)) = Chunk.x c /\
                Chunk.y (fst (Chunk.generate rt seed c w)) = Chunk.y c /\
                Chunk.id (fst (Chunk.generate rt seed c w)) = Chunk.id c).
  { unfold Chunk.generate. rewrite Hg. unfold bind.
    destruct (Chunk.obstacleCount rt _ w) as [count w1].
    pose proof (generateLoop_ok rt (Z.to_nat count)
                  (seed + Chunk.x c * 10000 + Chunk.y c * 100)
                  (Chunk.x c * Chunk.CHUNK_SIZE) (Chunk.y c * Chunk.CHUNK_SIZE)
                  (Chunk.obstacles c) w1) as H.
    rewrite Hobs in *. specialize (H ltac:(constructor)).
    destruct (Chunk.generateLoop rt _ _ _ _ [] w1) as [obs w2].
    cbn. auto. }
  destruct Hok as (Hok & Hx & Hy & Hi).
  split; [lia |]. split; [exact Hok |]. split; [| auto].
  eapply Forall_impl; [exact Hok |].
  intros o (H1 & H2 & H3 & H4 & _). unfold Chunk.containsPoint.
  rewrite Hx, Hy.
  apply andb_true_iff; split;
    [apply andb_true_iff; split; [apply andb_true_iff; split |] |].
  - apply geb_ge. exact H1.
  - apply ltb_lt. exact H2.
  - apply geb_ge. exact H3.
  - apply ltb_lt. exact H4.
Qed.

(** X22: generating a fresh chunk gives between 5 and 19 obstacles (the
    count is [floor(rng() * 15) + 5] with [rng() < 1]), whatever the seed,
    the draws and the sine are.  Every obstacle has its corner inside the
    chunk ([containsPoint] holds of it), is solid and at full health, and
    has the maximum health (100, 200, 500) and the size range of its type.
    The chunk keeps its identifier and coordinates. *)
Theorem generate_obstacles_wellformed (rt : Runtime) (seed : Q) (c : Chunk.t)
    (w : World) :
  Chunk.generated c = false -> Chunk.obstacles c = [] ->
  let c' := fst (Chunk.generate rt seed c w) in
  (5 <= length (Chunk.obstacles c') <= 19)%nat /\
  Forall (Spec.obstacleOk (Chunk.x c * Chunk.CHUNK_SIZE)
                          (Chunk.y c * Chunk.CHUNK_SIZE))
         (Chunk.obstacles c') /\
  Forall (fun o => Chunk.containsPoint (Chunk.ox o) (Chunk.oy o) c' = true)
         (Chunk.obstacles c') /\
  Chunk.x c' = Chunk.x c /\ Chunk.y c' = Chunk.y c /\
  Chunk.id c' = Chunk.id c.
Proof. exact (generate_wellformed rt seed c w). Qed.

Lemma generate_obstacles_wellformed_witness :
  let c := Scenario.chunkSE in
  let c' := fst (Chunk.generate Scenario.rt0 7 c Scenario.w0) in
  (Chunk.generated c = false /\ Chunk.obstacles c = []) /\
  (5 <= length (Chunk.obstacles c') <= 19)%nat /\
  Forall (Spec.obstacleOk (Chunk.x c * Chunk.CHUNK_SIZE)
                          (Chunk.y c * Chunk.CHUNK_SIZE))
         (Chunk.obstacles c') /\
  Forall (fun o => Chunk.containsPoint (Chunk.ox o) (Chunk.oy o) c' = true)
         (Chunk.obstacles c').
Proof.
  cbv zeta.
  assert (Hg : Chunk.generated Scenario.chunkSE = false) by reflexivity.
  assert (Ho : Chunk.obstacles Scenario.chunkSE = []) by reflexivity.
  split; [split; assumption |].
  destruct (generate_obstacles_wellformed Scenario.rt0 7 Scenario.chunkSE
              Scenario.w0 Hg Ho) as (Hn & Hok & Hcp & _).
  split; [exact Hn |]. split; [exact Hok | exact Hcp].
Defined.

Lemma Qfloor_div_iff (p : Q) (z : Z) :
  Qfloor (p / 500) = z <->
  inject_Z z * 500 <= p /\ p < inject_Z z * 500 + 500.
Proof.
  assert (Hp : p == (p / 500) * 500) by field.
  set (q := p / 500) in *. split.
  - intros <-. pose proof (Qfloor_le q) as H. pose proof (Qlt_floor q) as H0.
    rewrite inject_Z_plus in H0. change (inject_Z 1) with 1 in H0.
    split; lra.
  - intros [H1 H2]. apply Qfloor_eq.
    + lra.
    + rewrite inject_Z_plus. change (inject_Z 1) with 1. lra.
Qed.

Lemma containsPoint_iff (px py : Q) (c : Chunk.t) (cx cy : Z) :
  Chunk.x c == inject_Z cx -> Chunk.y c == inject_Z cy ->
  (Chunk.containsPoint px py c = true <->
   MapGenerator.getChunkCoordinates px py = (cx, cy)).
Proof.
  intros Hx Hy.
  unfold Chunk.containsPoint, MapGenerator.getChunkCoordinates,
    Chunk.CHUNK_SIZE.
  rewrite !andb_true_iff, !geb_ge, !ltb_lt. split.
  - intros [[[H1 H2] H3] H4]. f_equal; apply Qfloor_div_iff; split; lra.
  - intros [= E1 E2]. apply Qfloor_div_iff in E1, E2. lra.
Qed.

(** X23: a chunk with whole coordinates [(cx, cy)] contains the point
    [(px, py)] exactly when [getChunkCoordinates(px, py)] is [(cx, cy)]:
    the chunks tile the plane, each point being in the one chunk that the
    map generator looks up for it. *)
Theorem containsPoint_iff_chunk_coordinates (px py : Q) (c : Chunk.t)
    (cx cy : Z) :
  Chunk.x c == inject_Z cx -> Chunk.y c == inject_Z cy ->
  (Chunk.containsPoint px py c = true <->
   MapGenerator.getChunkCoordinates px py = (cx, cy)).
Proof. exact (containsPoint_iff px py c cx cy). Qed.

Lemma containsPoint_iff_chunk_coordinates_witness :
  (Chunk.x Scenario.chunkSE == inject_Z 1 /\
   Chunk.y Scenario.chunkSE == inject_Z (-1) /\
   MapGenerator.getChunkCoordinates 600 (-20) = (1, -1)%Z) /\
  Chunk.containsPoint 600 (-20) Scenario.chunkSE = true.
Proof.
  assert (Hx : Chunk.x Scenario.chunkSE == inject_Z 1) by reflexivity.
  assert (Hy : Chunk.y Scenario.chunkSE == inject_Z (-1)) by reflexivity.
  assert (Hc : MapGenerator.getChunkCoordinates 600 (-20) = (1, -1)%Z)
    by reflexivity.
  split; [repeat split; assumption |].
  exact (proj2 (containsPoint_iff_chunk_coordinates 600 (-20)
                  Scenario.chunkSE 1 (-1) Hx Hy) Hc).
Defined.

Lemma getOrCreateChunk_hit rt cx cy mg w c :
  MapGenerator.chunks mg !! (cx, cy) = Some c ->
  MapGenerator.getOrCreateChunk rt cx cy mg w = (c, mg, w).
Proof.
  intros H. unfold MapGenerator.getOrCreateChunk. rewrite H. reflexivity.
Qed.

Lemma getOrCreateChunk_miss rt cx cy mg w :
  MapGenerator.chunks mg !! (cx, cy) = None ->
  exists c w',
    MapGenerator.getOrCreateChunk rt cx cy mg w
    = (c, MapGenerator.with_chunks
            (<[(cx, cy) := c]> (MapGenerator.chunks mg)) mg, w')
    /\ Chunk.x c = inject_Z cx /\ Chunk.y c = inject_Z cy
    /\ Chunk.generated c = true.
Proof.
  intros H. unfold MapGenerator.getOrCreateChunk. rewrite H.
  unfold bind at 1.
  destruct (Chunk.new rt (inject_Z cx) (inject_Z cy) w) as [c0 w1] eqn:E0.
  assert (H0 : Chunk.x c0 = inject_Z cx /\ Chunk.y c0 = inject_Z cy /\
               Chunk.generated c0 = false /\ Chunk.obstacles c0 = []).
  { unfold Chunk.new, bind, gameUtils.generateId, bind, now, random_draw,
      ret in E0.
    injection E0 as <- _. cbn. auto. }
  destruct H0 as (Hx & Hy & Hg & Ho).
  unfold bind. unfold ret.
  pose proof (generate_generated rt (MapGenerator.seed mg) c0 w1) as Hgen.
  pose proof (generate_wellformed rt (MapGenerator.seed mg) c0 w1 Hg Ho)
    as Hwf.
  cbv zeta in Hwf.
  destruct (Chunk.generate rt (MapGenerator.seed mg) c0 w1) as [c w2].
  cbn [fst] in *. destruct Hwf as (_ & _ & _ & Hx' & Hy' & _).
  exists c, w2. split; [reflexivity |]. repeat split; congruence.
Qed.

(** X24: after [getOrCreateChunk(cx, cy)] the table holds the returned
    chunk under [(cx, cy)] and every other entry is as before.  A chunk
    that was already there is returned as it is, with no draw and no new
    chunk; otherwise the new chunk is generated, carries the coordinates
    [(cx, cy)] and contains its own origin.  A second call returns the same
    chunk and changes nothing. *)
Theorem getOrCreateChunk_lookup (rt : Runtime) (cx cy : Z)
    (mg : MapGenerator.t) (w : World) :
  let r := MapGenerator.getOrCreateChunk rt cx cy mg w in
  let c := fst (fst r) in
  let mg' := snd (fst r) in
  MapGenerator.chunks mg' !! (cx, cy) = Some c /\
  (forall k, k <> (cx, cy) ->
     MapGenerator.chunks mg' !! k = MapGenerator.chunks mg !! k) /\
  (forall c0, MapGenerator.chunks mg !! (cx, cy) = Some c0 ->
     c = c0 /\ mg' = mg /\ snd r = w) /\
  (MapGenerator.chunks mg !! (cx, cy) = None ->
   Chunk.generated c = true /\ Chunk.x c = inject_Z cx /\
   Chunk.y c = inject_Z cy /\
   Chunk.containsPoint (inject_Z cx * 500) (inject_Z cy * 500) c = true) /\
  MapGenerator.getOrCreateChunk rt cx cy mg' (snd r) = (c, mg', snd r).
Proof.
  cbv zeta. destruct (MapGenerator.chunks mg !! (cx, cy)) as [c0 |] eqn:E.
  - rewrite (getOrCreateChunk_hit rt cx cy mg w c0 E). cbn [fst snd].
    split; [exact E |]. split; [reflexivity |].
    split; [intros ? [= <-]; auto |]. split; [discriminate |].
    apply getOrCreateChunk_hit. exact E.
  - destruct (getOrCreateChunk_miss rt cx cy mg w E)
      as (c & w' & Er & Hx & Hy & Hg).
    rewrite Er. cbn [fst snd MapGenerator.chunks MapGenerator.with_chunks].
    split; [apply lookup_insert_eq |].
    split; [intros k Hk; apply lookup_insert_ne; congruence |].
    split; [discriminate |]. split.
    + intros _. split; [exact Hg |]. split; [exact Hx |].
      split; [exact Hy |].
      apply (containsPoint_iff _ _ c cx cy);
        [rewrite Hx; reflexivity | rewrite Hy; reflexivity |].
      unfold MapGenerator.getChunkCoordinates, Chunk.CHUNK_SIZE.
      f_equal; apply Qfloor_div_iff; split; lra.
    + apply getOrCreateChunk_hit. cbn. apply lookup_insert_eq.
Qed.

Lemma getOrCreateChunk_lookup_witness :
  let r := MapGenerator.getOrCreateChunk Scenario.rt0 1 (-1) Scenario.map0
             Scenario.w0 in
  MapGenerator.chunks Scenario.map0 !! (1, -1)%Z = None /\
  MapGenerator.chunks (snd (fst r)) !! (1, -1)%Z = Some (fst (fst r)) /\
  Chunk.generated (fst (fst r)) = true /\
  Chunk.x (fst (fst r)) = inject_Z 1 /\
  MapGenerator.getOrCreateChunk Scenario.rt0 1 (-1) (snd (fst r)) (snd r)
  = r.
Proof.
  cbv zeta.
  assert (Hn : MapGenerator.chunks Scenario.map0 !! (1, -1)%Z = None)
    by reflexivity.
  split; [exact Hn |].
  destruct (getOrCreateChunk_lookup Scenario.rt0 1 (-1) Scenario.map0
              Scenario.w0) as (Hl & _ & _ & Hnew & Hagain).
  destruct (Hnew Hn) as (Hg & Hx & _).
  split; [exact Hl |]. split; [exact Hg |]. split; [exact Hx |].
  rewrite Hagain.
  destruct (MapGenerator.getOrCreateChunk Scenario.rt0 1 (-1) Scenario.map0
              Scenario.w0) as [[c mg'] w']. reflexivity.
Defined.

Lemma cells_elem (x0 x1 y0 y1 a b : Z) :
  (a, b) ∈ MapGenerator.cells x0 x1 y0 y1 <->
  (x0 <= a <= x1)%Z /\ (y0 <= b <= y1)%Z.
Proof.
  unfold MapGenerator.cells. rewrite list_elem_of_In, in_flat_map. split.
  - intros (cx & Hcx & Hin).
    apply in_map_iff in Hin as (cy & [= <- <-] & Hcy).
    apply list_elem_of_In, elem_of_seqZ in Hcx, Hcy. lia.
  - intros [Ha Hb]. exists a. split.
    + apply list_elem_of_In, elem_of_seqZ. lia.
    + apply in_map_iff. exists b. split; [reflexivity |].
      apply list_elem_of_In, elem_of_seqZ. lia.
Qed.

Lemma cells_length (x0 x1 y0 y1 : Z) :
  length (MapGenerator.cells x0 x1 y0 y1)
  = (Z.to_nat (x1 - x0 + 1) * Z.to_nat (y1 - y0 + 1))%nat.
Proof.
  unfold MapGenerator.cells.
  rewrite <- (length_seqZ x0 (x1 - x0 + 1)).
  induction (seqZ x0 (x1 - x0 + 1)) as [| a l IH]; [reflexivity |].
  cbn [flat_map length]. rewrite length_app, length_map, length_seqZ, IH.
  lia.
Qed.

(** The creation loop: the table stays well formed, keeps what it had,
    gains every visited cell and nothing else. *)
Lemma createAll_spec rt (cs : list (Z * Z)) :
  forall (mg : MapGenerator.t) (w : World),
    Spec.tableOk mg ->
    let mg' := fst (MapGenerator.createAll rt cs mg w) in
    Spec.tableOk mg' /\
    (forall k c, MapGenerator.chunks mg !! k = Some c ->
                 MapGenerator.chunks mg' !! k = Some c) /\
    (forall k, k ∈ cs -> is_Some (MapGenerator.chunks mg' !! k)) /\
    (forall k, is_Some (MapGenerator.chunks mg' !! k) ->
               is_Some (MapGenerator.chunks mg !! k) \/ k ∈ cs) /\
    MapGenerator.activeChunkRadius mg' = MapGenerator.activeChunkRadius mg.
Proof.
  induction cs as [| [cx cy] rest IH]; intros mg w Hok; cbv zeta.
  - cbn. split; [exact Hok |]. split; [auto |].
    split; [intros k Hk; inversion Hk |]. split; [auto | reflexivity].
  - cbn [MapGenerator.createAll]. unfold bind.
    destruct (MapGenerator.chunks mg !! (cx, cy)) as [c0 |] eqn:E.
    + rewrite (getOrCreateChunk_hit rt cx cy mg w c0 E). cbn [snd fst].
      destruct (IH mg w Hok) as (H1 & H2 & H3 & H4 & H5).
      split; [exact H1 |]. split; [exact H2 |].
      split; [| split; [| exact H5]].
      * intros k Hk. apply elem_of_cons in Hk as [-> | Hk]; [| auto].
        exists c0. apply H2. exact E.
      * intros k Hk. destruct (H4 k Hk) as [? | ?]; [left; assumption |].
        right. apply elem_of_cons. right. assumption.
    + destruct (getOrCreateChunk_miss rt cx cy mg w E)
        as (c & w' & Er & Hx & Hy & Hg).
      rewrite Er. cbn [snd fst].
      set (mg1 := MapGenerator.with_chunks _ mg).
      assert (Hok1 : Spec.tableOk mg1).
      { intros kx ky c1 Hl. subst mg1. cbn in Hl.
        destruct (decide ((kx, ky) = (cx, cy))) as [[= -> ->] | Hne].
        - rewrite lookup_insert_eq in Hl. injection Hl as <-. auto.
        - rewrite lookup_insert_ne in Hl by congruence.
          apply (Hok kx ky c1 Hl). }
      destruct (IH mg1 w' Hok1) as (H1 & H2 & H3 & H4 & H5).
      split; [exact H1 |]. split; [| split; [| split; [| exact H5]]].
      * intros k c1 Hk. apply H2. subst mg1. cbn.
        rewrite lookup_insert_ne; [exact Hk |]. intros <-. congruence.
      * intros k Hk. apply elem_of_cons in Hk as [-> | Hk]; [| auto].
        exists c. apply H2. subst mg1. cbn. apply lookup_insert_eq.
      * intros k Hk. destruct (H4 k Hk) as [Hs | ?].
        -- subst mg1. cbn in Hs.
           destruct (decide (k = (cx, cy))) as [-> | Hne].
           ++ right. apply elem_of_cons. left. reflexivity.
           ++ rewrite lookup_insert_ne in Hs by congruence. left. exact Hs.
        -- right. apply elem_of_cons. right. assumption.
Qed.

Lemma Qabs_inject_le (a b m : Z) :
  Qabs (inject_Z a - inject_Z b) <= inject_Z m <-> (Z.abs (a - b) <= m)%Z.
Proof.
  rewrite Qabs_Qle_condition.
  assert (E : inject_Z a - inject_Z b == inject_Z (a - b)).
  { unfold Zminus. rewrite inject_Z_plus, inject_Z_opp. reflexivity. }
  rewrite E. rewrite <- inject_Z_opp. rewrite <- !Zle_Qle. lia.
Qed.

Lemma distant_false (cx cy r kx ky : Z) (c : Chunk.t) :
  Chunk.x c = inject_Z kx -> Chunk.y c = inject_Z ky ->
  (MapGenerator.distant cx cy r c = false <->
   (Z.abs (kx - cx) <= r + 1)%Z /\ (Z.abs (ky - cy) <= r + 1)%Z).
Proof.
  intros Hx Hy. unfold MapGenerator.distant. rewrite Hx, Hy.
  rewrite orb_false_iff, !ltb_ge, !Qabs_inject_le. reflexivity.
Qed.

Lemma cleanup_lookup (cx cy : Z) (mg : MapGenerator.t) k c :
  MapGenerator.chunks (MapGenerator.cleanupDistantChunks cx cy mg) !! k
  = Some c
  <-> MapGenerator.chunks mg !! k = Some c /\
      MapGenerator.distant cx cy (MapGenerator.activeChunkRadius mg) c
      = false.
Proof.
  unfold MapGenerator.cleanupDistantChunks.
  cbn [MapGenerator.chunks MapGenerator.with_chunks].
  rewrite map_lookup_filter_Some. reflexivity.
Qed.

Lemma size_list_to_set_le (l : list (Z * Z)) :
  (size (list_to_set l : gset (Z * Z)) <= length l)%nat.
Proof.
  induction l as [| a l IH]; [rewrite list_to_set_nil, size_empty; lia |].
  rewrite list_to_set_cons. cbn [length].
  pose proof (size_union_alt ({[a]} : gset (Z * Z)) (list_to_set l)) as H.
  rewrite H. rewrite size_singleton.
  assert (size (list_to_set l ∖ {[a]} : gset (Z * Z))
          <= size (list_to_set l : gset (Z * Z)))%nat.
  { apply subseteq_size. apply subseteq_difference_l. reflexivity. }
  lia.
Qed.

(** X25: [updateActiveChunks] on a well-formed table, with [r] the active
    radius and [center] the chunk of the given point: afterwards every
    chunk within [r] of the center (on both axes) is in the table; every
    chunk in the table is within [r + 1] of the center, so the table holds
    at most [(2r + 3)^2] chunks; and a chunk that was in the table within
    [r + 1] of the center is kept as it is, not generated again.  The
    table stays well formed. *)
Theorem updateActiveChunks_window (rt : Runtime) (centerX centerY : Q)
    (mg : MapGenerator.t) (w : World) :
  Spec.tableOk mg ->
  let center := MapGenerator.getChunkCoordinates centerX centerY in
  let r := MapGenerator.activeChunkRadius mg in
  let mg' := fst (MapGenerator.updateActiveChunks rt centerX centerY mg w) in
  Spec.tableOk mg' /\
  (forall kx ky,
     (Z.abs (kx - center.1) <= r)%Z -> (Z.abs (ky - center.2) <= r)%Z ->
     is_Some (MapGenerator.chunks mg' !! (kx, ky))) /\
  (forall kx ky, is_Some (MapGenerator.chunks mg' !! (kx, ky)) ->
     (Z.abs (kx - center.1) <= r + 1)%Z /\
     (Z.abs (ky - center.2) <= r + 1)%Z) /\
  (forall kx ky c, MapGenerator.chunks mg !! (kx, ky) = Some c ->
     (Z.abs (kx - center.1) <= r + 1)%Z ->
     (Z.abs (ky - center.2) <= r + 1)%Z ->
     MapGenerator.chunks mg' !! (kx, ky) = Some c) /\
  (Z.of_nat (size (MapGenerator.chunks mg')) <= (2 * r + 3) * (2 * r + 3))%Z.
Proof.
  intros Hok. cbv zeta. unfold MapGenerator.updateActiveChunks.
  set (center := MapGenerator.getChunkCoordinates centerX centerY).
  set (r := MapGenerator.activeChunkRadius mg).
  unfold bind, ret.
  pose proof (createAll_spec rt
    (MapGenerator.cells (center.1 - r) (center.1 + r)
                        (center.2 - r) (center.2 + r))
    mg w Hok) as Hc. cbv zeta in Hc.
  destruct (MapGenerator.createAll rt _ mg w) as [mg1 w1]. cbn [fst] in *.
  destruct Hc as (Hok1 & Hkeep & Hin & Hout & Hr).
  assert (Htab : Spec.tableOk
                   (MapGenerator.cleanupDistantChunks center.1 center.2 mg1)).
  { intros kx ky c Hl. apply cleanup_lookup in Hl as [Hl _].
    exact (Hok1 kx ky c Hl). }
  assert (Hwin : forall kx ky,
            is_Some (MapGenerator.chunks
                       (MapGenerator.cleanupDistantChunks center.1 center.2
                          mg1) !! (kx, ky)) ->
            (Z.abs (kx - center.1) <= r + 1)%Z /\
            (Z.abs (ky - center.2) <= r + 1)%Z).
  { intros kx ky [c Hl]. apply cleanup_lookup in Hl as [Hl Hd].
    destruct (Hok1 kx ky c Hl) as (Hx & Hy & _).
    rewrite Hr in Hd. apply (distant_false _ _ _ kx ky c Hx Hy) in Hd.
    exact Hd. }
  split; [exact Htab |]. split; [| split; [exact Hwin | split]].
  - intros kx ky Hx Hy.
    destruct (Hin (kx, ky)) as [c Hl]; [apply cells_elem; lia |].
    exists c. apply cleanup_lookup. split; [exact Hl |].
    destruct (Hok1 kx ky c Hl) as (Hcx & Hcy & _). rewrite Hr.
    apply (distant_false _ _ _ kx ky c Hcx Hcy). fold r. lia.
  - intros kx ky c Hl Hx Hy. apply cleanup_lookup.
    split; [apply Hkeep; exact Hl |].
    destruct (Hok kx ky c Hl) as (Hcx & Hcy & _). rewrite Hr.
    apply (distant_false _ _ _ kx ky c Hcx Hcy). fold r. lia.
  - set (m' := MapGenerator.chunks
                 (MapGenerator.cleanupDistantChunks center.1 center.2 mg1))
      in *.
    destruct (Z_lt_le_dec r (-1)) as [Hneg | Hpos].
    + assert (He : m' = ∅).
      { apply map_empty. intros [kx ky].
        destruct (m' !! (kx, ky)) eqn:E; [| reflexivity].
        destruct (Hwin kx ky) as [? _]; [eauto |]. lia. }
      rewrite He, map_size_empty. nia.
    + rewrite <- size_dom.
      set (box := MapGenerator.cells
                    (center.1 - (r + 1)) (center.1 + (r + 1))
                    (center.2 - (r + 1)) (center.2 + (r + 1))).
      assert (Hsub : dom m' ⊆ (list_to_set box : gset (Z * Z))).
      { intros [kx ky] Hk. apply elem_of_dom in Hk.
        apply elem_of_list_to_set. apply cells_elem.
        destruct (Hwin kx ky Hk). lia. }
      apply subseteq_size in Hsub.
      pose proof (size_list_to_set_le box) as Hle.
      subst box. rewrite cells_length in Hle.
      assert (Hn : (Z.to_nat (center.1 + (r + 1) - (center.1 - (r + 1)) + 1)
                    = Z.to_nat (2 * r + 3))%nat) by (f_equal; lia).
      assert (Hn2 : (Z.to_nat (center.2 + (r + 1) - (center.2 - (r + 1)) + 1)
                     = Z.to_nat (2 * r + 3))%nat) by (f_equal; lia).
      rewrite Hn, Hn2 in Hle. nia.
Qed.

Lemma updateActiveChunks_window_witness :
  let mg' := fst (MapGenerator.updateActiveChunks Scenario.rt0 250 250
                    Scenario.map0 Scenario.w0) in
  Spec.tableOk Scenario.map0 /\
  Spec.tableOk mg' /\
  is_Some (MapGenerator.chunks mg' !! (2, -2)%Z) /\
  (Z.of_nat (size (MapGenerator.chunks mg')) <= 49)%Z.
Proof.
  cbv zeta.
  assert (Hok : Spec.tableOk Scenario.map0).
  { intros cx cy c H. cbn in H. rewrite lookup_empty in H. discriminate. }
  split; [exact Hok |].
  destruct (updateActiveChunks_window Scenario.rt0 250 250 Scenario.map0
              Scenario.w0 Hok) as (Ht & Hin & _ & _ & Hsz).
  split; [exact Ht |]. split; [| exact Hsz].
  apply Hin; apply Z.leb_le; reflexivity.
Defined.

Lemma getOrCreateChunk_extends rt cx cy mg w :
  let r := MapGenerator.getOrCreateChunk rt cx cy mg w in
  MapGenerator.chunks (snd (fst r)) !! (cx, cy) = Some (fst (fst r)) /\
  (forall k c, MapGenerator.chunks mg !! k = Some c ->
               MapGenerator.chunks (snd (fst r)) !! k = Some c).
Proof.
  cbv zeta. destruct (MapGenerator.chunks mg !! (cx, cy)) as [c0 |] eqn:E.
  - rewrite (getOrCreateChunk_hit rt cx cy mg w c0 E). cbn. auto.
  - destruct (getOrCreateChunk_miss rt cx cy mg w E) as (c & w' & Er & _).
    rewrite Er. cbn. split; [apply lookup_insert_eq |].
    intros k c1 Hk. rewrite lookup_insert_ne; [exact Hk |].
    intros <-. congruence.
Qed.

(** The collection loop: what is pushed is what the filter lets through of
    the chunks of the visited cells. *)
Lemma collect_spec rt (cs : list (Z * Z)) (minX minY maxX maxY : Q) :
  forall (acc : list Chunk.Obstacle) (mg : MapGenerator.t) (w : World),
    let r := MapGenerator.collect rt cs minX minY maxX maxY acc mg w in
    let mg' := snd (fst r) in
    (forall o, o ∈ fst (fst r) <->
       o ∈ acc \/
       exists k c, k ∈ cs /\ MapGenerator.chunks mg' !! k = Some c /\
                   o ∈ Chunk.obstacles c /\
                   MapGenerator.inArea minX minY maxX maxY o = true) /\
    (forall k c, MapGenerator.chunks mg !! k = Some c ->
                 MapGenerator.chunks mg' !! k = Some c) /\
    (forall k, k ∈ cs -> is_Some (MapGenerator.chunks mg' !! k)).
Proof.
  induction cs as [| [cx cy] rest IH]; intros acc mg w; cbv zeta.
  - cbn. split; [| split; [auto | intros k Hk; inversion Hk]].
    intros o. split; [auto |].
    intros [H | (k & c & Hk & _)]; [exact H | inversion Hk].
  - cbn [MapGenerator.collect]. unfold bind.
    pose proof (getOrCreateChunk_extends rt cx cy mg w) as [Hc Hext].
    cbv zeta in Hc, Hext.
    destruct (MapGenerator.getOrCreateChunk rt cx cy mg w) as [[c mg1] w1].
    cbn [fst snd] in *.
    specialize (IH (acc ++ List.filter (MapGenerator.inArea minX minY maxX maxY)
                                       (Chunk.getObstacles c)) mg1 w1).
    cbv zeta in IH. destruct IH as (IH1 & IH2 & IH3).
    split; [| split].
    + intros o. rewrite IH1. rewrite elem_of_app. split.
      * intros [[Ha | Hf] | (k & c1 & Hk & Hl & Ho & Hi)].
        -- left. exact Ha.
        -- right. exists (cx, cy), c.
           apply list_elem_of_In, filter_In in Hf as [Hin Hia].
           split; [apply elem_of_cons; left; reflexivity |].
           split; [apply IH2; exact Hc |].
           split; [apply list_elem_of_In; exact Hin | exact Hia].
        -- right. exists k, c1.
           split; [apply elem_of_cons; right; exact Hk |]. auto.
      * intros [Ha | (k & c1 & Hk & Hl & Ho & Hi)]; [left; left; exact Ha |].
        apply elem_of_cons in Hk as [-> | Hk].
        -- left. right. rewrite (IH2 _ _ Hc) in Hl. injection Hl as <-.
           apply list_elem_of_In, filter_In.
           split; [apply list_elem_of_In; exact Ho | exact Hi].
        -- right. exists k, c1. auto.
    + intros k c1 Hk. apply IH2, Hext. exact Hk.
    + intros k Hk. apply elem_of_cons in Hk as [-> | Hk]; [| auto].
      exists c. apply IH2. exact Hc.
Qed.

(** X26: [getObstaclesInArea] returns exactly the obstacles of the chunks
    between the chunk of [(minX, minY)] and the chunk of [(maxX, maxY)]
    whose box overlaps the open rectangle; it creates the chunks of that
    range that are missing and drops none.  (An obstacle of a neighbouring
    chunk that reaches into the rectangle is not returned: only the chunks
    of the range are read.) *)
Theorem getObstaclesInArea_exact (rt : Runtime) (minX minY maxX maxY : Q)
    (mg : MapGenerator.t) (w : World) :
  let r := MapGenerator.getObstaclesInArea rt minX minY maxX maxY mg w in
  let mg' := snd (fst r) in
  let s := MapGenerator.getChunkCoordinates minX minY in
  let e := MapGenerator.getChunkCoordinates maxX maxY in
  (forall o, o ∈ fst (fst r) <->
     exists kx ky c,
       (s.1 <= kx <= e.1)%Z /\ (s.2 <= ky <= e.2)%Z /\
       MapGenerator.chunks mg' !! (kx, ky) = Some c /\
       o ∈ Chunk.obstacles c /\
       Chunk.ox o < maxX /\ minX < Chunk.ox o + Chunk.owidth o /\
       Chunk.oy o < maxY /\ minY < Chunk.oy o + Chunk.oheight o) /\
  (forall kx ky, (s.1 <= kx <= e.1)%Z -> (s.2 <= ky <= e.2)%Z ->
     is_Some (MapGenerator.chunks mg' !! (kx, ky))) /\
  (forall k c, MapGenerator.chunks mg !! k = Some c ->
               MapGenerator.chunks mg' !! k = Some c).
Proof.
  cbv zeta. unfold MapGenerator.getObstaclesInArea.
  set (s := MapGenerator.getChunkCoordinates minX minY).
  set (e := MapGenerator.getChunkCoordinates maxX maxY).
  pose proof (collect_spec rt (MapGenerator.cells s.1 e.1 s.2 e.2)
                minX minY maxX maxY [] mg w) as H. cbv zeta in H.
  destruct H as (H1 & H2 & H3).
  split; [| split; [| exact H2]].
  - intros o. rewrite H1. split.
    + intros [Hn | ([kx ky] & c & Hk & Hl & Ho & Hi)]; [inversion Hn |].
      apply cells_elem in Hk. exists kx, ky, c.
      unfold MapGenerator.inArea in Hi.
      rewrite !andb_true_iff, !ltb_lt in Hi. tauto.
    + intros (kx & ky & c & Hx & Hy & Hl & Ho & Hi). right.
      exists (kx, ky), c. split; [apply cells_elem; auto |].
      split; [exact Hl |]. split; [exact Ho |].
      unfold MapGenerator.inArea. rewrite !andb_true_iff, !ltb_lt. tauto.
  - intros kx ky Hx Hy. apply H3. apply cells_elem. auto.
Qed.

Lemma getObstaclesInArea_exact_witness :
  let r := MapGenerator.getObstaclesInArea Scenario.rt0 (-10) (-10) 600 100
             Scenario.map0 Scenario.w0 in
  ((-1 <= 1 <= 1)%Z /\ (-1 <= 0 <= 0)%Z) /\
  is_Some (MapGenerator.chunks (snd (fst r)) !! (1, 0)%Z) /\
  forall o, o ∈ fst (fst r) -> Chunk.ox o < 600.
Proof.
  cbv zeta.
  assert (Hx : (-1 <= 1 <= 1)%Z) by lia.
  assert (Hy : (-1 <= 0 <= 0)%Z) by lia.
  split; [split; assumption |].
  destruct (getObstaclesInArea_exact Scenario.rt0 (-10) (-10) 600 100
              Scenario.map0 Scenario.w0) as (Hobs & Hin & _).
  split; [exact (Hin 1%Z 0%Z Hx Hy) |].
  intros o Ho. apply Hobs in Ho.
  destruct Ho as (kx & ky & c & _ & _ & _ & _ & Hlt & _). exact Hlt.
Defined.

(** ** Per-tick bookkeeping *)

Lemma survivors_app dt l1 l2 :
  Spec.survivors dt (l1 ++ l2) = Spec.survivors dt l1 ++ Spec.survivors dt l2.
Proof. unfold Spec.survivors. rewrite map_app, List.filter_app. reflexivity. Qed.

Lemma updateEffectAt_split dt (i : nat) (fx : list GameSystem.AttackEffect) e :
  fx !! i = Some e ->
  GameSystem.updateEffectAt dt i fx
  = take i fx ++ Spec.survivors dt [e] ++ drop (S i) fx.
Proof.
  intros He. unfold GameSystem.updateEffectAt. rewrite He.
  unfold Spec.survivors. cbn [map List.filter Spec.aged GameSystem.lifetime].
  assert (Hi : (i < length fx)%nat) by (eapply lookup_lt_Some; exact He).
  unfold JS.leb, JS.ltb.
  destruct (Qle_bool (GameSystem.lifetime e - dt) 0); cbn [negb app].
  - rewrite delete_take_drop. reflexivity.
  - rewrite insert_take_drop by exact Hi. reflexivity.
Qed.

(** The backward loop from [n]: the first [n] effects have been aged and
    filtered, the others are untouched. *)
Lemma updateEffectsFrom_split dt (n : nat) :
  forall fx : list GameSystem.AttackEffect, (n <= length fx)%nat ->
    GameSystem.updateEffectsFrom dt n fx
    = Spec.survivors dt (take n fx) ++ drop n fx.
Proof.
  induction n as [| i IH]; intros fx Hn.
  - cbn. rewrite drop_0. reflexivity.
  - cbn [GameSystem.updateEffectsFrom].
    destruct (lookup_lt_is_Some_2 fx i ltac:(lia)) as [e He].
    rewrite (updateEffectAt_split dt i fx e He).
    rewrite IH.
    2:{ rewrite length_app, length_take. lia. }
    rewrite take_app_le by (rewrite length_take; lia).
    rewrite take_take. replace (i `min` i)%nat with i by lia.
    rewrite (take_S_r fx i e He), survivors_app.
    rewrite drop_app_le by (rewrite length_take; lia).
    replace (drop i (take i fx)) with (@nil GameSystem.AttackEffect).
    2:{ symmetry. apply drop_ge. rewrite length_take. lia. }
    cbn [app]. rewrite <- app_assoc. reflexivity.
Qed.

(** X27: [updateAttackEffects] ages every effect by [deltaTime] and keeps,
    in order, those whose remaining lifetime is positive: the backward loop
    with [splice] skips no effect.  No effect with a lifetime at or below 0
    is left, the list never grows, and player, monsters and score are not
    touched. *)
Theorem updateAttackEffects_survivors (deltaTime : Q) (g : GameSystem.t) :
  let g' := GameSystem.updateAttackEffects deltaTime g in
  GameSystem.attackEffects g'
  = Spec.survivors deltaTime (GameSystem.attackEffects g) /\
  Forall (fun e => 0 < GameSystem.lifetime e) (GameSystem.attackEffects g') /\
  (length (GameSystem.attackEffects g')
   <= length (GameSystem.attackEffects g))%nat /\
  GameSystem.player g' = GameSystem.player g /\
  GameSystem.monsters g' = GameSystem.monsters g /\
  GameSystem.score g' = GameSystem.score g.
Proof.
  cbv zeta. unfold GameSystem.updateAttackEffects.
  cbn [GameSystem.attackEffects GameSystem.with_combat GameSystem.player
       GameSystem.monsters GameSystem.score].
  rewrite updateEffectsFrom_split by lia.
  rewrite firstn_all, drop_all, app_nil_r.
  split; [reflexivity |]. split; [| split; [| auto]].
  - unfold Spec.survivors. apply Forall_forall. intros e He.
    apply list_elem_of_In, filter_In in He as [_ He]. apply ltb_lt. exact He.
  - unfold Spec.survivors.
    etransitivity; [apply List.filter_length_le |]. rewrite length_map. lia.
Qed.

(** ** The attack sweep and monster deaths *)

Lemma levelUpLoop_keeps rt (fuel : nat) :
  forall (p : Player.t) (w : World) p' w',
    Player.levelUpLoop rt fuel p w = Some (p', w') ->
    Player.x p' = Player.x p /\ Player.y p' = Player.y p /\
    Player.equipment p' = Player.equipment p /\ heap w' = heap w.
Proof.
  induction fuel as [| n IH]; intros p w p' w' H;
    cbn [Player.levelUpLoop] in H.
  - destruct (JS.geb _ _); [discriminate |]. injection H as <- <-. auto.
  - destruct (JS.geb _ _); [| injection H as <- <-; auto].
    assert (Hl : Player.x (fst (Player.levelUp rt p w)) = Player.x p /\
                 Player.y (fst (Player.levelUp rt p w)) = Player.y p /\
                 Player.equipment (fst (Player.levelUp rt p w))
                 = Player.equipment p /\
                 heap (snd (Player.levelUp rt p w)) = heap w).
    { unfold Player.levelUp, bind, gameUtils.randomInt, bind, random_draw,
        ret. cbn. auto. }
    destruct (Player.levelUp rt p w) as [p1 w1]. cbn [fst snd] in *.
    destruct Hl as (Hx & Hy & He & Hh).
    destruct (IH p1 w1 p' w' H) as (Hx' & Hy' & He' & Hh').
    repeat split; congruence.
Qed.

Lemma addLoot_fields (loot : list nat) :
  forall (p : Player.t) (w : World),
    let p' := fst (GameSystem.addLoot loot p w) in
    Player.x p' = Player.x p /\ Player.y p' = Player.y p /\
    Player.experience p' = Player.experience p /\
    Player.experienceToNextLevel p' = Player.experienceToNextLevel p.
Proof.
  induction loot as [| l rest IH]; intros p w; cbv zeta; [cbn; auto |].
  cbn [GameSystem.addLoot]. unfold bind.
  assert (H : let q := fst (Player.addEquipment l p w) in
              Player.x q = Player.x p /\ Player.y q = Player.y p /\
              Player.experience q = Player.experience p /\
              Player.experienceToNextLevel q
              = Player.experienceToNextLevel p).
  { cbv zeta. unfold Player.addEquipment, bind, get_heap.
    destruct (heap w !! l); [| cbn; auto].
    unfold alloc, ret. cbn. auto. }
  cbv zeta in H. destruct (Player.addEquipment l p w) as [q w1].
  cbn [fst] in H. destruct H as (Hx & Hy & He & Ht).
  destruct (IH q w1) as (Hx' & Hy' & He' & Ht'). repeat split; congruence.
Qed.

(** [dropLoot] creates at most one object and touches no other. *)
Lemma dropLoot_outcome rt (m : Monster.t) (w : World) :
  let r := Monster.dropLoot rt m w in
  (fst r = [] /\ heap (snd r) = heap w) \/
  (exists (l : nat) (e : Equipment.t),
     fst r = [l] /\ heap w !! l = None /\ heap (snd r) !! l = Some e /\
     (forall k, k <> l -> heap (snd r) !! k = heap w !! k)).
Proof.
  cbv zeta. unfold Monster.dropLoot.
  unfold bind, random_draw, gameUtils.generateId, bind, now, random_draw,
    ret, alloc.
  cbn [rnd clk heap].
  destruct (JS.ltb (Math_random rt (rnd w)) _); [| left; split; reflexivity].
  right.
  destruct (Monster.lootRarity m _); cbn [fst snd heap];
    (eexists; eexists;
     split; [reflexivity |];
     split; [apply not_elem_of_dom, is_fresh |];
     split; [apply lookup_insert_eq |];
     intros k Hk; rewrite lookup_insert_ne by congruence; reflexivity).
Qed.

(** The whole of [handleMonsterDeath], for a threshold of at least 1. *)
Lemma handleMonsterDeath_returns (rt : Runtime) (monster : Monster.t)
    (index : nat) (g : GameSystem.t) (w : World) :
  1 <= Player.experienceToNextLevel (GameSystem.player g) ->
  exists (n : nat) (g' : GameSystem.t) (w' : World) (ls : list nat),
    (forall fuel, (n <= fuel)%nat ->
       GameSystem.handleMonsterDeath rt fuel monster index g w
       = Some (g', w')) /\
    GameSystem.monsters g' = delete index (GameSystem.monsters g) /\
    GameSystem.score g'
    = GameSystem.score g + Monster.experienceReward monster /\
    (Player.experience (GameSystem.player g')
     < Player.experienceToNextLevel (GameSystem.player g') /\
     1 <= Player.experienceToNextLevel (GameSystem.player g')) /\
    (Player.x (GameSystem.player g') = Player.x (GameSystem.player g) /\
     Player.y (GameSystem.player g') = Player.y (GameSystem.player g)) /\
    Player.equipment (GameSystem.player g')
    = Player.equipment (GameSystem.player g) ++ ls /\
    (length ls <= 1)%nat /\
    (forall l, l ∈ ls ->
       heap w !! l = None /\
       Equipment.isEquipped <$> heap w' !! l = Some false) /\
    (forall k, is_Some (heap w !! k) -> heap w' !! k = heap w !! k).
Proof.
  intros Hthr. unfold GameSystem.handleMonsterDeath.
  unfold Player.gainExperience.
  set (q := Player.set_experience
              (Player.experience (GameSystem.player g)
               + Monster.experienceReward monster) (GameSystem.player g)).
  set (n := Z.to_nat (Qfloor (Player.experience q) + 1)).
  assert (Hexp : Player.experience q < inject_Z (Z.of_nat n)).
  { pose proof (Qlt_floor (Player.experience q)) as Hf. subst n.
    destruct (Z_lt_le_dec (Qfloor (Player.experience q) + 1) 0)
      as [Hneg | Hpos].
    - replace (Z.of_nat (Z.to_nat (Qfloor (Player.experience q) + 1)))
        with 0%Z by lia.
      apply Qlt_trans with (1 := Hf). now rewrite <- Zlt_Qlt.
    - now rewrite Z2Nat.id by lia. }
  destruct (levelUpLoop_terminates rt n q w Hthr Hexp)
    as (p1 & w1 & Hr & Hlt & Hge & _).
  destruct (levelUpLoop_keeps rt n q w p1 w1 Hr) as (Hx1 & Hy1 & He1 & Hh1).
  pose proof (dropLoot_outcome rt monster w1) as Hd. cbv zeta in Hd.
  destruct (Monster.dropLoot rt monster w1) as [loot w2] eqn:El.
  cbn [fst snd] in Hd.
  assert (Hloot : forall l, l ∈ loot -> is_Some (heap w2 !! l)).
  { destruct Hd as [[-> _] | (l0 & e & -> & _ & Hl0 & _)]; intros l Hl.
    - inversion Hl.
    - apply list_elem_of_singleton in Hl. subst l. eauto. }
  destruct (addLoot_unequipped loot p1 w2 Hloot)
    as (ls & Heq & Hlen & Hnew & Hold).
  pose proof (addLoot_fields loot p1 w2) as Hf. cbv zeta in Hf.
  destruct (GameSystem.addLoot loot p1 w2) as [p2 w3] eqn:Ea.
  cbn [fst snd] in *. destruct Hf as (Hx2 & Hy2 & Hxp2 & Ht2).
  exists n. eexists. exists w3, ls. split.
  { intros fuel Hfu.
    rewrite (levelUpLoop_fuel_mono rt n q w (p1, w1) fuel Hr Hfu).
    rewrite El, Ea. reflexivity. }
  cbn [GameSystem.monsters GameSystem.score GameSystem.player
       GameSystem.with_combat].
  split; [reflexivity |]. split; [reflexivity |].
  split; [rewrite Hxp2, Ht2; split; assumption |].
  split; [split; [rewrite Hx2, Hx1 | rewrite Hy2, Hy1]; reflexivity |].
  split; [rewrite Heq, He1; reflexivity |].
  split.
  { rewrite Hlen. destruct Hd as [[-> _] | (l0 & e & -> & _)]; cbn; lia. }
  assert (Hsub : forall k, is_Some (heap w !! k) ->
                           heap w2 !! k = heap w !! k).
  { intros k Hk. rewrite <- Hh1 in *.
    destruct Hd as [[_ ->] | (l0 & e & _ & Hn0 & _ & Hrest)];
      [reflexivity |].
    apply Hrest. intros ->. rewrite Hn0 in Hk. destruct Hk; discriminate. }
  split.
  - intros l Hl. destruct (Hnew l Hl) as [Hn Hf']. split; [| exact Hf'].
    destruct (heap w !! l) eqn:E; [| reflexivity].
    rewrite <- (Hsub l) in E by (rewrite E; eauto). congruence.
  - intros k Hk. rewrite Hold; [apply Hsub; exact Hk |].
    rewrite (Hsub k Hk). exact Hk.
Qed.

(** X28: for a player whose threshold is at least 1 (as it is for every
    player the code builds), [handleMonsterDeath] returns: it removes the
    monster at [index], adds its reward to the score, leaves the player
    below the next threshold, and appends at most one item to
    [player.equipment], a new object that is not equipped; every object
    that existed is untouched. *)
Theorem handleMonsterDeath_effect (rt : Runtime) (monster : Monster.t)
    (index : nat) (g : GameSystem.t) (w : World) :
  1 <= Player.experienceToNextLevel (GameSystem.player g) ->
  exists (n : nat) (g' : GameSystem.t) (w' : World) (ls : list nat),
    (forall fuel, (n <= fuel)%nat ->
       GameSystem.handleMonsterDeath rt fuel monster index g w
       = Some (g', w')) /\
    GameSystem.monsters g' = delete index (GameSystem.monsters g) /\
    GameSystem.score g'
    = GameSystem.score g + Monster.experienceReward monster /\
    Player.experience (GameSystem.player g')
    < Player.experienceToNextLevel (GameSystem.player g') /\
    Player.equipment (GameSystem.player g')
    = Player.equipment (GameSystem.player g) ++ ls /\
    (length ls <= 1)%nat /\
    (forall l, l ∈ ls ->
       heap w !! l = None /\
       Equipment.isEquipped <$> heap w' !! l = Some false) /\
    (forall k, is_Some (heap w !! k) -> heap w' !! k = heap w !! k).
Proof.
  intros Hthr.
  destruct (handleMonsterDeath_returns rt monster index g w Hthr)
    as (n & g' & w' & ls & Hr & Hm & Hs & [Hx _] & _ & He & Hl & Hn & Hk).
  exists n, g', w', ls. auto 10.
Qed.

Lemma handleMonsterDeath_effect_witness :
  1 <= Player.experienceToNextLevel (GameSystem.player Scenario.gameKill) /\
  exists (n : nat) (g' : GameSystem.t) (w' : World) (ls : list nat),
    (forall fuel, (n <= fuel)%nat ->
       GameSystem.handleMonsterDeath Scenario.rt0 fuel Scenario.monster0 0
         Scenario.gameKill Scenario.w0 = Some (g', w')) /\
    GameSystem.monsters g' = delete 0%nat (GameSystem.monsters Scenario.gameKill) /\
    GameSystem.score g'
    = GameSystem.score Scenario.gameKill
      + Monster.experienceReward Scenario.monster0 /\
    Player.experience (GameSystem.player g')
    < Player.experienceToNextLevel (GameSystem.player g') /\
    Player.equipment (GameSystem.player g')
    = Player.equipment (GameSystem.player Scenario.gameKill) ++ ls /\
    (length ls <= 1)%nat /\
    (forall l, l ∈ ls ->
       heap Scenario.w0 !! l = None /\
       Equipment.isEquipped <$> heap w' !! l = Some false) /\
    (forall k, is_Some (heap Scenario.w0 !! k) ->
       heap w' !! k = heap Scenario.w0 !! k).
Proof.
  assert (H : 1 <= Player.experienceToNextLevel
                     (GameSystem.player Scenario.gameKill))
    by (vm_compute; discriminate).
  split; [exact H |].
  exact (handleMonsterDeath_effect Scenario.rt0 Scenario.monster0 0
           Scenario.gameKill Scenario.w0 H).
Defined.

Lemma inReach_comp (p q : Player.t) (m : Monster.t) :
  Player.x q = Player.x p -> Player.y q = Player.y p ->
  Spec.inReach q m = Spec.inReach p m.
Proof. intros Hx Hy. unfold Spec.inReach. rewrite Hx, Hy. reflexivity. Qed.

(** One iteration of the sweep, at index [i]: the monsters after [i] have
    been dealt with, and so has the one at [i] afterwards, also when it is
    spliced out and the later ones move down by one. *)
Lemma attackMonsterAt_step rt (d : Q) (i : nat) (g : GameSystem.t)
    (w : World) :
  1 <= Player.experienceToNextLevel (GameSystem.player g) ->
  (forall j m, (i < j)%nat -> GameSystem.monsters g !! j = Some m ->
     Spec.inReach (GameSystem.player g) m = true -> 0 < Monster.health m) ->
  exists (n : nat) (g' : GameSystem.t) (w' : World),
    (forall fuel, (n <= fuel)%nat ->
       GameSystem.attackMonsterAt rt fuel d i g w = Some (g', w')) /\
    1 <= Player.experienceToNextLevel (GameSystem.player g') /\
    Player.x (GameSystem.player g') = Player.x (GameSystem.player g) /\
    Player.y (GameSystem.player g') = Player.y (GameSystem.player g) /\
    (length (GameSystem.monsters g') <= length (GameSystem.monsters g))%nat /\
    (forall j m, (i <= j)%nat -> GameSystem.monsters g' !! j = Some m ->
       Spec.inReach (GameSystem.player g') m = true -> 0 < Monster.health m).
Proof.
  intros Hthr Hdone. unfold GameSystem.attackMonsterAt.
  destruct (GameSystem.monsters g !! i) as [monster |] eqn:Em.
  2:{ exists O, g, w. split; [reflexivity |].
      repeat split; try assumption; try lia.
      intros j m Hj Hl. apply (Hdone j m); [| exact Hl].
      destruct (decide (j = i)) as [-> |]; [congruence | lia]. }
  fold (Spec.inReach (GameSystem.player g) monster).
  destruct (Spec.inReach (GameSystem.player g) monster) eqn:Er.
  2:{ exists O, g, w. split; [reflexivity |].
      repeat split; try assumption; try lia.
      intros j m Hj Hl. destruct (decide (j = i)) as [-> | Hne].
      - rewrite Em in Hl. injection Hl as <-. congruence.
      - apply (Hdone j m); [lia | exact Hl]. }
  destruct (Monster.takeDamage d monster) as [isDead monster'] eqn:Et.
  assert (Hdead : isDead = JS.leb (Monster.health monster') 0).
  { unfold Monster.takeDamage in Et. injection Et as <- <-. reflexivity. }
  set (g1 := GameSystem.with_combat (GameSystem.player g)
               (<[i:=monster']> (GameSystem.monsters g)) (GameSystem.score g)
               (GameSystem.attackEffects g) g).
  set (g2 := GameSystem.createAttackEffect (Monster.x monster')
               (Monster.y monster') d "#FF6B6B" g1).
  assert (Hp2 : GameSystem.player g2 = GameSystem.player g) by reflexivity.
  assert (Hm2 : GameSystem.monsters g2
                = <[i:=monster']> (GameSystem.monsters g)) by reflexivity.
  destruct isDead.
  - destruct (handleMonsterDeath_returns rt monster' i g2 w)
      as (n & g' & w' & ls & Hr & Hms & _ & [_ Hge] & [Hx Hy] & _).
    { rewrite Hp2. exact Hthr. }
    exists n, g', w'. split; [exact Hr |]. split; [exact Hge |].
    rewrite Hp2 in Hx, Hy. split; [exact Hx |]. split; [exact Hy |].
    rewrite Hms, Hm2. split.
    + rewrite length_delete.
      * rewrite length_insert. lia.
      * rewrite list_lookup_insert_eq; [eauto |].
        eapply lookup_lt_Some; exact Em.
    + intros j m Hj Hl Hin. rewrite list_lookup_delete_ge in Hl by lia.
      rewrite list_lookup_insert_ne in Hl by lia.
      apply (Hdone (S j) m); [lia | exact Hl |].
      rewrite <- Hin. symmetry. apply inReach_comp; assumption.
  - exists O, g2, w. split; [reflexivity |]. rewrite Hp2, Hm2.
    split; [exact Hthr |]. split; [reflexivity |]. split; [reflexivity |].
    split; [rewrite length_insert; lia |].
    intros j m Hj Hl Hin. destruct (decide (j = i)) as [-> | Hne].
    + rewrite list_lookup_insert_eq in Hl
        by (eapply lookup_lt_Some; exact Em).
      injection Hl as <-. symmetry in Hdead. apply leb_gt in Hdead.
      exact Hdead.
    + rewrite list_lookup_insert_ne in Hl by congruence.
      apply (Hdone j m); [lia | exact Hl | exact Hin].
Qed.

Lemma sweepMonsters_returns rt (d : Q) (n : nat) :
  forall (g : GameSystem.t) (w : World),
    1 <= Player.experienceToNextLevel (GameSystem.player g) ->
    (forall j m, (n <= j)%nat -> GameSystem.monsters g !! j = Some m ->
       Spec.inReach (GameSystem.player g) m = true -> 0 < Monster.health m) ->
    exists (n0 : nat) (g' : GameSystem.t) (w' : World),
      (forall fuel, (n0 <= fuel)%nat ->
         GameSystem.sweepMonsters rt fuel d n g w = Some (g', w')) /\
      Player.x (GameSystem.player g') = Player.x (GameSystem.player g) /\
      Player.y (GameSystem.player g') = Player.y (GameSystem.player g) /\
      (length (GameSystem.monsters g')
       <= length (GameSystem.monsters g))%nat /\
      (forall m, m ∈ GameSystem.monsters g' ->
         Spec.inReach (GameSystem.player g') m = true ->
         0 < Monster.health m).
Proof.
  induction n as [| i IH]; intros g w Hthr Hdone.
  - exists O, g, w. split; [reflexivity |]. repeat split; try lia.
    intros m Hm. apply list_elem_of_lookup in Hm as [j Hj].
    apply (Hdone j m); [lia | exact Hj].
  - destruct (attackMonsterAt_step rt d i g w Hthr) as
      (n1 & g1 & w1 & Hr1 & Hge1 & Hx1 & Hy1 & Hlen1 & Hdone1).
    { intros j m Hj. apply Hdone. lia. }
    destruct (IH g1 w1 Hge1 Hdone1)
      as (n2 & g' & w' & Hr2 & Hx2 & Hy2 & Hlen2 & Hall).
    exists (n1 `max` n2)%nat, g', w'. split.
    + intros fuel Hf. cbn [GameSystem.sweepMonsters].
      rewrite (Hr1 fuel) by lia. apply Hr2. lia.
    + repeat split; try congruence; try lia. exact Hall.
Qed.

(** X29: with the attack input held and a threshold of at least 1,
    [checkPlayerAttacks] returns, and when it does no monster within the
    reach of 150 is left with health at or below 0: the backward loop
    visits every monster once, also after a dead one is spliced out.  The
    monster list never grows and the player does not move. *)
Theorem checkPlayerAttacks_clears_reach (rt : Runtime) (g : GameSystem.t)
    (w : World) :
  1 <= Player.experienceToNextLevel (GameSystem.player g) ->
  Spec.attackHeld g ->
  exists (n0 : nat) (g' : GameSystem.t) (w' : World),
    (forall fuel, (n0 <= fuel)%nat ->
       GameSystem.checkPlayerAttacks rt fuel g w = Some (g', w')) /\
    (forall m, m ∈ GameSystem.monsters g' ->
       Spec.inReach (GameSystem.player g') m = true ->
       0 < Monster.health m) /\
    (length (GameSystem.monsters g') <= length (GameSystem.monsters g))%nat /\
    Player.x (GameSystem.player g') = Player.x (GameSystem.player g) /\
    Player.y (GameSystem.player g') = Player.y (GameSystem.player g).
Proof.
  intros Hthr Hheld. unfold GameSystem.checkPlayerAttacks.
  rewrite (attackHeld_test g Hheld).
  set (g1 := GameSystem.createAttackEffect _ _ 0 "#FF4500" g).
  assert (Hp : let r := Player.performAttack rt (GameSystem.player g1) w in
               Player.x (snd (fst r)) = Player.x (GameSystem.player g) /\
               Player.y (snd (fst r)) = Player.y (GameSystem.player g) /\
               Player.experienceToNextLevel (snd (fst r))
               = Player.experienceToNextLevel (GameSystem.player g)).
  { cbv zeta.
    unfold Player.performAttack, bind, Player.canAttack, bind, now, ret,
      get_heap, random_draw. cbn [fst snd].
    destruct (JS.geb _ _); cbn; auto. }
  cbv zeta in Hp.
  destruct (Player.performAttack rt (GameSystem.player g1) w)
    as [[dmg p1] w1].
  cbn [fst snd] in Hp. destruct Hp as (Hx & Hy & Ht).
  set (d := if JS.ltb 0 dmg then dmg else 25).
  set (g2 := GameSystem.with_combat p1 (GameSystem.monsters g1)
               (GameSystem.score g1) (GameSystem.attackEffects g1) g1).
  destruct (sweepMonsters_returns rt d (length (GameSystem.monsters g2)) g2 w1)
    as (n0 & g' & w' & Hr & Hx' & Hy' & Hlen & Hall).
  { cbn. rewrite Ht. exact Hthr. }
  { intros j m Hj Hl. apply lookup_lt_Some in Hl. lia. }
  exists n0, g', w'. split; [exact Hr |]. split; [exact Hall |].
  cbn in Hx', Hy', Hlen. repeat split; congruence.
Qed.

Lemma checkPlayerAttacks_clears_reach_witness :
  (1 <= Player.experienceToNextLevel (GameSystem.player Scenario.gameKill) /\
   Spec.attackHeld Scenario.gameKill) /\
  exists (n0 : nat) (g' : GameSystem.t) (w' : World),
    (forall fuel, (n0 <= fuel)%nat ->
       GameSystem.checkPlayerAttacks Scenario.rt0 fuel Scenario.gameKill
         Scenario.w0 = Some (g', w')) /\
    (forall m, m ∈ GameSystem.monsters g' ->
       Spec.inReach (GameSystem.player g') m = true ->
       0 < Monster.health m) /\
    (length (GameSystem.monsters g')
     <= length (GameSystem.monsters Scenario.gameKill))%nat /\
    Player.x (GameSystem.player g')
    = Player.x (GameSystem.player Scenario.gameKill) /\
    Player.y (GameSystem.player g')
    = Player.y (GameSystem.player Scenario.gameKill).
Proof.
  assert (H : 1 <= Player.experienceToNextLevel
                     (GameSystem.player Scenario.gameKill))
    by (vm_compute; discriminate).
  assert (Hheld : Spec.attackHeld Scenario.gameKill)
    by (left; change (" "%string ∈ ({[ " "%string ]} : gset string));
        now apply elem_of_singleton_2).
  split; [split; assumption |].
  exact (checkPlayerAttacks_clears_reach Scenario.rt0 Scenario.gameKill
           Scenario.w0 H Hheld).
Defined.

(** X30: a threshold of 0 is the one value that [gainExperience] cannot
    cope with: with [experienceToNextLevel] equal to 0 and experience that
    is not negative after the gain, [levelUp] keeps the threshold at
    [floor(0 * 1.5) = 0] and the loop condition stays true, so the call
    does not return, however many iterations it is given. *)
Theorem gainExperience_threshold_zero_diverges (rt : Runtime) (p : Player.t)
    (amount : Q) (w : World) :
  Player.experienceToNextLevel p == 0 ->
  0 <= Player.experience p + amount ->
  forall fuel : nat, Player.gainExperience rt fuel amount p w = None.
Proof.
  intros Hz Hx fuel. unfold Player.gainExperience.
  apply levelUpLoop_threshold_zero_diverges; [exact Hz | exact Hx].
Qed.

Lemma gainExperience_threshold_zero_diverges_witness :
  (Player.experienceToNextLevel Scenario.playerNoThreshold == 0 /\
   0 <= Player.experience Scenario.playerNoThreshold + 10) /\
  forall fuel : nat,
    Player.gainExperience Scenario.rt0 fuel 10 Scenario.playerNoThreshold
      Scenario.w0 = None.
Proof.
  assert (Hz : Player.experienceToNextLevel Scenario.playerNoThreshold == 0)
    by reflexivity.
  assert (Hx : 0 <= Player.experience Scenario.playerNoThreshold + 10)
    by (vm_compute; discriminate).
  split; [split; assumption |].
  exact (gainExperience_threshold_zero_diverges Scenario.rt0
           Scenario.playerNoThreshold 10 Scenario.w0 Hz Hx).
Defined.
